(** * gltf-viewer: camera controllers and scene traversal

    A shallow embedding of
    - [src/apps/gltf-viewer/utils/cameras.cpp]
        ([FirstPersonCameraController::update],
         [TrackballCameraController::update]) and
    - [ViewerApplication::run] ([drawScene], [drawNode], the root loop)
    together with the properties the specification states about them.

    The C++ code is written against glm, whose vector types are templates
    over the scalar type.  The embedding follows that: all code is written
    once over a class [Scalar] and then read at two instances,
    - [binary32], IEEE 754 single precision with round-to-nearest-even
      ([SpecFloat] at precision 24 and emax 128); this is the [float] the
      program runs on, and it computes;
    - [R], exact real arithmetic, the idealisation in which the geometric
      statements of the specification are phrased. *)

From Stdlib Require Import Strings.String.
From Stdlib Require Import ZArith Bool List Lia.
From Stdlib Require Import Relations.Relation_Operators Relations.Operators_Properties.
From Stdlib Require Import Floats.SpecFloat.
From Stdlib Require Import Reals Lra.
Import ListNotations.

Set Implicit Arguments.

Declare Scope glm_scope.
Delimit Scope glm_scope with g.

(** ** Scalars *)

(** The operations glm needs of its scalar parameter [T].  [s_lit p q] is
    the literal whose decimal value is [p / q] ([0.01f] is [s_lit 1 100]).
    [s_ltb] and [s_eqb] are C++ [<] and [==]. *)
Class Scalar (T : Type) : Type := {
  s_zero : T;
  s_one : T;
  s_lit : Z -> Z -> T;
  s_add : T -> T -> T;
  s_sub : T -> T -> T;
  s_mul : T -> T -> T;
  s_div : T -> T -> T;
  s_opp : T -> T;
  s_sqrt : T -> T;
  s_ltb : T -> T -> bool;
  s_eqb : T -> T -> bool
}.

(** [cos] and [sin] of <cmath>, used by [glm::rotate] only. *)
Class Trig (T : Type) : Type := {
  s_cos : T -> T;
  s_sin : T -> T
}.

(** The cursor position is a [double] ([glm::dvec2]); the controllers
    subtract two positions in [double] and convert the difference with
    [float(...)]. *)
Class Cursor (D T : Type) : Type := {
  d_zero : D;
  d_sub : D -> D -> D;
  d_to_float : D -> T
}.

Notation "x + y" := (s_add x y) : glm_scope.
Notation "x - y" := (s_sub x y) : glm_scope.
Notation "x * y" := (s_mul x y) : glm_scope.
Notation "x / y" := (s_div x y) : glm_scope.
Notation "- x" := (s_opp x) : glm_scope.
Notation "x <? y" := (s_ltb x y) : glm_scope.
Notation "x =? y" := (s_eqb x y) : glm_scope.

(** Conversion of a scalar to [bool], as in [a || b] on floats: true
    unless the value compares equal to zero. *)
Definition to_bool {T} `{Scalar T} (x : T) : bool := negb (x =? s_zero)%g.

(** [glm::min(x, y)] is [(y < x) ? y : x]. *)
Definition glm_min {T} `{Scalar T} (x y : T) : T :=
  if (y <? x)%g then y else x.

(** *** IEEE 754 binary32 *)

Module F32.

Definition prec : Z := 24.
Definition emax : Z := 128.

Definition of_Z (z : Z) : spec_float := binary_normalize prec emax z 0 false.

Definition zero : spec_float := S754_zero false.
Definition one : spec_float := Eval vm_compute in of_Z 1.

(** A decimal literal [p / q] with [p] and [q] integers below [2^24] is
    the float nearest to the quotient, which is what one correctly rounded
    division of the two integers returns. *)
Definition lit (p q : Z) : spec_float := SFdiv prec emax (of_Z p) (of_Z q).

Definition is_zero (x : spec_float) : bool :=
  match x with S754_zero _ => true | _ => false end.

(** Neither a NaN nor an infinity. *)
Definition is_finite (x : spec_float) : bool :=
  match x with
  | S754_zero _ | S754_finite _ _ _ => true
  | S754_infinity _ | S754_nan => false
  end.

End F32.

#[export] Instance binary32 : Scalar spec_float := {
  s_zero := F32.zero;
  s_one := F32.one;
  s_lit := F32.lit;
  s_add := SFadd F32.prec F32.emax;
  s_sub := SFsub F32.prec F32.emax;
  s_mul := SFmul F32.prec F32.emax;
  s_div := SFdiv F32.prec F32.emax;
  s_opp := SFopp;
  s_sqrt := SFsqrt F32.prec F32.emax;
  s_ltb := SFltb;
  s_eqb := SFeqb
}.

(** *** IEEE 754 binary64, for cursor positions *)

Module F64.

Definition prec : Z := 53.
Definition emax : Z := 1024.

Definition of_Z (z : Z) : spec_float := binary_normalize prec emax z 0 false.

(** [float(x)] for a [double] [x]: round to the nearest binary32. *)
Definition to_float (x : spec_float) : spec_float :=
  match x with
  | S754_finite s m e => binary_round F32.prec F32.emax s m e
  | _ => x
  end.

End F64.

(** [double] and [float] are both carried by [spec_float]; a wrapper keeps
    the two apart. *)
Record double : Type := Double { double_val : spec_float }.

#[export] Instance cursor_binary64 : Cursor double spec_float := {
  d_zero := Double (S754_zero false);
  d_sub := fun x y => Double (SFsub F64.prec F64.emax (double_val x) (double_val y));
  d_to_float := fun x => F64.to_float (double_val x)
}.

(** *** Exact reals *)

Definition Rltb (x y : R) : bool := if Rlt_dec x y then true else false.
Definition Reqb (x y : R) : bool := if Req_dec_T x y then true else false.

#[export] Instance exact : Scalar R := {
  s_zero := 0%R;
  s_one := 1%R;
  s_lit := fun p q => (IZR p / IZR q)%R;
  s_add := Rplus;
  s_sub := Rminus;
  s_mul := Rmult;
  s_div := Rdiv;
  s_opp := Ropp;
  s_sqrt := sqrt;
  s_ltb := Rltb;
  s_eqb := Reqb
}.

#[export] Instance exact_trig : Trig R := {
  s_cos := cos;
  s_sin := sin
}.


(** ** glm vectors and matrices *)

Record vec2 (T : Type) : Type := Vec2 { x2 : T; y2 : T }.
Record vec3 (T : Type) : Type := Vec3 { x3 : T; y3 : T; z3 : T }.
Record vec4 (T : Type) : Type := Vec4 { x4 : T; y4 : T; z4 : T; w4 : T }.

(** [glm::mat4] is column major: [m[c]] is column [c]. *)
Record mat4 (T : Type) : Type :=
  Mat4 { col0 : vec4 T; col1 : vec4 T; col2 : vec4 T; col3 : vec4 T }.

Section Glm.

Context {T : Type} `{Scalar T}.

Local Open Scope glm_scope.

Definition vec3_add (a b : vec3 T) : vec3 T :=
  Vec3 (x3 a + x3 b) (y3 a + y3 b) (z3 a + z3 b).

Definition vec3_sub (a b : vec3 T) : vec3 T :=
  Vec3 (x3 a - x3 b) (y3 a - y3 b) (z3 a - z3 b).

(** [v1 * v2], component by component *)
Definition vec3_mul (a b : vec3 T) : vec3 T :=
  Vec3 (x3 a * x3 b) (y3 a * y3 b) (z3 a * z3 b).

(** [s * v] *)
Definition vec3_scale (s : T) (v : vec3 T) : vec3 T :=
  Vec3 (s * x3 v) (s * y3 v) (s * z3 v).

(** [v * s] *)
Definition vec3_scale_r (v : vec3 T) (s : T) : vec3 T :=
  Vec3 (x3 v * s) (y3 v * s) (z3 v * s).

(** [v / s] *)
Definition vec3_div (v : vec3 T) (s : T) : vec3 T :=
  Vec3 (x3 v / s) (y3 v / s) (z3 v / s).

(** [glm::dot]: [tmp = a * b; tmp.x + tmp.y + tmp.z] *)
Definition dot (a b : vec3 T) : T :=
  let tmp := vec3_mul a b in x3 tmp + y3 tmp + z3 tmp.

Definition cross (a b : vec3 T) : vec3 T :=
  Vec3 (y3 a * z3 b - y3 b * z3 a)
       (z3 a * x3 b - z3 b * x3 a)
       (x3 a * y3 b - x3 b * y3 a).

(** [glm::length(v)] is [sqrt(dot(v, v))]. *)
Definition glm_length (v : vec3 T) : T := s_sqrt (dot v v).

Definition inversesqrt (x : T) : T := s_one / s_sqrt x.

(** [glm::normalize(v)] is [v * inversesqrt(dot(v, v))]. *)
Definition normalize (v : vec3 T) : vec3 T :=
  vec3_scale_r v (inversesqrt (dot v v)).

(** [glm::vec4(v, w)] and [glm::vec3(v4)] *)
Definition vec4_of (v : vec3 T) (w : T) : vec4 T := Vec4 (x3 v) (y3 v) (z3 v) w.
Definition vec3_of (v : vec4 T) : vec3 T := Vec3 (x4 v) (y4 v) (z4 v).

Definition vec4_add (a b : vec4 T) : vec4 T :=
  Vec4 (x4 a + x4 b) (y4 a + y4 b) (z4 a + z4 b) (w4 a + w4 b).

(** [v * s] *)
Definition vec4_scale_r (v : vec4 T) (s : T) : vec4 T :=
  Vec4 (x4 v * s) (y4 v * s) (z4 v * s) (w4 v * s).

(** [glm::mat4(1)] *)
Definition mat4_identity : mat4 T :=
  Mat4 (Vec4 s_one s_zero s_zero s_zero)
       (Vec4 s_zero s_one s_zero s_zero)
       (Vec4 s_zero s_zero s_one s_zero)
       (Vec4 s_zero s_zero s_zero s_one).

(** [m * v]: glm adds the four scaled columns pairwise,
    [(m[0]*v[0] + m[1]*v[1]) + (m[2]*v[2] + m[3]*v[3])]. *)
Definition mat4_mul_vec4 (m : mat4 T) (v : vec4 T) : vec4 T :=
  let Add0 := vec4_add (vec4_scale_r (col0 m) (x4 v)) (vec4_scale_r (col1 m) (y4 v)) in
  let Add1 := vec4_add (vec4_scale_r (col2 m) (z4 v)) (vec4_scale_r (col3 m) (w4 v)) in
  vec4_add Add0 Add1.

(** One column of [a * b]:
    [a[0]*c[0] + a[1]*c[1] + a[2]*c[2] + a[3]*c[3]], added left to right. *)
Definition mat4_mul_col (a : mat4 T) (c : vec4 T) : vec4 T :=
  vec4_add
    (vec4_add
       (vec4_add (vec4_scale_r (col0 a) (x4 c)) (vec4_scale_r (col1 a) (y4 c)))
       (vec4_scale_r (col2 a) (z4 c)))
    (vec4_scale_r (col3 a) (w4 c)).

Definition mat4_mul (a b : mat4 T) : mat4 T :=
  Mat4 (mat4_mul_col a (col0 b)) (mat4_mul_col a (col1 b))
       (mat4_mul_col a (col2 b)) (mat4_mul_col a (col3 b)).

Definition transpose (m : mat4 T) : mat4 T :=
  Mat4 (Vec4 (x4 (col0 m)) (x4 (col1 m)) (x4 (col2 m)) (x4 (col3 m)))
       (Vec4 (y4 (col0 m)) (y4 (col1 m)) (y4 (col2 m)) (y4 (col3 m)))
       (Vec4 (z4 (col0 m)) (z4 (col1 m)) (z4 (col2 m)) (z4 (col3 m)))
       (Vec4 (w4 (col0 m)) (w4 (col1 m)) (w4 (col2 m)) (w4 (col3 m))).

(** [m * s] *)
Definition mat4_scale_r (m : mat4 T) (s : T) : mat4 T :=
  Mat4 (vec4_scale_r (col0 m) s) (vec4_scale_r (col1 m) s)
       (vec4_scale_r (col2 m) s) (vec4_scale_r (col3 m) s).

Definition vec4_mul (a b : vec4 T) : vec4 T :=
  Vec4 (x4 a * x4 b) (y4 a * y4 b) (z4 a * z4 b) (w4 a * w4 b).

Definition vec4_sub (a b : vec4 T) : vec4 T :=
  Vec4 (x4 a - x4 b) (y4 a - y4 b) (z4 a - z4 b) (w4 a - w4 b).

(** [glm::inverse] on [mat4]: the adjugate from 2x2 sub-determinants,
    scaled by one over the determinant.  [mIJ] is [m[I][J]]. *)
Definition glm_inverse (m : mat4 T) : mat4 T :=
  let m00 := x4 (col0 m) in let m01 := y4 (col0 m) in
  let m02 := z4 (col0 m) in let m03 := w4 (col0 m) in
  let m10 := x4 (col1 m) in let m11 := y4 (col1 m) in
  let m12 := z4 (col1 m) in let m13 := w4 (col1 m) in
  let m20 := x4 (col2 m) in let m21 := y4 (col2 m) in
  let m22 := z4 (col2 m) in let m23 := w4 (col2 m) in
  let m30 := x4 (col3 m) in let m31 := y4 (col3 m) in
  let m32 := z4 (col3 m) in let m33 := w4 (col3 m) in
  let Coef00 := m22 * m33 - m32 * m23 in
  let Coef02 := m12 * m33 - m32 * m13 in
  let Coef03 := m12 * m23 - m22 * m13 in
  let Coef04 := m21 * m33 - m31 * m23 in
  let Coef06 := m11 * m33 - m31 * m13 in
  let Coef07 := m11 * m23 - m21 * m13 in
  let Coef08 := m21 * m32 - m31 * m22 in
  let Coef10 := m11 * m32 - m31 * m12 in
  let Coef11 := m11 * m22 - m21 * m12 in
  let Coef12 := m20 * m33 - m30 * m23 in
  let Coef14 := m10 * m33 - m30 * m13 in
  let Coef15 := m10 * m23 - m20 * m13 in
  let Coef16 := m20 * m32 - m30 * m22 in
  let Coef18 := m10 * m32 - m30 * m12 in
  let Coef19 := m10 * m22 - m20 * m12 in
  let Coef20 := m20 * m31 - m30 * m21 in
  let Coef22 := m10 * m31 - m30 * m11 in
  let Coef23 := m10 * m21 - m20 * m11 in
  let Fac0 := Vec4 Coef00 Coef00 Coef02 Coef03 in
  let Fac1 := Vec4 Coef04 Coef04 Coef06 Coef07 in
  let Fac2 := Vec4 Coef08 Coef08 Coef10 Coef11 in
  let Fac3 := Vec4 Coef12 Coef12 Coef14 Coef15 in
  let Fac4 := Vec4 Coef16 Coef16 Coef18 Coef19 in
  let Fac5 := Vec4 Coef20 Coef20 Coef22 Coef23 in
  let Vec0 := Vec4 m10 m00 m00 m00 in
  let Vec1 := Vec4 m11 m01 m01 m01 in
  let Vec2 := Vec4 m12 m02 m02 m02 in
  let Vec3 := Vec4 m13 m03 m03 m03 in
  let Inv0 := vec4_add (vec4_sub (vec4_mul Vec1 Fac0) (vec4_mul Vec2 Fac1)) (vec4_mul Vec3 Fac2) in
  let Inv1 := vec4_add (vec4_sub (vec4_mul Vec0 Fac0) (vec4_mul Vec2 Fac3)) (vec4_mul Vec3 Fac4) in
  let Inv2 := vec4_add (vec4_sub (vec4_mul Vec0 Fac1) (vec4_mul Vec1 Fac3)) (vec4_mul Vec3 Fac5) in
  let Inv3 := vec4_add (vec4_sub (vec4_mul Vec0 Fac2) (vec4_mul Vec1 Fac4)) (vec4_mul Vec2 Fac5) in
  let SignA := Vec4 s_one (- s_one) s_one (- s_one) in
  let SignB := Vec4 (- s_one) s_one (- s_one) s_one in
  let Inverse :=
    Mat4 (vec4_mul Inv0 SignA) (vec4_mul Inv1 SignB)
         (vec4_mul Inv2 SignA) (vec4_mul Inv3 SignB) in
  let Row0 := Vec4 (x4 (col0 Inverse)) (x4 (col1 Inverse))
                   (x4 (col2 Inverse)) (x4 (col3 Inverse)) in
  let Dot0 := vec4_mul (col0 m) Row0 in
  let Dot1 := (x4 Dot0 + y4 Dot0) + (z4 Dot0 + w4 Dot0) in
  let OneOverDeterminant := s_one / Dot1 in
  mat4_scale_r Inverse OneOverDeterminant.

(** [glm::translate(mat4(1), v)], [glm::scale(mat4(1), v)] and
    [glm::mat4_cast(q)] for a quaternion [q = (w, x, y, z)]. *)
Definition translation_matrix (v : vec3 T) : mat4 T :=
  Mat4 (Vec4 s_one s_zero s_zero s_zero)
       (Vec4 s_zero s_one s_zero s_zero)
       (Vec4 s_zero s_zero s_one s_zero)
       (Vec4 (x3 v) (y3 v) (z3 v) s_one).

Definition scale_matrix (v : vec3 T) : mat4 T :=
  Mat4 (Vec4 (x3 v) s_zero s_zero s_zero)
       (Vec4 s_zero (y3 v) s_zero s_zero)
       (Vec4 s_zero s_zero (z3 v) s_zero)
       (Vec4 s_zero s_zero s_zero s_one).

Record quat : Type := Quat { qw : T; qx : T; qy : T; qz : T }.

Definition mat4_cast (q : quat) : mat4 T :=
  let two := s_lit 2 1 in
  let qxx := qx q * qx q in
  let qyy := qy q * qy q in
  let qzz := qz q * qz q in
  let qxz := qx q * qz q in
  let qxy := qx q * qy q in
  let qyz := qy q * qz q in
  let qwx := qw q * qx q in
  let qwy := qw q * qy q in
  let qwz := qw q * qz q in
  Mat4 (Vec4 (s_one - two * (qyy + qzz)) (two * (qxy + qwz)) (two * (qxz - qwy)) s_zero)
       (Vec4 (two * (qxy - qwz)) (s_one - two * (qxx + qzz)) (two * (qyz + qwx)) s_zero)
       (Vec4 (two * (qxz + qwy)) (two * (qyz - qwx)) (s_one - two * (qxx + qyy)) s_zero)
       (Vec4 s_zero s_zero s_zero s_one).

(** [glm::lookAt] (right handed) *)
Definition lookAt (eye center up : vec3 T) : mat4 T :=
  let f := normalize (vec3_sub center eye) in
  let s := normalize (cross f up) in
  let u := cross s f in
  Mat4 (Vec4 (x3 s) (x3 u) (- x3 f) s_zero)
       (Vec4 (y3 s) (y3 u) (- y3 f) s_zero)
       (Vec4 (z3 s) (z3 u) (- z3 f) s_zero)
       (Vec4 (- dot s eye) (- dot u eye) (dot f eye) s_one).

Context `{Trig T}.

(** [glm::rotate(m, angle, v)] *)
Definition rotate (m : mat4 T) (angle : T) (v : vec3 T) : mat4 T :=
  let c := s_cos angle in
  let s := s_sin angle in
  let axis := normalize v in
  let temp := vec3_scale (s_one - c) axis in
  let r00 := c + x3 temp * x3 axis in
  let r01 := x3 temp * y3 axis + s * z3 axis in
  let r02 := x3 temp * z3 axis - s * y3 axis in
  let r10 := y3 temp * x3 axis - s * z3 axis in
  let r11 := c + y3 temp * y3 axis in
  let r12 := y3 temp * z3 axis + s * x3 axis in
  let r20 := z3 temp * x3 axis + s * y3 axis in
  let r21 := z3 temp * y3 axis - s * x3 axis in
  let r22 := c + z3 temp * z3 axis in
  let lin a b c :=
    vec4_add (vec4_add (vec4_scale_r (col0 m) a) (vec4_scale_r (col1 m) b))
             (vec4_scale_r (col2 m) c) in
  Mat4 (lin r00 r01 r02) (lin r10 r11 r12) (lin r20 r21 r22) (col3 m).

(** The composition the controllers use to turn a direction:
    [vec3(rotate(mat4(1), angle, axis) * vec4(v, 0))]. *)
Definition rotate_vec (angle : T) (axis v : vec3 T) : vec3 T :=
  vec3_of (mat4_mul_vec4 (rotate mat4_identity angle axis) (vec4_of v s_zero)).

End Glm.

Arguments quat T : clear implicits.

(** ** Camera *)

(** Modelled from the spec: the class [Camera], declared in [cameras.hpp],
    a value with [eye], [center] and [up].  The controllers use its
    constructor, [eye()], [center()], [left()], [moveLocal],
    [rotateLocal], [rotateWorld] and [getViewMatrix]. *)
Record Camera (T : Type) : Type :=
  MkCamera { m_eye : vec3 T; m_center : vec3 T; m_up : vec3 T }.

Section CameraOps.

Context {T : Type} `{Scalar T}.

(** Modelled from the spec: the accessors [eye()], [center()] and [up()]
    of [Camera] ([cameras.hpp]). *)
Definition eye (c : Camera T) : vec3 T := m_eye c.
Definition center (c : Camera T) : vec3 T := m_center c.
Definition up (c : Camera T) : vec3 T := m_up c.

(** Modelled from the spec: the derived axis [front] of [Camera]
    ([cameras.hpp]), [front = normalize(center - eye)]. *)
Definition front (c : Camera T) : vec3 T :=
  normalize (vec3_sub (m_center c) (m_eye c)).

(** Modelled from the spec: the derived axis [left] of [Camera]
    ([cameras.hpp]), [left = normalize(cross(up, front))]. *)
Definition left (c : Camera T) : vec3 T :=
  normalize (cross (m_up c) (front c)).

(** Modelled from the spec: the constructor [Camera(eye, center, up)] of
    [cameras.hpp].  It keeps [eye] and [center] and re-orthogonalises the
    [up] hint through cross products, [up = cross(front, left)]. *)
Definition Camera_new (e c u : vec3 T) : Camera T :=
  let f := normalize (vec3_sub c e) in
  let l := normalize (cross u f) in
  MkCamera e c (cross f l).

(** Modelled from the spec: [Camera::getViewMatrix] of [cameras.hpp], the
    right-handed look-at matrix from eye toward center with the given up. *)
Definition getViewMatrix (c : Camera T) : mat4 T :=
  lookAt (m_eye c) (m_center c) (m_up c).

(** Modelled from the spec: [Camera::moveLocal] of [cameras.hpp]:
    translate eye and center together by
    [truckLeft*left + pedestalUp*up + dollyIn*front]. *)
Definition moveLocal (truckLeft pedestalUp dollyIn : T) (c : Camera T) : Camera T :=
  let translationVector :=
    vec3_add (vec3_add (vec3_scale truckLeft (left c))
                       (vec3_scale pedestalUp (m_up c)))
             (vec3_scale dollyIn (front c)) in
  MkCamera (vec3_add (m_eye c) translationVector)
           (vec3_add (m_center c) translationVector)
           (m_up c).

Context `{Trig T}.

(** Modelled from the spec: [Camera::rotateLocal] of [cameras.hpp]: rotate
    the view direction and the up vector about the camera's own axes (roll
    about front, tilt about left, pan about up), eye fixed, center
    recomputed. *)
Definition rotateLocal (rollRight tiltDown panLeft : T) (c : Camera T) : Camera T :=
  let f := vec3_sub (m_center c) (m_eye c) in
  let up1 := rotate_vec rollRight f (m_up c) in
  let l := cross up1 f in
  let newFront := rotate_vec tiltDown l f in
  let up2 := rotate_vec tiltDown l up1 in
  let newNewFront := rotate_vec panLeft up2 newFront in
  MkCamera (m_eye c) (vec3_add (m_eye c) newNewFront) up2.

(** Modelled from the spec: [Camera::rotateWorld] of [cameras.hpp]: rotate
    the view direction about the supplied axis with eye fixed. *)
Definition rotateWorld (radians : T) (axis : vec3 T) (c : Camera T) : Camera T :=
  let f := vec3_sub (m_center c) (m_eye c) in
  let newFront := rotate_vec radians axis f in
  MkCamera (m_eye c) (vec3_add (m_eye c) newFront) (m_up c).

End CameraOps.

(** ** Input: the GLFW point-in-time queries *)

Inductive MouseButton : Type :=
| GLFW_MOUSE_BUTTON_LEFT
| GLFW_MOUSE_BUTTON_MIDDLE.

Inductive Key : Type :=
| GLFW_KEY_W | GLFW_KEY_A | GLFW_KEY_S | GLFW_KEY_D
| GLFW_KEY_UP | GLFW_KEY_DOWN | GLFW_KEY_Q | GLFW_KEY_E
| GLFW_KEY_LEFT_SHIFT | GLFW_KEY_LEFT_CONTROL.

(** What one call of [update] can observe of the window.  GLFW changes
    these only inside [glfwPollEvents], so they are constant during the
    call. *)
Record GLFWwindow (D : Type) : Type := MkWindow {
  glfwGetMouseButton : MouseButton -> bool;
  glfwGetCursorPos : vec2 D;
  glfwGetKey : Key -> bool
}.

(** ** Camera controllers ([cameras.cpp]) *)

Record FirstPersonCameraController (D T : Type) : Type := MkFirstPerson {
  fp_fSpeed : T;
  fp_worldUpAxis : vec3 T;
  fp_LeftButtonPressed : bool;
  fp_LastCursorPosition : vec2 D;
  fp_camera : Camera T
}.

Record TrackballCameraController (D T : Type) : Type := MkTrackball {
  tb_fSpeed : T;
  tb_worldUpAxis : vec3 T;
  tb_MiddleButtonPressed : bool;
  tb_LastCursorPosition : vec2 D;
  tb_camera : Camera T
}.

Section Controllers.

Context {D T : Type} `{Scalar T} `{Trig T} `{Cursor D T}.

Local Open Scope glm_scope.

Definition dvec2_sub (a b : vec2 D) : vec2 D :=
  Vec2 (d_sub (x2 a) (x2 b)) (d_sub (y2 a) (y2 b)).

(** The press/release edge and the [cursorDelta] lambda, the same text in
    both controllers but for the button (lines 31-50 and 112-131).
    Returns the delta and the new [m_*ButtonPressed] and
    [m_LastCursorPosition]. *)
Definition cursorDelta (button : MouseButton) (w : GLFWwindow D)
  (pressed : bool) (last : vec2 D) : vec2 D * (bool * vec2 D) :=
  let '(pressed1, last1) :=
    if glfwGetMouseButton w button && negb pressed then
      (true, glfwGetCursorPos w)
    else if negb (glfwGetMouseButton w button) && pressed then
      (false, last)
    else (pressed, last) in
  if pressed1 then
    let cursorPosition := glfwGetCursorPos w in
    let delta := dvec2_sub cursorPosition last1 in
    (delta, (pressed1, cursorPosition))
  else (Vec2 d_zero d_zero, (pressed1, last1)).

(** The six quantities [FirstPersonCameraController::update] accumulates
    before its [hasMoved] test (lines 52-95). *)
Record Motion : Type := MkMotion {
  truckLeft : T;
  pedestalUp : T;
  dollyIn : T;
  rollRightAngle : T;
  panLeftAngle : T;
  tiltDownAngle : T
}.

Definition fp_motion (elapsedTime : T) (w : GLFWwindow D)
  (m_fSpeed : T) (delta : vec2 D) : Motion :=
  let truckLeft := s_zero in
  let pedestalUp := s_zero in
  let dollyIn := s_zero in
  let rollRightAngle := s_zero in
  let dollyIn :=
    if glfwGetKey w GLFW_KEY_W then dollyIn + m_fSpeed * elapsedTime else dollyIn in
  let truckLeft :=
    if glfwGetKey w GLFW_KEY_A then truckLeft + m_fSpeed * elapsedTime else truckLeft in
  let pedestalUp :=
    if glfwGetKey w GLFW_KEY_UP then pedestalUp + m_fSpeed * elapsedTime else pedestalUp in
  let dollyIn :=
    if glfwGetKey w GLFW_KEY_S then dollyIn - m_fSpeed * elapsedTime else dollyIn in
  let truckLeft :=
    if glfwGetKey w GLFW_KEY_D then truckLeft - m_fSpeed * elapsedTime else truckLeft in
  let pedestalUp :=
    if glfwGetKey w GLFW_KEY_DOWN then pedestalUp - m_fSpeed * elapsedTime else pedestalUp in
  let rollRightAngle :=
    if glfwGetKey w GLFW_KEY_Q then rollRightAngle - s_lit 1 1000 else rollRightAngle in
  let rollRightAngle :=
    if glfwGetKey w GLFW_KEY_E then rollRightAngle + s_lit 1 1000 else rollRightAngle in
  let panLeftAngle := (- s_lit 1 100) * d_to_float (x2 delta) in
  let tiltDownAngle := s_lit 1 100 * d_to_float (y2 delta) in
  MkMotion truckLeft pedestalUp dollyIn rollRightAngle panLeftAngle tiltDownAngle.

(** [truckLeft || pedestalUp || dollyIn || panLeftAngle || tiltDownAngle
    || rollRightAngle] *)
Definition fp_hasMoved (m : Motion) : bool :=
  to_bool (truckLeft m) || to_bool (pedestalUp m) || to_bool (dollyIn m) ||
  to_bool (panLeftAngle m) || to_bool (tiltDownAngle m) ||
  to_bool (rollRightAngle m).

(** [FirstPersonCameraController::update]: the result and the controller
    after the call. *)
Definition FirstPersonCameraController_update (elapsedTime : T)
  (w : GLFWwindow D) (c : FirstPersonCameraController D T)
  : bool * FirstPersonCameraController D T :=
  let '(delta, (pressed, last)) :=
    cursorDelta GLFW_MOUSE_BUTTON_LEFT w
      (fp_LeftButtonPressed c) (fp_LastCursorPosition c) in
  let m := fp_motion elapsedTime w (fp_fSpeed c) delta in
  let c1 := MkFirstPerson (fp_fSpeed c) (fp_worldUpAxis c) pressed last (fp_camera c) in
  if negb (fp_hasMoved m) then (false, c1)
  else
    let cam := moveLocal (truckLeft m) (pedestalUp m) (dollyIn m) (fp_camera c) in
    let cam := rotateLocal (rollRightAngle m) (tiltDownAngle m) s_zero cam in
    let cam := rotateWorld (panLeftAngle m) (fp_worldUpAxis c) cam in
    (true, MkFirstPerson (fp_fSpeed c) (fp_worldUpAxis c) pressed last cam).

(** The zoom branch after its [horizontalMovement == 0.f] test
    (lines 156-170): the camera it stores. *)
Definition zoom (m_worldUpAxis : vec3 T) (horizontalMovement : T)
  (m_camera : Camera T) : Camera T :=
  let viewVector := vec3_sub (center m_camera) (eye m_camera) in
  let viewLength := glm_length viewVector in
  let horizontalMovement :=
    if s_zero <? horizontalMovement then
      glm_min horizontalMovement (viewLength - s_lit 1 10000)
    else horizontalMovement in
  let front := vec3_div viewVector viewLength in
  let translationVector := vec3_scale horizontalMovement front in
  let newEye := vec3_add (eye m_camera) translationVector in
  Camera_new newEye (center m_camera) m_worldUpAxis.

(** The rotate branch (lines 175-190): the camera it stores. *)
Definition orbit (m_worldUpAxis : vec3 T) (horizontalMovement verticalMovement : T)
  (m_camera : Camera T) : Camera T :=
  let depthAxis := vec3_sub (eye m_camera) (center m_camera) in
  let horizontalAxis := left m_camera in
  let longitudeRotationMatrix := rotate mat4_identity verticalMovement horizontalAxis in
  let rotatedDepthAxis :=
    vec3_of (mat4_mul_vec4 longitudeRotationMatrix (vec4_of depthAxis s_zero)) in
  let latitudeRotationMatrix :=
    rotate mat4_identity (- horizontalMovement) m_worldUpAxis in
  let result :=
    vec3_of (mat4_mul_vec4 latitudeRotationMatrix (vec4_of rotatedDepthAxis s_zero)) in
  let newEye := vec3_add (center m_camera) result in
  Camera_new newEye (center m_camera) m_worldUpAxis.

(** [TrackballCameraController::update] *)
Definition TrackballCameraController_update (elapsedTime : T)
  (w : GLFWwindow D) (c : TrackballCameraController D T)
  : bool * TrackballCameraController D T :=
  let '(delta, (pressed, last)) :=
    cursorDelta GLFW_MOUSE_BUTTON_MIDDLE w
      (tb_MiddleButtonPressed c) (tb_LastCursorPosition c) in
  let store cam := MkTrackball (tb_fSpeed c) (tb_worldUpAxis c) pressed last cam in
  let pedestalUp := s_zero in
  let dollyIn := s_zero in
  let horizontalMovement := s_lit 1 100 * d_to_float (x2 delta) in
  let verticalMovement := s_lit 1 100 * d_to_float (y2 delta) in
  let hasMoved := to_bool horizontalMovement || to_bool verticalMovement in
  if negb hasMoved then (false, store (tb_camera c))
  else if glfwGetKey w GLFW_KEY_LEFT_SHIFT then
    (true, store (moveLocal horizontalMovement pedestalUp dollyIn (tb_camera c)))
  else if glfwGetKey w GLFW_KEY_LEFT_CONTROL then
    if horizontalMovement =? s_zero then (false, store (tb_camera c))
    else (true, store (zoom (tb_worldUpAxis c) horizontalMovement (tb_camera c)))
  else
    (true, store (orbit (tb_worldUpAxis c) horizontalMovement verticalMovement
                        (tb_camera c))).

End Controllers.

(** ** The scene: tinygltf's model, read only *)

Local Open Scope Z_scope.

(** [size_t] is 64 bits wide and [GLsizei] is a 32-bit [int]. *)
Definition size_t_add (a b : Z) : Z := (a + b) mod 2 ^ 64.
Definition GLsizei (n : Z) : Z := (n + 2 ^ 31) mod 2 ^ 32 - 2 ^ 31.

(** [GLenum] is an [unsigned int]: an [int] handed to a [GLenum]
    parameter is converted modulo [2^32]. *)
Definition GLenum (n : Z) : Z := n mod 2 ^ 32.

(** [v[i]] on a [std::vector]; [None] stands for the undefined behaviour
    of an index out of range (a negative [int] index converts to a huge
    [size_t]). *)
Definition vec_at {A : Type} (v : list A) (i : Z) : option A :=
  if i <? 0 then None else nth_error v (Z.to_nat i).

Record Accessor : Type := MkAccessor {
  acc_bufferView : Z;
  acc_byteOffset : Z;
  acc_componentType : Z;
  acc_count : Z;
  acc_type : Z
}.

Record BufferView : Type := MkBufferView {
  bv_buffer : Z;
  bv_byteOffset : Z;
  bv_byteStride : Z;
  bv_target : Z
}.

(** [attributes] is a [std::map<std::string, int>]: its entries in
    iteration order, that is by increasing key; [begin()] is the head. *)
Record Primitive : Type := MkPrimitive {
  prim_attributes : list (string * Z);
  prim_indices : Z;
  prim_mode : Z
}.

Record Mesh : Type := MkMesh { mesh_primitives : list Primitive }.

(** A node carries either an explicit matrix or a translation, rotation
    and scale. *)
Inductive NodeTransform (T : Type) : Type :=
| NodeMatrix (matrix : mat4 T)
| NodeTRS (translation : vec3 T) (rotation : quat T) (scale : vec3 T).

Record Node (T : Type) : Type := MkNode {
  node_transform : NodeTransform T;
  node_mesh : Z;
  node_children : list Z
}.

Record Scene : Type := MkScene { scene_nodes : list Z }.

Record Model (T : Type) : Type := MkModel {
  accessors : list Accessor;
  bufferViews : list BufferView;
  meshes : list Mesh;
  nodes : list (Node T);
  scenes : list Scene;
  defaultScene : Z
}.

Record VaoRange : Type := MkVaoRange { vao_begin : Z; vao_count : Z }.

(** ** The device: the sequence of OpenGL calls *)

Inductive GLCall (T : Type) : Type :=
| glViewport (x y width height : Z)
| glClear (mask : Z)
| glUniform3f (location : Z) (v0 v1 v2 : T)
| glUniformMatrix4fv (location : Z) (value : mat4 T)
| glBindVertexArray (array : Z)
| glDrawElements (mode count type indices : Z)
| glDrawArrays (mode first count : Z).

Arguments glViewport {T}.
Arguments glClear {T}.
Arguments glBindVertexArray {T}.
Arguments glDrawElements {T}.
Arguments glDrawArrays {T}.

Definition GL_COLOR_BUFFER_BIT : Z := 0x4000.
Definition GL_DEPTH_BUFFER_BIT : Z := 0x100.

(** What a run of the recursive [drawNode] can come to: it returns, it
    needs more recursion depth than [fuel] allows, or it indexes a vector
    out of range. *)
Inductive outcome (A : Type) : Type :=
| Done (a : A)
| OutOfFuel
| Undefined.

Arguments OutOfFuel {A}.
Arguments Undefined {A}.

Definition is_done {A : Type} (o : outcome A) : bool :=
  match o with Done _ => true | _ => false end.

(** A range-for loop whose body appends to the call sequence. *)
Fixpoint for_each {A B : Type} (body : A -> outcome (list B)) (l : list A)
  : outcome (list B) :=
  match l with
  | [] => Done []
  | a :: l' =>
    match body a with
    | Done out =>
      match for_each body l' with
      | Done outs => Done (out ++ outs)
      | OutOfFuel => OutOfFuel
      | Undefined => Undefined
      end
    | OutOfFuel => OutOfFuel
    | Undefined => Undefined
    end
  end.

(** One call of [drawNode]: the node, the [modelMatrix] it computed and
    the OpenGL calls it issued itself (its children's come after). *)
Record NodeVisit (T : Type) : Type := MkVisit {
  v_node : Z;
  v_modelMatrix : mat4 T;
  v_calls : list (GLCall T)
}.

(** What the lambdas of [ViewerApplication::run] capture by reference. *)
Record RenderContext (T : Type) : Type := MkContext {
  m_nWindowWidth : Z;
  m_nWindowHeight : Z;
  projMatrix : mat4 T;
  modelViewProjMatrixLocation : Z;
  modelViewMatrixLocation : Z;
  normalMatrixLocation : Z;
  lightDirectionLocation : Z;
  lightIntensityLocation : Z;
  lightDirection : vec3 T;
  lightIntensity : vec3 T;
  lightFromCamera : bool;
  meshToVertexArrays : list VaoRange;
  vertexArrayObjects : list Z
}.

Section Render.

Context {T : Type} `{Scalar T}.

(** Modelled from the spec: the local transform of a node, which
    [getLocalToWorldMatrix] (declared in [utils/gltf.hpp]) reads: the
    explicit matrix, or [T * R * S]. *)
Definition localTransform (n : Node T) : mat4 T :=
  match node_transform n with
  | NodeMatrix m => m
  | NodeTRS t r s =>
    mat4_mul (mat4_mul (translation_matrix t) (mat4_cast r)) (scale_matrix s)
  end.

(** Modelled from the spec: [getLocalToWorldMatrix] of [utils/gltf.hpp],
    [localToWorld = parentTransform * node.localTransform]. *)
Definition getLocalToWorldMatrix (n : Node T) (parentMatrix : mat4 T) : mat4 T :=
  mat4_mul parentMatrix (localTransform n).

Variable model : Model T.
Variable ctx : RenderContext T.

(** The body of the primitive loop (lines 673-686). *)
Definition drawPrimitive (vaoRange : VaoRange) (pIdx : Z) (primitive : Primitive)
  : outcome (list (GLCall T)) :=
  match vec_at (vertexArrayObjects ctx) (vao_begin vaoRange + pIdx) with
  | None => Undefined
  | Some vao =>
    if prim_indices primitive >=? 0 then
      match vec_at (accessors model) (prim_indices primitive) with
      | None => Undefined
      | Some accessor =>
        match vec_at (bufferViews model) (acc_bufferView accessor) with
        | None => Undefined
        | Some bufferView =>
          let byteOffset :=
            size_t_add (acc_byteOffset accessor) (bv_byteOffset bufferView) in
          Done [glBindVertexArray vao;
                glDrawElements (GLenum (prim_mode primitive))
                               (GLsizei (acc_count accessor))
                               (GLenum (acc_componentType accessor)) byteOffset]
        end
      end
    else
      match prim_attributes primitive with
      | [] => Undefined
      | (_, accessorIdx) :: _ =>
        match vec_at (accessors model) accessorIdx with
        | None => Undefined
        | Some accessor =>
          Done [glBindVertexArray vao;
                glDrawArrays (GLenum (prim_mode primitive)) 0
                             (GLsizei (acc_count accessor))]
        end
      end
  end.

(** [for (size_t pIdx = 0; pIdx < mesh.primitives.size(); ++pIdx)] *)
Fixpoint drawPrimitives (vaoRange : VaoRange) (pIdx : Z) (primitives : list Primitive)
  : outcome (list (GLCall T)) :=
  match primitives with
  | [] => Done []
  | primitive :: rest =>
    match drawPrimitive vaoRange pIdx primitive with
    | Done out =>
      match drawPrimitives vaoRange (pIdx + 1) rest with
      | Done outs => Done (out ++ outs)
      | OutOfFuel => OutOfFuel
      | Undefined => Undefined
      end
    | OutOfFuel => OutOfFuel
    | Undefined => Undefined
    end
  end.

(** The lookups and the primitive loop of a node with a mesh
    (lines 670-687). *)
Definition drawMeshPrimitives (mesh : Z) : outcome (list (GLCall T)) :=
  match vec_at (meshes model) mesh, vec_at (meshToVertexArrays ctx) mesh with
  | Some m, Some vaoRange => drawPrimitives vaoRange 0 (mesh_primitives m)
  | _, _ => Undefined
  end.

Variable viewMatrix : mat4 T.

(** [if (node.mesh >= 0) { ... }] (lines 659-688) *)
Definition drawMesh (node : Node T) (modelMatrix : mat4 T)
  : outcome (list (GLCall T)) :=
  if node_mesh node >=? 0 then
    let mvMatrix := mat4_mul viewMatrix modelMatrix in
    let mvpMatrix := mat4_mul (projMatrix ctx) mvMatrix in
    let normalMatrix := transpose (glm_inverse mvMatrix) in
    match drawMeshPrimitives (node_mesh node) with
    | Done out =>
      Done (glUniformMatrix4fv (modelViewProjMatrixLocation ctx) mvpMatrix ::
            glUniformMatrix4fv (modelViewMatrixLocation ctx) mvMatrix ::
            glUniformMatrix4fv (normalMatrixLocation ctx) normalMatrix :: out)
    | OutOfFuel => OutOfFuel
    | Undefined => Undefined
    end
  else Done [].

(** The recursive lambda [drawNode] (lines 652-695); [fuel] bounds the
    recursion depth. *)
Fixpoint drawNode (fuel : nat) (nodeIdx : Z) (parentMatrix : mat4 T)
  : outcome (list (NodeVisit T)) :=
  match fuel with
  | O => OutOfFuel
  | S fuel' =>
    match vec_at (nodes model) nodeIdx with
    | None => Undefined
    | Some node =>
      let modelMatrix := getLocalToWorldMatrix node parentMatrix in
      match drawMesh node modelMatrix with
      | Done calls =>
        match for_each (fun childNodeIdx => drawNode fuel' childNodeIdx modelMatrix)
                       (node_children node) with
        | Done visits => Done (MkVisit nodeIdx modelMatrix calls :: visits)
        | OutOfFuel => OutOfFuel
        | Undefined => Undefined
        end
      | OutOfFuel => OutOfFuel
      | Undefined => Undefined
      end
    end
  end.

(** The root loop (lines 698-703). *)
Definition drawRoots (fuel : nat) : outcome (list (NodeVisit T)) :=
  if defaultScene model >=? 0 then
    match vec_at (scenes model) (defaultScene model) with
    | None => Undefined
    | Some scene =>
      for_each (fun nodeIdx => drawNode fuel nodeIdx mat4_identity) (scene_nodes scene)
    end
  else Done [].

(** "Send light parameters to shader", the direction (lines 634-643). *)
Definition lightDirectionUniform : list (GLCall T) :=
  if lightDirectionLocation ctx >=? 0 then
    if lightFromCamera ctx then
      [glUniform3f (lightDirectionLocation ctx) s_zero s_zero s_one]
    else
      let viewLightDirection :=
        normalize (vec3_of (mat4_mul_vec4 viewMatrix
                                          (vec4_of (lightDirection ctx) s_zero))) in
      [glUniform3f (lightDirectionLocation ctx) (x3 viewLightDirection)
                   (y3 viewLightDirection) (z3 viewLightDirection)]
  else [].

(** The intensity (lines 645-648). *)
Definition lightIntensityUniform : list (GLCall T) :=
  if lightIntensityLocation ctx >=? 0 then
    [glUniform3f (lightIntensityLocation ctx) (x3 (lightIntensity ctx))
                 (y3 (lightIntensity ctx)) (z3 (lightIntensity ctx))]
  else [].

(** The calls [drawScene] makes before it starts the traversal
    (lines 629-648).  They are made whatever becomes of the traversal. *)
Definition frameStart : list (GLCall T) :=
  [glViewport 0 0 (m_nWindowWidth ctx) (m_nWindowHeight ctx);
   glClear (Z.lor GL_COLOR_BUFFER_BIT GL_DEPTH_BUFFER_BIT)]
  ++ lightDirectionUniform
  ++ lightIntensityUniform.

End Render.

Section DrawScene.

Context {T : Type} `{Scalar T}.

(** The lambda [drawScene] (lines 628-705): every OpenGL call of one
    frame, in order. *)
Definition drawScene (model : Model T) (ctx : RenderContext T) (fuel : nat)
  (camera : Camera T) : outcome (list (GLCall T)) :=
  let viewMatrix := getViewMatrix camera in
  match drawRoots model ctx viewMatrix fuel with
  | Done visits =>
    Done (frameStart ctx viewMatrix
          ++ flat_map (@v_calls T) visits
          ++ [glBindVertexArray 0])
  | OutOfFuel => OutOfFuel
  | Undefined => Undefined
  end.

End DrawScene.

(** ** The controller the render loop holds *)

(** [std::unique_ptr<CameraController>]: one of the two variants behind
    the interface [update], [getCamera], [setCamera]. *)
Inductive CameraController (D T : Type) : Type :=
| FirstPerson (c : FirstPersonCameraController D T)
| Trackball (c : TrackballCameraController D T).

Section Dispatch.

Context {D T : Type} `{Scalar T} `{Trig T} `{Cursor D T}.

Definition update (elapsedTime : T) (w : GLFWwindow D) (c : CameraController D T)
  : bool * CameraController D T :=
  match c with
  | FirstPerson c =>
    let '(changed, c') := FirstPersonCameraController_update elapsedTime w c in
    (changed, FirstPerson c')
  | Trackball c =>
    let '(changed, c') := TrackballCameraController_update elapsedTime w c in
    (changed, Trackball c')
  end.

Definition getCamera (c : CameraController D T) : Camera T :=
  match c with
  | FirstPerson c => fp_camera c
  | Trackball c => tb_camera c
  end.

Definition setCamera (camera : Camera T) (c : CameraController D T)
  : CameraController D T :=
  match c with
  | FirstPerson c =>
    FirstPerson (MkFirstPerson (fp_fSpeed c) (fp_worldUpAxis c)
                   (fp_LeftButtonPressed c) (fp_LastCursorPosition c) camera)
  | Trackball c =>
    Trackball (MkTrackball (tb_fSpeed c) (tb_worldUpAxis c)
                 (tb_MiddleButtonPressed c) (tb_LastCursorPosition c) camera)
  end.

(** The cursor delta [TrackballCameraController::update] works with, and
    its [horizontalMovement] and [verticalMovement] (lines 137-138). *)
Definition tb_cursorDelta (w : GLFWwindow D) (c : TrackballCameraController D T)
  : vec2 D :=
  fst (cursorDelta GLFW_MOUSE_BUTTON_MIDDLE w
         (tb_MiddleButtonPressed c) (tb_LastCursorPosition c)).

Definition tb_horizontalMovement (w : GLFWwindow D)
  (c : TrackballCameraController D T) : T :=
  (s_lit 1 100 * d_to_float (x2 (tb_cursorDelta w c)))%g.

Definition tb_verticalMovement (w : GLFWwindow D)
  (c : TrackballCameraController D T) : T :=
  (s_lit 1 100 * d_to_float (y2 (tb_cursorDelta w c)))%g.

(** The six quantities of one first-person frame. *)
Definition fp_frame_motion (elapsedTime : T) (w : GLFWwindow D)
  (c : FirstPersonCameraController D T) : Motion :=
  fp_motion elapsedTime w (fp_fSpeed c)
    (fst (cursorDelta GLFW_MOUSE_BUTTON_LEFT w
            (fp_LeftButtonPressed c) (fp_LastCursorPosition c))).

(** All six are exactly zero ([== 0.f]). *)
Definition all_zero (m : Motion) : bool :=
  ((truckLeft m =? s_zero) && (pedestalUp m =? s_zero) && (dollyIn m =? s_zero) &&
   (rollRightAngle m =? s_zero) && (panLeftAngle m =? s_zero) &&
   (tiltDownAngle m =? s_zero))%g.

(** A run of zoom steps, one movement per frame. *)
Definition zoom_steps (m_worldUpAxis : vec3 T) (movements : list T)
  (camera : Camera T) : Camera T :=
  fold_left (fun cam h => zoom m_worldUpAxis h cam) movements camera.

(** The distance from eye to center, [viewLength]. *)
Definition viewLength (camera : Camera T) : T :=
  glm_length (vec3_sub (center camera) (eye camera)).

End Dispatch.

(** A [double] that compares equal to zero. *)
Definition double_is_zero (d : double) : bool := F32.is_zero (double_val d).

(** The movement the zoom branch applies, in exact arithmetic: capped when
    zooming in (lines 159-162). *)
Definition clamped (h L : R) : R :=
  if Rltb 0 h then glm_min h (L - 1 / 10000)%R else h.

(** ** The scene graph, as the specification speaks of it *)

Section SceneGraph.

Context {T : Type} `{Scalar T}.

Variable model : Model T.

(** [n] is listed among the children of node [p]. *)
Definition child (p n : Z) : Prop :=
  exists node, vec_at (nodes model) p = Some node /\ In n (node_children node).

(** No cycles: some rank strictly decreases from every node to each of
    its children. *)
Definition acyclic_by (rank : Z -> nat) : Prop :=
  forall p n, child p n -> (rank n < rank p)%nat.

(** A forest below the root list [roots]: no node index is listed twice
    among the roots and all the children lists. *)
Definition forest (roots : list Z) : Prop :=
  NoDup (roots ++ flat_map (@node_children T) (nodes model)).

(** [PathTo P n x M]: a chain of child links leads from [n] down to [x],
    and [M] is [P] multiplied on the right by the local transforms of the
    nodes on the chain, from [n] to [x]. *)
Inductive PathTo : mat4 T -> Z -> Z -> mat4 T -> Prop :=
| path_here : forall P n node,
    vec_at (nodes model) n = Some node ->
    PathTo P n n (mat4_mul P (localTransform node))
| path_child : forall P n node c x M,
    vec_at (nodes model) n = Some node ->
    In c (node_children node) ->
    PathTo (mat4_mul P (localTransform node)) c x M ->
    PathTo P n x M.

(** Depth-first pre-order below [n]: the visit of [n], then the visits
    below each child, children in listed order. *)
#[warnings="-register-all"]
Inductive Preorder : mat4 T -> Z -> list (Z * mat4 T) -> Prop :=
| preorder_node : forall P n node below,
    vec_at (nodes model) n = Some node ->
    Forall2 (Preorder (mat4_mul P (localTransform node))) (node_children node) below ->
    Preorder P n ((n, mat4_mul P (localTransform node)) :: concat below).

Definition in_range {A : Type} (v : list A) (i : Z) : bool :=
  (0 <=? i) && (i <? Z.of_nat (List.length v)).

Variable ctx : RenderContext T.

(** Every index a frame follows is in range: children and roots name
    nodes, and the primitive loop of every mesh node finds its vertex
    array, accessor and buffer view. *)
Definition node_ok (node : Node T) : bool :=
  forallb (in_range (nodes model)) (node_children node) &&
  (if node_mesh node >=? 0 then is_done (drawMeshPrimitives model ctx (node_mesh node))
   else true).

Definition scene_ok (roots : list Z) : bool :=
  forallb (in_range (nodes model)) roots && forallb node_ok (nodes model).

End SceneGraph.

(** The nodes visited and their world transforms, in order. *)
Definition visited {T : Type} (visits : list (NodeVisit T)) : list (Z * mat4 T) :=
  map (fun v => (v_node v, v_modelMatrix v)) visits.

(** ** Concrete inputs *)

Module Examples.

Definition f32 (z : Z) : spec_float := F32.of_Z z.
Definition fvec3 (x y z : Z) : vec3 spec_float := Vec3 (f32 x) (f32 y) (f32 z).
Definition cursor_at (x y : Z) : vec2 double :=
  Vec2 (Double (F64.of_Z x)) (Double (F64.of_Z y)).

(** [cosf] and [sinf] come from the C library, and IEEE 754 does not fix
    their results.  To run the controllers on concrete binary32 inputs
    this instance stands in for them: the Taylor polynomials of degree 10
    and 11 in Horner form.  Every statement about a rotation below is
    proved for all instances of [Trig]. *)
Definition series_cos (x : spec_float) : spec_float :=
  let x2 := (x * x)%g in
  (s_one - x2 / f32 2 * (s_one - x2 / f32 12 * (s_one - x2 / f32 30 *
     (s_one - x2 / f32 56 * (s_one - x2 / f32 90)))))%g.

Definition series_sin (x : spec_float) : spec_float :=
  let x2 := (x * x)%g in
  (x * (s_one - x2 / f32 6 * (s_one - x2 / f32 20 * (s_one - x2 / f32 42 *
     (s_one - x2 / f32 72 * (s_one - x2 / f32 110))))))%g.

#[global] Instance series_trig : Trig spec_float := {
  s_cos := series_cos;
  s_sin := series_sin
}.

(** A window with the middle button held, the cursor at [p] and the given
    state of the two modifier keys; no other key is down. *)
Definition dragging (shift ctrl : bool) (p : vec2 double) : GLFWwindow double :=
  MkWindow
    (fun b => match b with GLFW_MOUSE_BUTTON_MIDDLE => true | _ => false end)
    p
    (fun k => match k with
              | GLFW_KEY_LEFT_SHIFT => shift
              | GLFW_KEY_LEFT_CONTROL => ctrl
              | _ => false
              end).

(** A trackball controller in mid-drag, the last cursor position at the
    origin, world up [(0,1,0)]. *)
Definition trackball_at (camera : Camera spec_float)
  : TrackballCameraController double spec_float :=
  MkTrackball (f32 1) (fvec3 0 1 0) true (cursor_at 0 0) camera.

(** Eye one unit in front of a center that lies 2049 units up the z axis. *)
Definition camera_far_center : Camera spec_float :=
  MkCamera (fvec3 0 0 2048) (fvec3 0 0 2049) (fvec3 0 1 0).

(** Eye five units from a center at the origin. *)
Definition camera_five : Camera spec_float :=
  MkCamera (fvec3 0 0 5) (fvec3 0 0 0) (fvec3 0 1 0).

(** Eye on the center. *)
Definition camera_degenerate : Camera spec_float :=
  MkCamera (fvec3 0 0 0) (fvec3 0 0 0) (fvec3 0 1 0).

(** Eye [2^25] units from a center at the origin. *)
Definition camera_distant : Camera spec_float :=
  MkCamera (fvec3 0 0 33554432) (fvec3 0 0 0) (fvec3 0 1 0).

(** The same camera, five units from the origin, in exact arithmetic. *)
Definition exact_camera_five : Camera R :=
  MkCamera (Vec3 0 0 5)%R (Vec3 0 0 0)%R (Vec3 0 1 0)%R.

Definition exact_up : vec3 R := (Vec3 0 1 0)%R.

(** A node without a mesh that translates by [t]. *)
Definition translation_node (t : vec3 spec_float) (children : list Z)
  : Node spec_float :=
  MkNode (NodeTRS t (Quat (f32 1) (f32 0) (f32 0) (f32 0)) (fvec3 1 1 1))
         (-1) children.

(** Three nodes nested one in another, translating by [(1,0,0)],
    [(0,1,0)] and [(0,0,1)]. *)
Definition nested_translations : Model spec_float :=
  MkModel [] [] []
    [translation_node (fvec3 1 0 0) [1];
     translation_node (fvec3 0 1 0) [2];
     translation_node (fvec3 0 0 1) []]
    [MkScene [0]] 0.

(** Two roots that list the same child: acyclic, but not a forest. *)
Definition shared_child : Model spec_float :=
  MkModel [] [] []
    [translation_node (fvec3 1 0 0) [2];
     translation_node (fvec3 0 1 0) [2];
     translation_node (fvec3 0 0 1) []]
    [MkScene [0; 1]] 0.

Definition rank_nested (n : Z) : nat := Z.to_nat (2 - n).
Definition rank_shared (n : Z) : nat := if n =? 2 then 0%nat else 1%nat.

(** Two accessors and two buffer views; a primitive with an index
    accessor and one without. *)
Definition two_primitives : Model spec_float :=
  MkModel
    [MkAccessor 0 4 5123 36 64; MkAccessor 1 0 5126 24 3]
    [MkBufferView 0 100 0 34963; MkBufferView 0 512 12 34962]
    [MkMesh [MkPrimitive [("POSITION"%string, 1)] 0 4;
             MkPrimitive [("POSITION"%string, 1)] (-1) 4]]
    [MkNode (NodeMatrix mat4_identity) 0 []]
    [MkScene [0]] 0.

(** A context: an 800x600 window, the light direction [(1,1,1)] given in
    world space, uniform locations 0 to 4, two vertex arrays. *)
Definition context (fromCamera : bool) : RenderContext spec_float :=
  MkContext 800 600 mat4_identity 0 1 2 3 4 (fvec3 1 1 1) (fvec3 1 1 1)
            fromCamera [MkVaoRange 0 2] [7; 8].

End Examples.

(** ** The rest of [ViewerApplication::run] and of the controllers *)

(** A [double] that is neither a NaN nor an infinity. *)
Definition double_is_finite (d : double) : bool := F32.is_finite (double_val d).

Section RunSetup.

Context {T : Type} `{Scalar T}.

Local Open Scope glm_scope.

(** [maxDistance] (lines 584-588): the length of the diagonal of the
    scene bounds, or 100 when that is not positive. *)
Definition maxDistance (bboxMin bboxMax : vec3 T) : T :=
  let diag := vec3_sub bboxMax bboxMin in
  let maxDistance := glm_length diag in
  if s_zero <? maxDistance then maxDistance else s_lit 100 1.

(** The near and far planes handed to [glm::perspective] (line 591). *)
Definition nearPlane (bboxMin bboxMax : vec3 T) : T :=
  s_lit 1 1000 * maxDistance bboxMin bboxMax.

Definition farPlane (bboxMin bboxMax : vec3 T) : T :=
  s_lit 15 10 * maxDistance bboxMin bboxMax.

(** The camera computed from the scene bounds (lines 604-608). *)
Definition defaultCamera (bboxMin bboxMax : vec3 T) : Camera T :=
  let diag := vec3_sub bboxMax bboxMin in
  let center := vec3_scale (s_lit 5 10) (vec3_add bboxMax bboxMin) in
  let up := Vec3 s_zero s_one s_zero in
  let eye :=
    if s_zero <? z3 diag then vec3_add center diag
    else vec3_add center (vec3_scale (s_lit 2 1) (cross diag up)) in
  Camera_new eye center up.

(** The camera the first controller starts from (lines 600-609). *)
Definition initialCamera (m_hasUserCamera : bool) (m_userCamera : Camera T)
  (bboxMin bboxMax : vec3 T) : Camera T :=
  if m_hasUserCamera then m_userCamera else defaultCamera bboxMin bboxMax.

Context `{Trig T}.

(** The light direction the two sliders set (lines 800-804). *)
Definition lightDirectionFromAngles (theta phi : T) : vec3 T :=
  let sinPhi := s_sin phi in
  let cosPhi := s_cos phi in
  let sinTheta := s_sin theta in
  let cosTheta := s_cos theta in
  Vec3 (sinTheta * cosPhi) cosTheta (sinTheta * sinPhi).

End RunSetup.

(** The cursor delta [FirstPersonCameraController::update] works with
    (lines 41-50). *)
Definition fp_cursorDelta {D T : Type} `{Cursor D T} (w : GLFWwindow D)
  (c : FirstPersonCameraController D T) : vec2 D :=
  fst (cursorDelta GLFW_MOUSE_BUTTON_LEFT w
         (fp_LeftButtonPressed c) (fp_LastCursorPosition c)).

(** ** More concrete inputs *)

Module Frames.

(** A window with both mouse buttons down, the cursor at [p] and the
    listed keys held. *)
Definition buttons_down (p : vec2 double) (held : Key -> bool) : GLFWwindow double :=
  MkWindow (fun _ => true) p held.

(** A window with both mouse buttons up. *)
Definition buttons_up (p : vec2 double) (held : Key -> bool) : GLFWwindow double :=
  MkWindow (fun _ => false) p held.

Definition no_key (k : Key) : bool := false.

(** W and S held together, and Q and E. *)
Definition opposing_keys (k : Key) : bool :=
  match k with
  | GLFW_KEY_W | GLFW_KEY_S | GLFW_KEY_Q | GLFW_KEY_E => true
  | _ => false
  end.

(** Controllers at rest: the button was up on the frame before. *)
Definition trackball_idle (camera : Camera spec_float)
  : TrackballCameraController double spec_float :=
  MkTrackball (Examples.f32 1) (Examples.fvec3 0 1 0) false
              (Examples.cursor_at 0 0) camera.

Definition first_person_idle (camera : Camera spec_float)
  : FirstPersonCameraController double spec_float :=
  MkFirstPerson (Examples.f32 3) (Examples.fvec3 0 1 0) false
                (Examples.cursor_at 0 0) camera.


Definition exact_context : RenderContext R :=
  MkContext 800 600 mat4_identity 0 1 2 3 4 (Vec3 0 0 1)%R (Vec3 1 1 1)%R
            false [] [].

(** Bounds with depth: the unit cube. *)
Definition exact_cube_min : vec3 R := (Vec3 0 0 0)%R.
Definition exact_cube_max : vec3 R := (Vec3 1 1 1)%R.

End Frames.

(** ** Reading a frame's call sequence *)

Definition is_draw {T : Type} (c : GLCall T) : bool :=
  match c with
  | glDrawElements _ _ _ _ | glDrawArrays _ _ _ => true
  | _ => false
  end.

Definition is_bind {T : Type} (c : GLCall T) : bool :=
  match c with
  | glBindVertexArray _ => true
  | _ => false
  end.

(** Every draw call in [calls] comes right after a [glBindVertexArray];
    [bound] tells whether the call before [calls] was one. *)
Fixpoint draws_follow_bind {T : Type} (bound : bool) (calls : list (GLCall T)) : bool :=
  match calls with
  | [] => true
  | c :: rest =>
    (if is_draw c then bound else true) && draws_follow_bind (is_bind c) rest
  end.

Definition count_draws {T : Type} (calls : list (GLCall T)) : nat :=
  List.length (filter is_draw calls).

Module Cycles.

(** A node that lists itself as its child. *)
Definition self_loop : Model spec_float :=
  MkModel [] [] []
    [Examples.translation_node (Examples.fvec3 1 0 0) [0]]
    [MkScene [0]] 0.

End Cycles.

(** The number of primitives node [nodeIdx] brings to a frame: those of
    its mesh, if it has one. *)
Definition primitives_of {T : Type} (model : Model T) (nodeIdx : Z) : nat :=
  match vec_at (nodes model) nodeIdx with
  | Some node =>
    if node_mesh node >=? 0 then
      match vec_at (meshes model) (node_mesh node) with
      | Some mesh => List.length (mesh_primitives mesh)
      | None => 0%nat
      end
    else 0%nat
  | None => 0%nat
  end.

(** ** Setting up the vertex arrays *)

Module Setup.

Definition GL_ARRAY_BUFFER : Z := 0x8892.
Definition GL_ELEMENT_ARRAY_BUFFER : Z := 0x8893.

(** The OpenGL calls of [createVertexArrayObjects]. *)
Inductive GLSetupCall : Type :=
| glGenVertexArrays (n : Z)
| glBindVertexArray (array : Z)
| glEnableVertexAttribArray (index : Z)
| glBindBuffer (target buffer : Z)
| glVertexAttribPointer (index size type : Z) (normalized : bool)
                        (stride pointer : Z).

(** What a call of [createVertexArrayObjects] can come to: it returns,
    an [assert] aborts the program, or it indexes a vector out of
    range. *)
Inductive result (A : Type) : Type :=
| Ok (a : A)
| AssertionFailed
| OutOfRange.

Arguments AssertionFailed {A}.
Arguments OutOfRange {A}.

Definition bind {A B : Type} (c : result A) (k : A -> result B) : result B :=
  match c with
  | Ok a => k a
  | AssertionFailed => AssertionFailed
  | OutOfRange => OutOfRange
  end.

Notation "x <- c ;; k" := (bind c (fun x => k))
  (at level 61, c at next level, right associativity).

(** [v[i]], out of range being undefined behaviour. *)
Definition at_ {A : Type} (v : list A) (i : Z) : result A :=
  match vec_at v i with
  | Some a => Ok a
  | None => OutOfRange
  end.

(** [std::map::find] on the attributes of a primitive. *)
Fixpoint attributes_find (key : string) (attributes : list (string * Z))
  : option Z :=
  match attributes with
  | [] => None
  | (k, v) :: rest =>
    if String.eqb k key then Some v else attributes_find key rest
  end.

(** The local [std::map] [vertex_attributes], in the order a range-for
    goes through it: by increasing key, whatever the order of the
    [insert] calls. *)
Definition vertex_attributes : list (string * Z) :=
  [("NORMAL"%string, 1); ("POSITION"%string, 0); ("TEXCOORD_0"%string, 2)].

Section CreateVertexArrayObjects.

Context {T : Type}.

(** [assert] checks nothing when the program is compiled with [NDEBUG]. *)
Variable NDEBUG : bool.

(** The driver: the name [glGenVertexArrays] writes into slot [k] of
    [vertexArrayObjects]. *)
Variable genVertexArray : nat -> Z.

Variable model : Model T.
Variable bufferObjects : list Z.

Definition assert {A : Type} (condition : bool) (k : result A) : result A :=
  if NDEBUG || condition then k else AssertionFailed.

(** The body of the loop over [vertex_attributes] (lines 903-929). *)
Definition setAttribute (primitive : Primitive) (vertex_attribute : string * Z)
  : result (list GLSetupCall) :=
  match attributes_find (fst vertex_attribute) (prim_attributes primitive) with
  | None => Ok []
  | Some accessorIdx =>
    accessor <- at_ (accessors model) accessorIdx ;;
    bufferView <- at_ (bufferViews model) (acc_bufferView accessor) ;;
    let bufferIdx := bv_buffer bufferView in
    assert (GL_ARRAY_BUFFER =? bv_target bufferView)
      (buffer <- at_ bufferObjects bufferIdx ;;
       let byteOffset :=
         size_t_add (bv_byteOffset bufferView) (acc_byteOffset accessor) in
       Ok [glEnableVertexAttribArray (snd vertex_attribute);
           glBindBuffer GL_ARRAY_BUFFER buffer;
           glVertexAttribPointer (snd vertex_attribute) (acc_type accessor)
             (GLenum (acc_componentType accessor)) false
             (GLsizei (bv_byteStride bufferView)) byteOffset])
  end.

Fixpoint setAttributes (primitive : Primitive)
  (vertex_attributes : list (string * Z)) : result (list GLSetupCall) :=
  match vertex_attributes with
  | [] => Ok []
  | vertex_attribute :: rest =>
    calls <- setAttribute primitive vertex_attribute ;;
    more <- setAttributes primitive rest ;;
    Ok (calls ++ more)
  end.

(** "Index array if defined" (lines 932-940). *)
Definition setIndices (primitive : Primitive) : result (list GLSetupCall) :=
  if prim_indices primitive >=? 0 then
    accessor <- at_ (accessors model) (prim_indices primitive) ;;
    bufferView <- at_ (bufferViews model) (acc_bufferView accessor) ;;
    let bufferIdx := bv_buffer bufferView in
    assert (GL_ELEMENT_ARRAY_BUFFER =? bv_target bufferView)
      (buffer <- at_ bufferObjects bufferIdx ;;
       Ok [glBindBuffer GL_ELEMENT_ARRAY_BUFFER buffer])
  else Ok [].

(** The body of the primitive loop (lines 899-940). *)
Definition setPrimitive (vertexArrayObjects : list Z) (vaoOffset pIdx : Z)
  (primitive : Primitive) : result (list GLSetupCall) :=
  vao <- at_ vertexArrayObjects (vaoOffset + pIdx) ;;
  attributes <- setAttributes primitive vertex_attributes ;;
  indices <- setIndices primitive ;;
  Ok (glBindVertexArray vao :: attributes ++ indices).

(** [for (size_t pIdx = 0; pIdx < mesh.primitives.size(); ++pIdx)] *)
Fixpoint setPrimitives (vertexArrayObjects : list Z) (vaoOffset pIdx : Z)
  (primitives : list Primitive) : result (list GLSetupCall) :=
  match primitives with
  | [] => Ok []
  | primitive :: rest =>
    calls <- setPrimitive vertexArrayObjects vaoOffset pIdx primitive ;;
    more <- setPrimitives vertexArrayObjects vaoOffset (pIdx + 1) rest ;;
    Ok (calls ++ more)
  end.

(** What [resize] and [glGenVertexArrays] leave in the [n] new slots: the
    names of the driver, or the zeros of [resize] when [n] is no valid
    [GLsizei] and the driver rejects the call. *)
Definition newVertexArrays (vaoOffset n : nat) : list Z :=
  if GLsizei (Z.of_nat n) <? 0 then repeat 0 n
  else map genVertexArray (seq vaoOffset n).

(** The loop over [model.meshes] (lines 891-942), from the vectors as
    they stand when it reaches [meshes].  [first] is the element whose
    address [&vertexArrayObjects[vaoOffset]] takes (line 896): for a mesh
    without primitives the vector ends at [vaoOffset] and the index is
    out of range. *)
Fixpoint createMeshes (meshes : list Mesh) (vertexArrayObjects : list Z)
  (meshIndexToVaoRange : list VaoRange)
  : result (list Z * list VaoRange * list GLSetupCall) :=
  match meshes with
  | [] => Ok (vertexArrayObjects, meshIndexToVaoRange, [])
  | mesh :: rest =>
    let vaoOffset := List.length vertexArrayObjects in
    let n := List.length (mesh_primitives mesh) in
    let vertexArrayObjects := vertexArrayObjects ++ newVertexArrays vaoOffset n in
    let meshIndexToVaoRange :=
      meshIndexToVaoRange
        ++ [MkVaoRange (GLsizei (Z.of_nat vaoOffset)) (GLsizei (Z.of_nat n))] in
    first <- at_ vertexArrayObjects (Z.of_nat vaoOffset) ;;
    calls <- setPrimitives vertexArrayObjects (Z.of_nat vaoOffset) 0
                           (mesh_primitives mesh) ;;
    r <- createMeshes rest vertexArrayObjects meshIndexToVaoRange ;;
    let '(vaos, ranges, more) := r in
    Ok (vaos, ranges, glGenVertexArrays (GLsizei (Z.of_nat n)) :: calls ++ more)
  end.

(** [ViewerApplication::createVertexArrayObjects]: the vector it returns,
    [meshIndexToVaoRange] as it leaves it, and its OpenGL calls. *)
Definition createVertexArrayObjects (meshIndexToVaoRange : list VaoRange)
  : result (list Z * list VaoRange * list GLSetupCall) :=
  r <- createMeshes (meshes model) [] meshIndexToVaoRange ;;
  let '(vaos, ranges, calls) := r in
  Ok (vaos, ranges, calls ++ [glBindVertexArray 0]).

End CreateVertexArrayObjects.

(** The number of primitives in [meshes]. *)
Definition primitive_count (meshes : list Mesh) : nat :=
  list_sum (map (fun mesh => List.length (mesh_primitives mesh)) meshes).

(** A primitive the draw loop can read: it has an index accessor, or the
    first of its attributes is one that the setup looks at. *)
Definition drawable (primitive : Primitive) : bool :=
  (prim_indices primitive >=? 0) ||
  match prim_attributes primitive with
  | [] => false
  | (name, _) :: _ =>
    existsb (fun vertex_attribute => String.eqb name (fst vertex_attribute))
            vertex_attributes
  end.

(** The context of [run] after setup: the two vectors are the ones
    [createVertexArrayObjects] gave. *)
Definition with_vertex_arrays {T : Type} (ctx : RenderContext T)
  (vaos : list Z) (ranges : list VaoRange) : RenderContext T :=
  MkContext (m_nWindowWidth ctx) (m_nWindowHeight ctx) (projMatrix ctx)
    (modelViewProjMatrixLocation ctx) (modelViewMatrixLocation ctx)
    (normalMatrixLocation ctx) (lightDirectionLocation ctx)
    (lightIntensityLocation ctx) (lightDirection ctx) (lightIntensity ctx)
    (lightFromCamera ctx) ranges vaos.

(** One buffer; names are the slot numbers from 10 on. *)
Definition example_name (k : nat) : Z := 10 + Z.of_nat k.

End Setup.

(** The slot of [vertexArrayObjects] where the vertex arrays of mesh
    [meshIdx] start. *)
Definition vao_offset (meshes : list Mesh) (meshIdx : nat) : nat :=
  Setup.primitive_count (firstn meshIdx meshes).

(** Every index the traversal follows names something: the roots and
    the children name nodes, a node's mesh, when it has one, names a
    mesh, and the draw loop can read the primitives of every mesh. *)
Definition node_in_range {T : Type} (model : Model T) (node : Node T) : bool :=
  forallb (in_range (nodes model)) (node_children node) &&
  ((node_mesh node <? 0) || in_range (meshes model) (node_mesh node)).

Definition model_in_range {T : Type} (model : Model T) (roots : list Z) : bool :=
  forallb (in_range (nodes model)) roots &&
  forallb (node_in_range model) (nodes model) &&
  forallb (fun mesh => forallb Setup.drawable (mesh_primitives mesh)) (meshes model).

(** The vertex arrays a call sequence binds, in order. *)
Definition bound_arrays {T : Type} (calls : list (GLCall T)) : list Z :=
  flat_map (fun c => match c with glBindVertexArray vao => [vao] | _ => [] end)
           calls.

Module SetupExamples.

(** The calls that set up [Examples.two_primitives] over one buffer named
    5, vertex array names from 10 on. *)
Definition two_primitives_setup : list Setup.GLSetupCall :=
  Eval vm_compute in
  match Setup.createVertexArrayObjects false Setup.example_name
          Examples.two_primitives [5] [] with
  | Setup.Ok (_, _, calls) => calls
  | _ => []
  end.

(** The two primitives of its mesh. *)
Definition indexed_primitive : Primitive :=
  MkPrimitive [("POSITION"%string, 1)] 0 4.

Definition plain_primitive : Primitive :=
  MkPrimitive [("POSITION"%string, 1)] (-1) 4.

(** A primitive with neither attributes nor indices. *)
Definition bare_primitive : Primitive := MkPrimitive [] (-1) 4.

End SetupExamples.

(** What the setup needs of an accessor it follows: the accessor and its
    buffer view exist, the view has the target the [assert] asks for (or
    the [assert]s are compiled out), and the view's buffer has a buffer
    object. *)
Definition view_ok {T : Type} (NDEBUG : bool) (model : Model T)
  (bufferObjects : list Z) (target accessorIdx : Z) : bool :=
  match vec_at (accessors model) accessorIdx with
  | Some accessor =>
    match vec_at (bufferViews model) (acc_bufferView accessor) with
    | Some bufferView =>
      (NDEBUG || (target =? bv_target bufferView)) &&
      in_range bufferObjects (bv_buffer bufferView)
    | None => false
    end
  | None => false
  end.

(** The accessors the setup follows for a primitive: those of the
    attributes NORMAL, POSITION and TEXCOORD_0 it has, and its index
    accessor if it has one. *)
Definition primitive_setup_ok {T : Type} (NDEBUG : bool) (model : Model T)
  (bufferObjects : list Z) (primitive : Primitive) : bool :=
  forallb (fun vertex_attribute : string * Z =>
             match Setup.attributes_find (fst vertex_attribute)
                                         (prim_attributes primitive) with
             | Some accessorIdx =>
               view_ok NDEBUG model bufferObjects Setup.GL_ARRAY_BUFFER accessorIdx
             | None => true
             end)
          Setup.vertex_attributes &&
  (if prim_indices primitive >=? 0 then
     view_ok NDEBUG model bufferObjects Setup.GL_ELEMENT_ARRAY_BUFFER
             (prim_indices primitive)
   else true).

(** What the setup needs of a mesh: a first primitive, whose slot
    [&vertexArrayObjects[vaoOffset]] names, and primitives it can follow. *)
Definition mesh_setup_ok {T : Type} (NDEBUG : bool) (model : Model T)
  (bufferObjects : list Z) (mesh : Mesh) : bool :=
  match mesh_primitives mesh with
  | [] => false
  | primitives => forallb (primitive_setup_ok NDEBUG model bufferObjects) primitives
  end.

(** ** The fragment shaders *)

(** GLSL built-ins, as the language specification gives them:
    [normalize(v)] is [v / length(v)], [max(x, y)] is [y] when [x < y] and
    [x] otherwise, [min(x, y)] is [y] when [y < x], [clamp(x, lo, hi)] is
    [min(max(x, lo), hi)] and [mix(x, y, a)] is [x * (1 - a) + y * a]. *)
Module Glsl.

Section BuiltIns.

Context {T : Type} `{Scalar T}.

Local Open Scope glm_scope.

Definition normalize (v : vec3 T) : vec3 T := vec3_div v (glm_length v).

Definition max (x y : T) : T := if x <? y then y else x.
Definition min (x y : T) : T := if y <? x then y else x.
Definition clamp (x minVal maxVal : T) : T := min (max x minVal) maxVal.

Definition mix (x y a : vec3 T) : vec3 T :=
  vec3_add (vec3_mul x (vec3_sub (Vec3 s_one s_one s_one) a)) (vec3_mul y a).

Definition vec3_opp (v : vec3 T) : vec3 T := Vec3 (- x3 v) (- y3 v) (- z3 v).

Definition splat (x : T) : vec3 T := Vec3 x x x.

End BuiltIns.

End Glsl.

(** [shaders/diffuse_directional_light.fs.glsl] *)
Module DiffuseShader.

Section Shader.

Context {T : Type} `{Scalar T}.

Local Open Scope glm_scope.

Variable uLightDirection : vec3 T.
Variable uLightIntensity : vec3 T.

(** [main], from the interpolated normal to [fColor]. *)
Definition main (vViewSpaceNormal : vec3 T) : vec3 T :=
  let viewSpaceNormal := Glsl.normalize vViewSpaceNormal in
  vec3_scale_r (vec3_mul (Glsl.splat (s_one / s_lit 31415 10000)) uLightIntensity)
               (dot viewSpaceNormal uLightDirection).

End Shader.

End DiffuseShader.

(** [shaders/pbr_directional_light.fs.glsl] *)
Module PbrShader.

Section Shader.

Context {T : Type} `{Scalar T}.

Local Open Scope glm_scope.

(** The built-in [pow] on a component. *)
Variable pow : T -> T -> T.

Definition pow3 (v e : vec3 T) : vec3 T :=
  Vec3 (pow (x3 v) (x3 e)) (pow (y3 v) (y3 e)) (pow (z3 v) (z3 e)).

Definition GAMMA : T := s_lit 22 10.
Definition INV_GAMMA : T := s_one / GAMMA.
Definition M_PI : T := s_lit 3141592653589793 1000000000000000.
Definition M_1_PI : T := s_one / M_PI.

Definition LINEARtoSRGB (color : vec3 T) : vec3 T :=
  pow3 color (Glsl.splat INV_GAMMA).

Definition SRGBtoLINEAR (srgbIn : vec4 T) : vec4 T :=
  vec4_of (pow3 (vec3_of srgbIn) (Glsl.splat GAMMA)) (w4 srgbIn).

Variable uLightDirection : vec3 T.
Variable uLightIntensity : vec3 T.
Variable uBaseColorFactor : vec4 T.
Variable uRoughnessFactor : T.
Variable uMetallicFactor : T.

(** [main]; the two texels are what [texture(uBaseColorTexture,
    vTexCoords)] and [texture(uMetallicRoughnessTexture, vTexCoords)]
    return. *)
Definition main (vViewSpacePosition vViewSpaceNormal : vec3 T)
  (baseColorTexel metallicRoughnessTexel : vec4 T) : vec3 T :=
  let V := Glsl.normalize (Glsl.vec3_opp vViewSpacePosition) in
  let L := uLightDirection in
  let N := Glsl.normalize vViewSpaceNormal in
  let H := Glsl.normalize (vec3_add L V) in

  let baseColorFromTexture := SRGBtoLINEAR baseColorTexel in
  let metallicRougnessFromTexture := metallicRoughnessTexel in

  let baseColor := vec4_mul baseColorFromTexture uBaseColorFactor in
  let metallic := Glsl.splat (uMetallicFactor * z4 metallicRougnessFromTexture) in
  let roughness := uRoughnessFactor * y4 metallicRougnessFromTexture in

  let dielectricSpecular := Vec3 (s_lit 4 100) (s_lit 4 100) (s_lit 4 100) in
  let black := Vec3 s_zero s_zero s_zero in

  let c_diff :=
    Glsl.mix (vec3_scale_r (vec3_of baseColor) (s_one - x3 dielectricSpecular))
             black metallic in
  let diffuse := vec3_scale_r c_diff M_1_PI in
  let F_0 := Glsl.mix dielectricSpecular (vec3_of baseColor) metallic in
  let alpha := roughness * roughness in

  let baseShlickFactor := s_one - Glsl.clamp (dot V N) s_zero s_one in
  let shlickFactor := baseShlickFactor * baseShlickFactor in
  let shlickFactor := shlickFactor * shlickFactor in
  let shlickFactor := shlickFactor * baseShlickFactor in
  let F := vec3_add F_0 (vec3_scale_r (vec3_sub (Glsl.splat s_one) F_0) shlickFactor) in

  let NdotL := Glsl.clamp (dot N L) s_zero s_one in
  let NdotV := Glsl.clamp (dot N V) s_zero s_one in
  let alpha2 := alpha * alpha in
  let visDenominator :=
    NdotL * s_sqrt (NdotV * NdotV * (s_one - alpha2) + alpha2)
    + NdotV * s_sqrt (NdotL * NdotL * (s_one - alpha2) + alpha2) in
  let Vis := s_zero in
  let visDenominator :=
    if s_zero <? visDenominator then s_lit 5 10 / visDenominator
    else visDenominator in

  let NdotH := Glsl.clamp (dot N H) s_zero s_one in
  let baseDenomD := NdotH * NdotH * (alpha2 - s_one) + s_one in
  let D := M_1_PI * alpha2 / (baseDenomD * baseDenomD) in

  let f_specular := vec3_scale_r (vec3_scale_r F Vis) D in
  let f_diffuse := vec3_mul (vec3_sub (Glsl.splat s_one) F) diffuse in

  LINEARtoSRGB
    (vec3_scale_r (vec3_mul (vec3_add f_diffuse f_specular) uLightIntensity) NdotL).

End Shader.

End PbrShader.

Module ShaderExamples.

(** A light along z and a white light of unit intensity. *)
Definition light_z : vec3 R := (Vec3 0 0 1)%R.
Definition white : vec3 R := (Vec3 1 1 1)%R.

(** A normal that faces the light, and one that faces away. *)
Definition facing : vec3 R := (Vec3 0 0 2)%R.
Definition averted : vec3 R := (Vec3 0 0 (-2))%R.

Definition position : vec3 R := (Vec3 0 0 (-3))%R.
Definition opaque_white : vec4 R := (Vec4 1 1 1 1)%R.

(** A metallic-roughness texel: roughness 1 in green, metallic 1 in blue. *)
Definition rough_metal : vec4 R := (Vec4 0 1 1 0)%R.

(** A stand-in for [pow] that the theorems never look into. *)
Definition square_pow (x y : R) : R := (x * x)%R.

End ShaderExamples.

(** ** Rotations and view space, as the specification speaks of them *)

(** The unit vector along [v]. *)
Definition direction (v : vec3 R) : vec3 R := vec3_div v (glm_length v).

(** The rotation of [v] by [angle] radians about the unit vector [k], by
    Rodrigues' formula [v cos a + (k x v) sin a + k (k . v) (1 - cos a)]:
    counter-clockwise for a positive angle when [k] points at the
    viewer. *)
Definition rotation_about (angle : R) (k v : vec3 R) : vec3 R :=
  vec3_add
    (vec3_add (vec3_scale (cos angle) v) (vec3_scale (sin angle) (cross k v)))
    (vec3_scale ((1 - cos angle) * dot k v)%R k).

(** Modelled from the spec: the derived axis [trueUp] of [Camera]
    ([cameras.hpp]), [trueUp = cross(front, left)]. *)
Definition trueUp (c : Camera R) : vec3 R := cross (front c) (left c).

(** A direction of world space in the camera's own frame: its
    coordinates along the camera's right ([-left]), true up and backward
    ([-front]) axes. *)
Definition in_view_space (c : Camera R) (v : vec3 R) : vec3 R :=
  Vec3 (- dot (left c) v)%R (dot (trueUp c) v) (- dot (front c) v)%R.

Module Orbiting.





(** Where yaw then pitch would end. *)
Definition yaw_then_pitch : vec3 R :=
  (Vec3 (- (5 * sin (1 / 10)))
        (5 * (sin (1 / 10) * cos (1 / 10)))
        (5 * (cos (1 / 10) * cos (1 / 10))))%R.

End Orbiting.

Module Lighting.

(** A camera on the x axis that looks at the origin: its view matrix
    turns the world a quarter. *)
Definition camera_side : Camera spec_float :=
  MkCamera (Examples.fvec3 5 0 0) (Examples.fvec3 0 0 0) (Examples.fvec3 0 1 0).

Definition exact_camera_side : Camera R :=
  MkCamera (Vec3 5 0 0)%R (Vec3 0 0 0)%R (Vec3 0 1 0)%R.

(** A light from the direction [(3,0,4)], of length 5. *)
Definition context (fromCamera : bool) : RenderContext spec_float :=
  MkContext 800 600 mat4_identity 0 1 2 3 4 (Examples.fvec3 3 0 4)
            (Examples.fvec3 1 1 1) fromCamera [] [].

Definition exact_context (fromCamera : bool) : RenderContext R :=
  MkContext 800 600 mat4_identity 0 1 2 3 4 (Vec3 3 0 4)%R (Vec3 1 1 1)%R
            fromCamera [] [].

(** What the frame writes for that light seen from [camera_side], in
    binary32: the roundings of [-0.8], [0] and [0.6]. *)
Definition side_light : vec3 spec_float :=
  Vec3 (F32.lit (-8) 10) F32.zero (F32.lit 6 10).

End Lighting.

(** * Properties *)

(** ** The two controllers, branch by branch *)

Section ControllerFacts.

Context {D T : Type} `{Scalar T} `{Trig T} `{Cursor D T}.

Lemma trackball_update_result (elapsedTime : T) (w : GLFWwindow D)
  (c : TrackballCameraController D T) :
  let h := tb_horizontalMovement w c in
  let v := tb_verticalMovement w c in
  fst (TrackballCameraController_update elapsedTime w c) =
    if negb (to_bool h || to_bool v) then false
    else if glfwGetKey w GLFW_KEY_LEFT_SHIFT then true
    else if glfwGetKey w GLFW_KEY_LEFT_CONTROL then negb (h =? s_zero)%g
    else true.
Proof.
  unfold TrackballCameraController_update, tb_horizontalMovement,
    tb_verticalMovement, tb_cursorDelta.
  destruct (cursorDelta _ _ _ _) as [delta [pressed last]]; cbn [fst snd].
  repeat match goal with
         | |- context [if ?b then _ else _] => destruct b; cbn [fst negb]
         end; reflexivity.
Qed.

Lemma trackball_update_camera (elapsedTime : T) (w : GLFWwindow D)
  (c : TrackballCameraController D T) :
  let h := tb_horizontalMovement w c in
  let v := tb_verticalMovement w c in
  tb_camera (snd (TrackballCameraController_update elapsedTime w c)) =
    if negb (to_bool h || to_bool v) then tb_camera c
    else if glfwGetKey w GLFW_KEY_LEFT_SHIFT then
      moveLocal h s_zero s_zero (tb_camera c)
    else if glfwGetKey w GLFW_KEY_LEFT_CONTROL then
      if (h =? s_zero)%g then tb_camera c
      else zoom (tb_worldUpAxis c) h (tb_camera c)
    else orbit (tb_worldUpAxis c) h v (tb_camera c).
Proof.
  unfold TrackballCameraController_update, tb_horizontalMovement,
    tb_verticalMovement, tb_cursorDelta.
  destruct (cursorDelta _ _ _ _) as [delta [pressed last]]; cbn [fst snd].
  repeat match goal with
         | |- context [if ?b then _ else _] => destruct b; cbn [snd tb_camera]
         end; reflexivity.
Qed.

Lemma first_person_update_result (elapsedTime : T) (w : GLFWwindow D)
  (c : FirstPersonCameraController D T) :
  fst (FirstPersonCameraController_update elapsedTime w c) =
    fp_hasMoved (fp_frame_motion elapsedTime w c).
Proof.
  unfold FirstPersonCameraController_update, fp_frame_motion.
  destruct (cursorDelta _ _ _ _) as [delta [pressed last]]; cbn [fst snd].
  destruct (fp_hasMoved _); reflexivity.
Qed.

Lemma first_person_update_camera (elapsedTime : T) (w : GLFWwindow D)
  (c : FirstPersonCameraController D T) :
  let m := fp_frame_motion elapsedTime w c in
  fp_camera (snd (FirstPersonCameraController_update elapsedTime w c)) =
    if fp_hasMoved m then
      rotateWorld (panLeftAngle m) (fp_worldUpAxis c)
        (rotateLocal (rollRightAngle m) (tiltDownAngle m) s_zero
           (moveLocal (truckLeft m) (pedestalUp m) (dollyIn m) (fp_camera c)))
    else fp_camera c.
Proof.
  unfold FirstPersonCameraController_update, fp_frame_motion.
  destruct (cursorDelta _ _ _ _) as [delta [pressed last]]; cbn [fst snd].
  destruct (fp_hasMoved _); reflexivity.
Qed.

(** [hasMoved] is false exactly when the six quantities all compare equal
    to zero. *)
Lemma fp_hasMoved_all_zero (m : Motion) : fp_hasMoved m = negb (all_zero m).
Proof.
  unfold fp_hasMoved, all_zero, to_bool.
  destruct (truckLeft m =? s_zero)%g, (pedestalUp m =? s_zero)%g,
    (dollyIn m =? s_zero)%g, (rollRightAngle m =? s_zero)%g,
    (panLeftAngle m =? s_zero)%g, (tiltDownAngle m =? s_zero)%g; reflexivity.
Qed.

End ControllerFacts.

(** ** C8: no cursor movement, no trackball update *)

Lemma zero_delta_no_movement (d : double) :
  double_is_zero d = true ->
  to_bool (s_lit 1 100 * d_to_float d)%g = false.
Proof.
  destruct d as [[s | s | | s m e]]; cbn; try discriminate.
  intros _. destruct s; vm_compute; reflexivity.
Qed.

(** C8.  Whatever the modifier keys, when the cursor delta of the frame
    is [(0,0)] the trackball [update] returns [false] and leaves the
    camera as it was: the test on the two movements comes before any key
    is looked at. *)
Theorem trackball_zero_delta_returns_false
  (libm : Trig spec_float) (elapsedTime : spec_float) (w : GLFWwindow double)
  (c : TrackballCameraController double spec_float) :
  double_is_zero (x2 (tb_cursorDelta w c)) = true ->
  double_is_zero (y2 (tb_cursorDelta w c)) = true ->
  fst (TrackballCameraController_update elapsedTime w c) = false /\
  tb_camera (snd (TrackballCameraController_update elapsedTime w c)) = tb_camera c.
Proof.
  intros Hx Hy.
  rewrite trackball_update_result, trackball_update_camera.
  unfold tb_horizontalMovement, tb_verticalMovement.
  rewrite (zero_delta_no_movement _ Hx), (zero_delta_no_movement _ Hy).
  split; reflexivity.
Qed.

Lemma trackball_zero_delta_witness :
  let w := Examples.dragging true true (Examples.cursor_at 0 0) in
  let c := Examples.trackball_at Examples.camera_five in
  double_is_zero (x2 (tb_cursorDelta w c)) = true /\
  double_is_zero (y2 (tb_cursorDelta w c)) = true /\
  fst (TrackballCameraController_update (Examples.f32 1) w c) = false /\
  tb_camera (snd (TrackballCameraController_update (Examples.f32 1) w c))
    = tb_camera c.
Proof.
  intros w c.
  assert (Hx : double_is_zero (x2 (tb_cursorDelta w c)) = true) by reflexivity.
  assert (Hy : double_is_zero (y2 (tb_cursorDelta w c)) = true) by reflexivity.
  split; [exact Hx | split; [exact Hy | ]].
  exact (trackball_zero_delta_returns_false Examples.series_trig
           (Examples.f32 1) w c Hx Hy).
Defined.

(** ** C5: the first-person update *)

(** C5.  [FirstPersonCameraController::update] returns [false], with the
    camera untouched, exactly when the six accumulated quantities
    (truckLeft, pedestalUp, dollyIn, rollRightAngle, panLeftAngle,
    tiltDownAngle) all equal zero; otherwise it returns [true] after
    [moveLocal(truckLeft, pedestalUp, dollyIn)], then
    [rotateLocal(rollRightAngle, tiltDownAngle, 0)], then
    [rotateWorld(panLeftAngle, worldUpAxis)], in that order. *)
Theorem first_person_update_spec
  {D T : Type} `{Scalar T} `{Trig T} `{Cursor D T}
  (elapsedTime : T) (w : GLFWwindow D) (c : FirstPersonCameraController D T) :
  fst (FirstPersonCameraController_update elapsedTime w c)
    = negb (all_zero (fp_frame_motion elapsedTime w c)) /\
  fp_camera (snd (FirstPersonCameraController_update elapsedTime w c))
    = if all_zero (fp_frame_motion elapsedTime w c) then fp_camera c
      else
        rotateWorld (panLeftAngle (fp_frame_motion elapsedTime w c))
          (fp_worldUpAxis c)
          (rotateLocal (rollRightAngle (fp_frame_motion elapsedTime w c))
             (tiltDownAngle (fp_frame_motion elapsedTime w c)) s_zero
             (moveLocal (truckLeft (fp_frame_motion elapsedTime w c))
                (pedestalUp (fp_frame_motion elapsedTime w c))
                (dollyIn (fp_frame_motion elapsedTime w c)) (fp_camera c))).
Proof.
  rewrite first_person_update_result, first_person_update_camera.
  rewrite fp_hasMoved_all_zero.
  destruct (all_zero _); split; reflexivity.
Qed.

(** ** C3: what the boolean result says *)

(** Swapping the controller carries the camera over. *)
Lemma getCamera_setCamera {D T : Type} (camera : Camera T) (c : CameraController D T) :
  getCamera (setCamera camera c) = camera.
Proof. destruct c; reflexivity. Qed.

(** C3, as stated, fails: a trackball pan frame (shift held) whose cursor
    moved only vertically calls [moveLocal(0, 0, 0)], which leaves the
    camera as it was, and returns [true]. *)
Lemma pan_returns_true_camera_unchanged :
  let w := Examples.dragging true false (Examples.cursor_at 0 5) in
  let c := Trackball (Examples.trackball_at Examples.camera_five) in
  fst (update (Examples.f32 1) w c) = true /\
  getCamera (snd (update (Examples.f32 1) w c)) = getCamera c.
Proof. vm_compute. split; reflexivity. Qed.

(** C3, amended.  For both variants, a [false] from [update] means the
    stored camera was not touched, and [true] means that a motion branch
    ran and stored its camera: in first person one of the six quantities
    does not compare equal to zero and the camera is the composite of
    [moveLocal], [rotateLocal] and [rotateWorld]; on the trackball a
    movement is nonzero and the camera is that of the pan (shift held),
    of the zoom (control held, horizontal movement not zero) or of the
    orbit.  ([true] does not promise that the camera differs.) *)
Theorem update_result_meaning
  {D T : Type} `{Scalar T} `{Trig T} `{Cursor D T}
  (elapsedTime : T) (w : GLFWwindow D) (c : CameraController D T) :
  (fst (update elapsedTime w c) = false ->
   getCamera (snd (update elapsedTime w c)) = getCamera c) /\
  (fst (update elapsedTime w c) = true <->
   match c with
   | FirstPerson fp => all_zero (fp_frame_motion elapsedTime w fp) = false
   | Trackball tb =>
     to_bool (tb_horizontalMovement w tb) || to_bool (tb_verticalMovement w tb)
       = true /\
     (glfwGetKey w GLFW_KEY_LEFT_SHIFT = true \/
      glfwGetKey w GLFW_KEY_LEFT_CONTROL = false \/
      (tb_horizontalMovement w tb =? s_zero)%g = false)
   end) /\
  (fst (update elapsedTime w c) = true ->
   getCamera (snd (update elapsedTime w c))
   = match c with
     | FirstPerson fp =>
       let m := fp_frame_motion elapsedTime w fp in
       rotateWorld (panLeftAngle m) (fp_worldUpAxis fp)
         (rotateLocal (rollRightAngle m) (tiltDownAngle m) s_zero
            (moveLocal (truckLeft m) (pedestalUp m) (dollyIn m) (fp_camera fp)))
     | Trackball tb =>
       let h := tb_horizontalMovement w tb in
       let v := tb_verticalMovement w tb in
       if glfwGetKey w GLFW_KEY_LEFT_SHIFT then
         moveLocal h s_zero s_zero (tb_camera tb)
       else if glfwGetKey w GLFW_KEY_LEFT_CONTROL then
         zoom (tb_worldUpAxis tb) h (tb_camera tb)
       else orbit (tb_worldUpAxis tb) h v (tb_camera tb)
     end).
Proof.
  destruct c as [c | c]; unfold update.
  - pose proof (first_person_update_result elapsedTime w c) as Hr.
    pose proof (first_person_update_camera elapsedTime w c) as Hc.
    cbv zeta in Hc.
    destruct (FirstPersonCameraController_update elapsedTime w c) as [b c'].
    cbn [fst snd getCamera] in *. rewrite Hc, Hr, fp_hasMoved_all_zero.
    destruct (all_zero (fp_frame_motion elapsedTime w c)); cbn [negb].
    + split; [reflexivity | ]. split; [ | discriminate].
      split; discriminate.
    + split; [discriminate | ]. split; [ | reflexivity].
      split; reflexivity.
  - pose proof (trackball_update_result elapsedTime w c) as Hr.
    pose proof (trackball_update_camera elapsedTime w c) as Hc.
    cbv zeta in Hr, Hc.
    destruct (TrackballCameraController_update elapsedTime w c) as [b c'].
    cbn [fst snd getCamera] in *. rewrite Hc, Hr. clear Hc Hr. cbv zeta.
    destruct (to_bool (tb_horizontalMovement w c)
              || to_bool (tb_verticalMovement w c)); cbn [negb].
    + destruct (glfwGetKey w GLFW_KEY_LEFT_SHIFT).
      * split; [discriminate | ]. split; [ | reflexivity].
        split; [intros _ | reflexivity]. split; [reflexivity | left; reflexivity].
      * destruct (glfwGetKey w GLFW_KEY_LEFT_CONTROL).
        -- destruct (tb_horizontalMovement w c =? s_zero)%g; cbn [negb].
           ++ split; [reflexivity | ]. split; [ | discriminate].
              split; [discriminate | ].
              intros [_ [Hs | [Hc | Hh]]]; discriminate.
           ++ split; [discriminate | ]. split; [ | reflexivity].
              split; [intros _ | reflexivity].
              split; [reflexivity | right; right; reflexivity].
        -- split; [discriminate | ]. split; [ | reflexivity].
           split; [intros _ | reflexivity].
           split; [reflexivity | right; left; reflexivity].
    + split; [reflexivity | ]. split; [ | discriminate].
      split; [discriminate | ]. intros [Hm _]. discriminate.
Qed.

Lemma update_result_witness :
  let idle := Examples.dragging false true (Examples.cursor_at 0 5) in
  let turning := Examples.dragging false false (Examples.cursor_at 3 4) in
  let tb := Examples.trackball_at Examples.camera_five in
  let c := Trackball tb in
  fst (update (Examples.f32 1) idle c) = false /\
  getCamera (snd (update (Examples.f32 1) idle c)) = getCamera c /\
  fst (update (Examples.f32 1) turning c) = true /\
  getCamera (snd (update (Examples.f32 1) turning c))
    = orbit (tb_worldUpAxis tb) (tb_horizontalMovement turning tb)
            (tb_verticalMovement turning tb) (tb_camera tb).
Proof.
  intros idle turning tb c.
  assert (Hf : fst (update (Examples.f32 1) idle c) = false) by reflexivity.
  assert (Ht : fst (update (Examples.f32 1) turning c) = true) by reflexivity.
  split; [exact Hf | ].
  split; [exact (proj1 (update_result_meaning (Examples.f32 1) idle c) Hf) | ].
  split; [exact Ht | ].
  exact (proj2 (proj2 (update_result_meaning (Examples.f32 1) turning c)) Ht).
Defined.

(** ** Zoom in exact arithmetic *)

Section ExactZoom.

Local Open Scope R_scope.

Lemma clamped_zoom_in (h L : R) : 0 < h -> clamped h L <= L - 1 / 10000.
Proof.
  intros Hh. unfold clamped, glm_min; cbn; unfold Rltb.
  destruct (Rlt_dec 0 h); [ | contradiction].
  destruct (Rlt_dec (L - 1 / 10000) h); lra.
Qed.

Lemma clamped_zoom_out (h L : R) : h <= 0 -> clamped h L = h.
Proof.
  intros Hh. unfold clamped, Rltb.
  destruct (Rlt_dec 0 h); [lra | reflexivity].
Qed.

Lemma clamped_below (h L : R) : 0 < L -> clamped h L < L.
Proof.
  intros HL. destruct (Rlt_dec 0 h) as [Hh | Hh].
  - pose proof (clamped_zoom_in L Hh). lra.
  - rewrite clamped_zoom_out by lra. lra.
Qed.

Lemma sqrt_pos_arg (s : R) : 0 < sqrt s -> 0 < s.
Proof.
  intros Hs. destruct (Rle_or_lt s 0) as [Hle | Hlt]; [ | exact Hlt].
  rewrite (sqrt_neg_0 s Hle) in Hs. lra.
Qed.

(** The eye moves by the clamped amount along the unit view vector and
    the center stays. *)
Lemma exact_zoom_eye_center (worldUp : vec3 R) (h : R) (cam : Camera R) :
  eye (zoom worldUp h cam)
    = vec3_add (eye cam)
        (vec3_scale (clamped h (viewLength cam))
           (vec3_div (vec3_sub (center cam) (eye cam)) (viewLength cam))) /\
  center (zoom worldUp h cam) = center cam.
Proof. split; reflexivity. Qed.

(** Away from the degenerate geometry, a zoom step shortens the view
    vector by exactly the clamped movement. *)
Lemma exact_zoom_viewLength (worldUp : vec3 R) (h : R) (cam : Camera R) :
  0 < viewLength cam ->
  viewLength (zoom worldUp h cam) = viewLength cam - clamped h (viewLength cam).
Proof.
  intros HL.
  pose proof (clamped_below h HL) as Hk.
  destruct (exact_zoom_eye_center worldUp h cam) as [He Hc].
  unfold viewLength at 1. rewrite He, Hc. clear He Hc.
  set (k := clamped h (viewLength cam)) in *.
  revert HL Hk. generalize k. clear k. intros k.
  destruct cam as [[ex ey ez] [cx cy cz] u].
  unfold viewLength, glm_length, dot, vec3_mul, vec3_sub, vec3_add, vec3_scale,
    vec3_div, center, eye; cbn.
  set (S := (cx - ex) * (cx - ex) + (cy - ey) * (cy - ey) + (cz - ez) * (cz - ez)).
  intros HL Hk.
  assert (HS : 0 < S) by (apply sqrt_pos_arg; exact HL).
  assert (HLL : sqrt S * sqrt S = S) by (apply sqrt_sqrt; lra).
  set (L := sqrt S) in *.
  replace ((cx - (ex + k * ((cx - ex) / L))) * (cx - (ex + k * ((cx - ex) / L))) +
           (cy - (ey + k * ((cy - ey) / L))) * (cy - (ey + k * ((cy - ey) / L))) +
           (cz - (ez + k * ((cz - ez) / L))) * (cz - (ez + k * ((cz - ez) / L))))
    with ((L - k) * (L - k)).
  - apply sqrt_square. lra.
  - transitivity (S * ((L - k) / L * ((L - k) / L))).
    + rewrite <- HLL. field. lra.
    + unfold S. field. lra.
Qed.

Lemma exact_zoom_positive (worldUp : vec3 R) (h : R) (cam : Camera R) :
  0 < viewLength cam -> 0 < viewLength (zoom worldUp h cam).
Proof.
  intros HL. rewrite exact_zoom_viewLength by exact HL.
  pose proof (clamped_below h HL). lra.
Qed.

(** In exact arithmetic the eye never reaches the center, however many
    zoom steps are taken. *)
Lemma exact_zoom_steps_positive (worldUp : vec3 R) (hs : list R) (cam : Camera R) :
  0 < viewLength cam -> 0 < viewLength (zoom_steps worldUp hs cam).
Proof.
  revert cam. induction hs as [ | h hs IH]; intros cam HL; [exact HL | ].
  apply (IH (zoom worldUp h cam)). apply exact_zoom_positive. exact HL.
Qed.

Lemma exact_zoom_in_keeps_off (worldUp : vec3 R) (h : R) (cam : Camera R) :
  0 < viewLength cam -> 0 < h ->
  1 / 10000 <= viewLength (zoom worldUp h cam).
Proof.
  intros HL Hh. rewrite exact_zoom_viewLength by exact HL.
  pose proof (clamped_zoom_in (viewLength cam) Hh). lra.
Qed.

Lemma exact_zoom_out_viewLength (worldUp : vec3 R) (h : R) (cam : Camera R) :
  0 < viewLength cam -> h < 0 ->
  viewLength (zoom worldUp h cam) = viewLength cam + Rabs h.
Proof.
  intros HL Hh. rewrite exact_zoom_viewLength by exact HL.
  rewrite clamped_zoom_out by lra. rewrite Rabs_left by exact Hh. lra.
Qed.

Lemma exact_zoom_out_steps (worldUp : vec3 R) (h : R) (n : nat) (cam : Camera R) :
  0 < viewLength cam -> h < 0 ->
  viewLength (zoom_steps worldUp (repeat h n) cam)
    = viewLength cam + INR n * Rabs h.
Proof.
  intros HL Hh. revert cam HL.
  induction n as [ | n IH]; intros cam HL.
  - cbn. lra.
  - cbn [repeat]. unfold zoom_steps. cbn [fold_left].
    fold (zoom_steps worldUp (repeat h n) (zoom worldUp h cam)).
    rewrite IH by (apply exact_zoom_positive; exact HL).
    rewrite exact_zoom_out_viewLength by assumption.
    rewrite S_INR. lra.
Qed.

Lemma exact_zoom_out_unbounded (worldUp : vec3 R) (h : R) (cam : Camera R) :
  0 < viewLength cam -> h < 0 ->
  forall bound : R, exists n : nat,
    bound < viewLength (zoom_steps worldUp (repeat h n) cam).
Proof.
  intros HL Hh bound.
  assert (Ha : 0 < Rabs h) by (apply Rabs_pos_lt; lra).
  destruct (INR_unbounded (Rabs bound / Rabs h)) as [n Hn].
  exists n. rewrite exact_zoom_out_steps by assumption.
  apply (Rmult_lt_compat_r (Rabs h)) in Hn; [ | exact Ha].
  unfold Rdiv in Hn. rewrite Rmult_assoc, Rinv_l, Rmult_1_r in Hn by lra.
  pose proof (Rle_abs bound). lra.
Qed.

End ExactZoom.

(** ** Rotations in exact arithmetic *)

(** [rotate_vec angle axis v] is the rotation of [v] by [angle] about the
    direction [k] of [axis], by Rodrigues' formula
    [v cos a + (k x v) sin a + k (k . v) (1 - cos a)]. *)
Lemma exact_rotate_vec_rodrigues (angle : R) (axis v : vec3 R) :
  rotate_vec angle axis v
    = vec3_add
        (vec3_add (vec3_scale (cos angle) v)
                  (vec3_scale (sin angle) (cross (normalize axis) v)))
        (vec3_scale ((1 - cos angle) * dot (normalize axis) v)%R (normalize axis)).
Proof.
  unfold rotate_vec, rotate.
  generalize (normalize axis). intros [kx ky kz]. destruct v as [vx vy vz].
  cbv [mat4_mul_vec4 mat4_identity vec4_of vec3_of vec4_add vec4_scale_r
       vec3_add vec3_scale cross dot vec3_mul
       x3 y3 z3 x4 y4 z4 w4 col0 col1 col2 col3
       s_add s_sub s_mul s_zero s_one s_cos s_sin exact exact_trig].
  f_equal; ring.
Qed.

(** ** The zoom branch of [update] *)

Lemma trackball_update_zoom
  {D T : Type} `{Scalar T} `{Trig T} `{Cursor D T}
  (elapsedTime : T) (w : GLFWwindow D) (c : TrackballCameraController D T) :
  glfwGetKey w GLFW_KEY_LEFT_SHIFT = false ->
  glfwGetKey w GLFW_KEY_LEFT_CONTROL = true ->
  (tb_horizontalMovement w c =? s_zero)%g = false ->
  fst (TrackballCameraController_update elapsedTime w c) = true /\
  tb_camera (snd (TrackballCameraController_update elapsedTime w c))
    = zoom (tb_worldUpAxis c) (tb_horizontalMovement w c) (tb_camera c).
Proof.
  intros Hshift Hctrl Hh.
  rewrite trackball_update_result, trackball_update_camera.
  rewrite Hshift, Hctrl, Hh. unfold to_bool. rewrite Hh. split; reflexivity.
Qed.

(** ** Zoom in binary32 *)

Section Binary32Zoom.

Local Open Scope glm_scope.

(** Dividing by a zero length leaves nothing finite: [v / 0] is an
    infinity or a NaN, and so is every sum and nonzero multiple of it. *)
Lemma binary32_divide_by_zero (e k v L : spec_float) :
  F32.is_zero L = true -> to_bool k = true ->
  F32.is_finite (e + k * (v / L)) = false.
Proof.
  destruct L as [sL | sL | | sL mL eL]; cbn [F32.is_zero]; try discriminate.
  intros _.
  destruct k as [sk | sk | | sk mk ek]; cbn; try discriminate; intros _;
    destruct v as [sv | sv | | sv mv ev]; cbn; try reflexivity;
    destruct e as [se | se | | se me ee]; cbn; try reflexivity;
    destruct sL, sk, sv, se; reflexivity.
Qed.

Lemma binary32_clamp_nonzero (h L : spec_float) :
  F32.is_zero L = true -> to_bool h = true ->
  to_bool (if s_zero <? h then glm_min h (L - s_lit 1 10000) else h) = true.
Proof.
  intros HL Hh. destruct (s_zero <? h); [ | exact Hh].
  unfold glm_min. destruct (_ <? h); [ | exact Hh].
  destruct L as [sL | sL | | sL mL eL]; cbn [F32.is_zero] in HL; try discriminate.
  destruct sL; vm_compute; reflexivity.
Qed.

(** With the eye on the center (or closer to it than binary32 resolves,
    so that [viewLength] computes to zero) the zoom step divides by zero:
    no component of the new eye is finite. *)
Lemma binary32_zoom_degenerate (worldUp : vec3 spec_float) (h : spec_float)
  (cam : Camera spec_float) :
  F32.is_zero (viewLength cam) = true -> to_bool h = true ->
  F32.is_finite (x3 (eye (zoom worldUp h cam))) = false /\
  F32.is_finite (y3 (eye (zoom worldUp h cam))) = false /\
  F32.is_finite (z3 (eye (zoom worldUp h cam))) = false.
Proof.
  intros HL Hh.
  pose proof (binary32_clamp_nonzero _ _ HL Hh) as Hk.
  unfold zoom, eye, center, Camera_new, vec3_add, vec3_scale, vec3_div;
    cbn [m_eye x3 y3 z3].
  fold (center cam) (eye cam). fold (viewLength cam).
  repeat split; apply binary32_divide_by_zero; assumption.
Qed.

Lemma binary32_negative_not_positive (h : spec_float) :
  (h <? s_zero) = true -> (s_zero <? h) = false.
Proof.
  destruct h as [s | s | | s m e]; cbn; try discriminate;
    destruct s; cbn; try discriminate; reflexivity.
Qed.

(** A zoom-out movement is applied as it is. *)
Lemma binary32_zoom_out_no_clamp (worldUp : vec3 spec_float) (h : spec_float)
  (cam : Camera spec_float) :
  (h <? s_zero) = true ->
  eye (zoom worldUp h cam)
    = vec3_add (eye cam)
        (vec3_scale h (vec3_div (vec3_sub (center cam) (eye cam)) (viewLength cam))) /\
  center (zoom worldUp h cam) = center cam.
Proof.
  intros Hh. apply binary32_negative_not_positive in Hh.
  unfold zoom. rewrite Hh. split; reflexivity.
Qed.

End Binary32Zoom.

(** ** C1: zooming in and the center *)

(** C1, at the failing input.  The camera looks from [(0,0,2048)] at
    [(0,0,2049)], one unit away; the zoom modifier is held and the cursor
    has moved 100 pixels to the right.  The movement 1.0 is capped to
    [1 - 1e-4f], but [2048 + (1 - 1e-4f)] rounds to 2049 in binary32: the
    step returns [true] with the eye on the center, and the next zoom
    step divides by the zero length and stores a NaN eye. *)
Theorem zoom_in_lands_on_center :
  let w := Examples.dragging false true (Examples.cursor_at 100 0) in
  let c := Examples.trackball_at Examples.camera_far_center in
  let r := TrackballCameraController_update (Examples.f32 1) w c in
  let w' := Examples.dragging false true (Examples.cursor_at 200 0) in
  let r' := TrackballCameraController_update (Examples.f32 1) w' (snd r) in
  viewLength (tb_camera c) = Examples.f32 1 /\
  fst r = true /\
  eye (tb_camera (snd r)) = center (tb_camera (snd r)) /\
  viewLength (tb_camera (snd r)) = s_zero /\
  fst r' = true /\
  eye (tb_camera (snd r')) = Vec3 S754_nan S754_nan S754_nan.
Proof. vm_compute. repeat split. Qed.

(** ** C7: the degenerate zoom geometry *)

(** C7, as stated, fails: with the eye on the center the zoom step
    divides the zero view vector by its zero length and stores an eye
    whose three components are NaN. *)
Lemma zoom_at_center_is_nan :
  let w := Examples.dragging false true (Examples.cursor_at 100 0) in
  let c := Examples.trackball_at Examples.camera_degenerate in
  let r := TrackballCameraController_update (Examples.f32 1) w c in
  viewLength (tb_camera c) = s_zero /\
  fst r = true /\
  eye (tb_camera (snd r)) = Vec3 S754_nan S754_nan S754_nan.
Proof. vm_compute. repeat split. Qed.

(** C7, amended.  The zoom step is a total function and raises nothing,
    but its clamp does not guard the division.  In binary32, whenever
    [viewLength] computes to zero, no component of the new eye is finite.
    In exact arithmetic, whenever [viewLength > 0], the eye moves by the
    clamped amount along [viewVector / viewLength] and stays at a
    positive distance from the center, at least [1e-4] after a zoom-in. *)
Theorem zoom_degenerate_geometry :
  (forall (worldUp : vec3 spec_float) (h : spec_float) (cam : Camera spec_float),
      F32.is_zero (viewLength cam) = true -> to_bool h = true ->
      F32.is_finite (x3 (eye (zoom worldUp h cam))) = false /\
      F32.is_finite (y3 (eye (zoom worldUp h cam))) = false /\
      F32.is_finite (z3 (eye (zoom worldUp h cam))) = false) /\
  (forall (worldUp : vec3 R) (h : R) (cam : Camera R),
      (0 < viewLength cam)%R ->
      eye (zoom worldUp h cam)
        = vec3_add (eye cam)
            (vec3_scale (clamped h (viewLength cam))
               (vec3_div (vec3_sub (center cam) (eye cam)) (viewLength cam))) /\
      (0 < viewLength (zoom worldUp h cam))%R /\
      ((0 < h)%R -> (1 / 10000 <= viewLength (zoom worldUp h cam))%R)).
Proof.
  split.
  - exact binary32_zoom_degenerate.
  - intros worldUp h cam HL. split; [ | split].
    + apply exact_zoom_eye_center.
    + apply exact_zoom_positive. exact HL.
    + intros Hh. apply exact_zoom_in_keeps_off; assumption.
Qed.

Lemma exact_camera_five_viewLength :
  (0 < viewLength Examples.exact_camera_five)%R.
Proof.
  unfold viewLength, glm_length, dot, vec3_mul, vec3_sub; cbn.
  apply sqrt_lt_R0. lra.
Qed.

Lemma zoom_degenerate_witness :
  (F32.is_zero (viewLength Examples.camera_degenerate) = true /\
   to_bool (Examples.f32 1) = true /\
   F32.is_finite
     (x3 (eye (zoom (Examples.fvec3 0 1 0) (Examples.f32 1)
                 Examples.camera_degenerate))) = false) /\
  ((0 < viewLength Examples.exact_camera_five)%R /\
   (0 < 1)%R /\
   (1 / 10000 <= viewLength (zoom Examples.exact_up 1%R Examples.exact_camera_five))%R).
Proof.
  destruct zoom_degenerate_geometry as [Hbinary32 Hexact].
  split.
  - assert (HL : F32.is_zero (viewLength Examples.camera_degenerate) = true)
      by reflexivity.
    assert (Hh : to_bool (Examples.f32 1) = true) by reflexivity.
    split; [exact HL | split; [exact Hh | ]].
    exact (proj1 (Hbinary32 (Examples.fvec3 0 1 0) (Examples.f32 1)
                    Examples.camera_degenerate HL Hh)).
  - pose proof exact_camera_five_viewLength as HL.
    assert (Hh : (0 < 1)%R) by lra.
    split; [exact HL | split; [exact Hh | ]].
    exact (proj2 (proj2 (Hexact Examples.exact_up 1%R
                           Examples.exact_camera_five HL)) Hh).
Defined.

(** ** C10: zooming out *)

(** C10, as stated, fails on two kinds of camera state.  Far from the
    center the step is rounded away: at distance [2^25] a movement of
    [-1] returns [true] and leaves the eye where it was, so the distance
    does not grow.  With the eye on the center there is no direction to
    move along: the new eye is NaN. *)
Lemma zoom_out_rounded_away_or_nan :
  let w := Examples.dragging false true (Examples.cursor_at (-100) 0) in
  let c := Examples.trackball_at Examples.camera_distant in
  let r := TrackballCameraController_update (Examples.f32 1) w c in
  let c0 := Examples.trackball_at Examples.camera_degenerate in
  let r0 := TrackballCameraController_update (Examples.f32 1) w c0 in
  (tb_horizontalMovement w c = Examples.f32 (-1) /\
   fst r = true /\
   eye (tb_camera (snd r)) = eye (tb_camera c) /\
   viewLength (tb_camera (snd r)) = viewLength (tb_camera c)) /\
  (tb_horizontalMovement w c0 = Examples.f32 (-1) /\
   fst r0 = true /\
   eye (tb_camera (snd r0)) = Vec3 S754_nan S754_nan S754_nan).
Proof. vm_compute. repeat split. Qed.

(** C10, amended.  A zoom-out movement ([horizontalMovement < 0]) is not
    clamped: in binary32 the new eye is computed as
    [eye + horizontalMovement * (viewVector / viewLength)] and the center
    stays.  In exact arithmetic, and with the eye off the center, that
    lengthens the view vector by exactly [|horizontalMovement|], so that
    repeated zoom-out steps take the distance beyond every bound. *)
Theorem zoom_out_step :
  (forall (worldUp : vec3 spec_float) (h : spec_float) (cam : Camera spec_float),
      (h <? s_zero)%g = true ->
      eye (zoom worldUp h cam)
        = vec3_add (eye cam)
            (vec3_scale h
               (vec3_div (vec3_sub (center cam) (eye cam)) (viewLength cam))) /\
      center (zoom worldUp h cam) = center cam) /\
  (forall (worldUp : vec3 R) (h : R) (cam : Camera R),
      (h < 0)%R -> (0 < viewLength cam)%R ->
      eye (zoom worldUp h cam)
        = vec3_add (eye cam)
            (vec3_scale h
               (vec3_div (vec3_sub (center cam) (eye cam)) (viewLength cam))) /\
      center (zoom worldUp h cam) = center cam /\
      viewLength (zoom worldUp h cam) = (viewLength cam + Rabs h)%R /\
      forall bound : R, exists n : nat,
        (bound < viewLength (zoom_steps worldUp (repeat h n) cam))%R).
Proof.
  split.
  - exact binary32_zoom_out_no_clamp.
  - intros worldUp h cam Hh HL.
    destruct (exact_zoom_eye_center worldUp h cam) as [He Hc].
    rewrite clamped_zoom_out in He by lra.
    split; [exact He | split; [exact Hc | split]].
    + apply exact_zoom_out_viewLength; assumption.
    + apply exact_zoom_out_unbounded; assumption.
Qed.

Lemma zoom_out_witness :
  ((Examples.f32 (-1) <? s_zero)%g = true /\
   center (zoom (Examples.fvec3 0 1 0) (Examples.f32 (-1)) Examples.camera_five)
     = center Examples.camera_five) /\
  ((-1 < 0)%R /\
   (0 < viewLength Examples.exact_camera_five)%R /\
   viewLength (zoom Examples.exact_up (-1)%R Examples.exact_camera_five)
     = (viewLength Examples.exact_camera_five + Rabs (-1))%R).
Proof.
  destruct zoom_out_step as [Hbinary32 Hexact].
  split.
  - assert (Hh : (Examples.f32 (-1) <? s_zero)%g = true) by reflexivity.
    split; [exact Hh | ].
    exact (proj2 (Hbinary32 (Examples.fvec3 0 1 0) (Examples.f32 (-1))
                    Examples.camera_five Hh)).
  - assert (Hh : (-1 < 0)%R) by lra.
    pose proof exact_camera_five_viewLength as HL.
    split; [exact Hh | split; [exact HL | ]].
    exact (proj1 (proj2 (proj2 (Hexact Examples.exact_up (-1)%R
                                  Examples.exact_camera_five Hh HL)))).
Defined.

(** ** Lists, loops and paths *)

Section ForEach.

Context {A B : Type}.

Variable body : A -> outcome (list B).

Lemma for_each_Done_inv (l : list A) (out : list B) :
  for_each body l = Done out ->
  exists outs, Forall2 (fun a o => body a = Done o) l outs /\ out = concat outs.
Proof.
  revert out. induction l as [ | a l IH]; intros out; cbn.
  - intros [= <-]. exists []. split; [constructor | reflexivity].
  - destruct (body a) as [o | | ] eqn:Ha; try discriminate.
    destruct (for_each body l) as [os | | ]; try discriminate.
    intros [= <-]. destruct (IH os eq_refl) as [outs [HF ->]].
    exists (o :: outs). split; [constructor; assumption | reflexivity].
Qed.

Lemma for_each_Done_intro (l : list A) (outs : list (list B)) :
  Forall2 (fun a o => body a = Done o) l outs ->
  for_each body l = Done (concat outs).
Proof.
  induction 1 as [ | a o l outs Ha _ IH]; cbn; [reflexivity | ].
  rewrite Ha, IH. reflexivity.
Qed.

Lemma for_each_total (l : list A) :
  (forall a, In a l -> exists o, body a = Done o) ->
  exists out, for_each body l = Done out.
Proof.
  induction l as [ | a l IH]; intros Hall; cbn.
  - eexists; reflexivity.
  - destruct (Hall a (or_introl eq_refl)) as [o ->].
    destruct IH as [os ->]; [intros; apply Hall; right; assumption | ].
    eexists; reflexivity.
Qed.

End ForEach.

Lemma Forall2_In_l {A B : Type} (R : A -> B -> Prop) (l : list A) (l' : list B) (a : A) :
  Forall2 R l l' -> In a l -> exists b, In b l' /\ R a b.
Proof.
  induction 1 as [ | x y l l' Hxy _ IH]; cbn; [contradiction | ].
  intros [<- | Hin].
  - exists y. split; [left; reflexivity | assumption].
  - destruct (IH Hin) as [b [Hb HR]]. exists b. split; [right | ]; assumption.
Qed.

Lemma Forall2_In_r {A B : Type} (R : A -> B -> Prop) (l : list A) (l' : list B) (b : B) :
  Forall2 R l l' -> In b l' -> exists a, In a l /\ R a b.
Proof.
  induction 1 as [ | x y l l' Hxy _ IH]; cbn; [contradiction | ].
  intros [<- | Hin].
  - exists x. split; [left; reflexivity | assumption].
  - destruct (IH Hin) as [a [Ha HR]]. exists a. split; [right | ]; assumption.
Qed.

(** Lists produced from pairwise different sources: if each is free of
    duplicates and an element common to two of them forces their sources
    to be the same, the concatenation is free of duplicates. *)
Lemma NoDup_concat_sources {A B : Type} (R : A -> list B -> Prop)
  (srcs : list A) (outs : list (list B)) :
  Forall2 R srcs outs ->
  NoDup srcs ->
  (forall a o, In a srcs -> R a o -> NoDup o) ->
  (forall a a' o o' x,
      In a srcs -> In a' srcs -> R a o -> R a' o' -> In x o -> In x o' -> a = a') ->
  NoDup (concat outs).
Proof.
  induction 1 as [ | a o srcs outs Hao HF IH]; intros Hnd Hin Hshare; cbn.
  - constructor.
  - apply NoDup_cons_iff in Hnd as [Hnotin Hnd].
    apply NoDup_app.
    + apply (Hin a); [left; reflexivity | assumption].
    + apply IH; [assumption | | ].
      * intros; apply (Hin a0); [right | ]; assumption.
      * intros a1 a2 o1 o2 x H1 H2; apply Hshare; right; assumption.
    + intros x Hx Hx'. apply in_concat in Hx' as [o' [Ho' Hxo']].
      destruct (Forall2_In_r o' HF Ho') as [a' [Ha' Ha'o']].
      apply Hnotin.
      rewrite (Hshare a a' o o' x); try assumption;
        [left; reflexivity | right; assumption].
Qed.

Lemma NoDup_flat_map_inner {A B : Type} (f : A -> list B) (l : list A) (a : A) :
  NoDup (flat_map f l) -> In a l -> NoDup (f a).
Proof.
  induction l as [ | b l IH]; cbn; [contradiction | ].
  intros Hnd [-> | Hin].
  - apply NoDup_app_remove_r in Hnd. exact Hnd.
  - apply NoDup_app_remove_l in Hnd. apply IH; assumption.
Qed.

Lemma NoDup_app_disjoint {A : Type} (l l' : list A) (x : A) :
  NoDup (l ++ l') -> In x l -> In x l' -> False.
Proof.
  induction l as [ | a l IH]; cbn; [contradiction | ].
  intros Hnd [-> | Hin] Hin'.
  - apply NoDup_cons_iff in Hnd as [Hnotin _]. apply Hnotin.
    apply in_or_app. right. assumption.
  - apply NoDup_cons_iff in Hnd as [_ Hnd]. apply IH; assumption.
Qed.

(** In a duplicate-free [flat_map], an element names the position of the
    list it came from. *)
Lemma NoDup_flat_map_position {A B : Type} (f : A -> list B) (l : list A)
  (i j : nat) (a b : A) (x : B) :
  NoDup (flat_map f l) ->
  nth_error l i = Some a -> nth_error l j = Some b ->
  In x (f a) -> In x (f b) -> i = j.
Proof.
  revert i j. induction l as [ | c l IH]; intros i j Hnd Hi Hj Ha Hb.
  - destruct i; discriminate.
  - cbn in Hnd. destruct i as [ | i], j as [ | j]; cbn in Hi, Hj.
    + reflexivity.
    + injection Hi as ->. exfalso. apply (NoDup_app_disjoint _ _ x Hnd Ha).
      apply in_flat_map. exists b. split; [ | assumption].
      apply nth_error_In with j. assumption.
    + injection Hj as ->. exfalso. apply (NoDup_app_disjoint _ _ x Hnd Hb).
      apply in_flat_map. exists a. split; [ | assumption].
      apply nth_error_In with i. assumption.
    + f_equal. apply IH; try assumption.
      apply NoDup_app_remove_l in Hnd. exact Hnd.
Qed.

Lemma vec_at_Some {A : Type} (v : list A) (i : Z) (a : A) :
  vec_at v i = Some a -> 0 <= i /\ nth_error v (Z.to_nat i) = Some a.
Proof.
  unfold vec_at. destruct (Z.ltb_spec i 0); [discriminate | ].
  intros Hn. split; [lia | exact Hn].
Qed.

Lemma vec_at_In {A : Type} (v : list A) (i : Z) (a : A) :
  vec_at v i = Some a -> In a v.
Proof.
  intros Hv. apply vec_at_Some in Hv as [_ Hn].
  apply nth_error_In with (Z.to_nat i). exact Hn.
Qed.

Lemma vec_at_in_range {A : Type} (v : list A) (i : Z) :
  in_range v i = true -> exists a, vec_at v i = Some a.
Proof.
  unfold in_range, vec_at. intros Hr.
  apply andb_true_iff in Hr as [Hlo Hhi].
  apply Z.leb_le in Hlo. apply Z.ltb_lt in Hhi.
  destruct (Z.ltb_spec i 0); [lia | ].
  destruct (nth_error v (Z.to_nat i)) as [a | ] eqn:Hn; [exists a; reflexivity | ].
  apply nth_error_None in Hn. lia.
Qed.

(** ** The traversal *)

Section Traversal.

Context {T : Type} `{Scalar T}.

Variable model : Model T.
Variable ctx : RenderContext T.
Variable viewMatrix : mat4 T.

Local Abbreviation reach := (clos_refl_trans_n1 Z (child model)).

(** What one successful call of [drawNode] looks like. *)
Lemma drawNode_Done_inv (fuel : nat) (n : Z) (P : mat4 T)
  (visits : list (NodeVisit T)) :
  drawNode model ctx viewMatrix fuel n P = Done visits ->
  exists fuel' node calls below,
    fuel = S fuel' /\
    vec_at (nodes model) n = Some node /\
    drawMesh model ctx viewMatrix node (mat4_mul P (localTransform node)) = Done calls /\
    Forall2 (fun c o => drawNode model ctx viewMatrix fuel' c
                          (mat4_mul P (localTransform node)) = Done o)
            (node_children node) below /\
    visits = MkVisit n (mat4_mul P (localTransform node)) calls :: concat below.
Proof.
  destruct fuel as [ | fuel']; cbn; [discriminate | ].
  destruct (vec_at (nodes model) n) as [node | ]; [ | discriminate].
  unfold getLocalToWorldMatrix.
  destruct (drawMesh _ _ _ _ _) as [calls | | ] eqn:Hmesh; try discriminate.
  destruct (for_each _ _) as [vs | | ] eqn:Hloop; try discriminate.
  intros [= <-]. apply for_each_Done_inv in Hloop as [below [HF ->]].
  exists fuel', node, calls, below. repeat split; assumption.
Qed.

(** Every visit lies at the end of a chain of child links, and its
    matrix is the product along that chain. *)
Lemma drawNode_sound (fuel : nat) :
  forall (n : Z) (P : mat4 T) (visits : list (NodeVisit T)),
    drawNode model ctx viewMatrix fuel n P = Done visits ->
    forall x M, In (x, M) (visited visits) -> PathTo model P n x M.
Proof.
  induction fuel as [ | fuel IH]; intros n P visits Hrun x M Hin;
    apply drawNode_Done_inv in Hrun
      as (fuel' & node & calls & below & Hfuel & Hnode & _ & Hbelow & ->);
    [discriminate | ].
  injection Hfuel as <-.
  cbn in Hin. destruct Hin as [[= <- <-] | Hin].
  - apply path_here. exact Hnode.
  - unfold visited in Hin. apply in_map_iff in Hin as [v [Hv Hin]].
    apply in_concat in Hin as [o [Ho Hvo]].
    destruct (Forall2_In_r o Hbelow Ho) as [c [Hc Hrun]].
    apply path_child with node c; try assumption.
    eapply IH; [exact Hrun | ]. unfold visited. apply in_map_iff.
    exists v. split; assumption.
Qed.

(** Every such chain ends in a visit. *)
Lemma drawNode_complete (P : mat4 T) (n x : Z) (M : mat4 T) :
  PathTo model P n x M ->
  forall (fuel : nat) (visits : list (NodeVisit T)),
    drawNode model ctx viewMatrix fuel n P = Done visits ->
    In (x, M) (visited visits).
Proof.
  induction 1 as [P n node Hnode | P n node c x M Hnode Hc _ IH];
    intros fuel visits Hrun;
    apply drawNode_Done_inv in Hrun
      as (fuel' & node' & calls & below & _ & Hnode' & _ & Hbelow & ->);
    rewrite Hnode in Hnode'; injection Hnode' as <-.
  - left. reflexivity.
  - right. destruct (Forall2_In_l c Hbelow Hc) as [o [Ho Hrun]].
    specialize (IH fuel' o Hrun).
    unfold visited in *. apply in_map_iff in IH as [v [Hv Hin]].
    apply in_map_iff. exists v. split; [assumption | ].
    apply in_concat. exists o. split; assumption.
Qed.

Lemma Forall2_Preorder (fuel : nat) (M : mat4 T) (cs : list Z)
  (below : list (list (NodeVisit T))) :
  (forall n P visits,
      drawNode model ctx viewMatrix fuel n P = Done visits ->
      Preorder model P n (visited visits)) ->
  Forall2 (fun c o => drawNode model ctx viewMatrix fuel c M = Done o) cs below ->
  Forall2 (Preorder model M) cs (map (@visited T) below).
Proof.
  intros IH. induction 1 as [ | c o cs below Hrun _ IHF]; cbn; constructor.
  - apply IH. exact Hrun.
  - exact IHF.
Qed.

(** The visits come in depth-first pre-order, children in listed order. *)
Lemma drawNode_preorder (fuel : nat) :
  forall (n : Z) (P : mat4 T) (visits : list (NodeVisit T)),
    drawNode model ctx viewMatrix fuel n P = Done visits ->
    Preorder model P n (visited visits).
Proof.
  induction fuel as [ | fuel IH]; intros n P visits Hrun;
    apply drawNode_Done_inv in Hrun
      as (fuel' & node & calls & below & Hfuel & Hnode & _ & Hbelow & ->);
    [discriminate | ].
  injection Hfuel as <-.
  unfold visited at 1. cbn [map v_node v_modelMatrix].
  fold (visited (concat below)). unfold visited at 1. rewrite concat_map.
  apply preorder_node; [exact Hnode | ].
  apply Forall2_Preorder with (fuel := fuel); assumption.
Qed.

Lemma PathTo_reach (P : mat4 T) (n x : Z) (M : mat4 T) :
  PathTo model P n x M -> reach n x.
Proof.
  intros Hp. apply clos_rt_rtn1. apply clos_rt1n_rt.
  induction Hp as [P n node Hnode | P n node c x M Hnode Hc _ IH].
  - constructor.
  - eapply Relation_Operators.rt1n_trans; [ | exact IH].
    exists node. split; assumption.
Qed.

Lemma visited_node_reach (fuel : nat) (n : Z) (P : mat4 T)
  (visits : list (NodeVisit T)) (x : Z) :
  drawNode model ctx viewMatrix fuel n P = Done visits ->
  In x (map (@v_node T) visits) -> reach n x.
Proof.
  intros Hrun Hin. apply in_map_iff in Hin as [v [<- Hv]].
  apply PathTo_reach with P (v_modelMatrix v).
  eapply drawNode_sound; [exact Hrun | ]. unfold visited. apply in_map_iff.
  exists v. split; [reflexivity | assumption].
Qed.

(** *** Termination on acyclic graphs *)

Variable rank : Z -> nat.
Hypothesis Hacyclic : acyclic_by model rank.

Lemma reach_rank (n x : Z) : reach n x -> (rank x <= rank n)%nat.
Proof.
  induction 1 as [ | p x Hchild _ IH]; [lia | ].
  apply Hacyclic in Hchild. lia.
Qed.

Lemma drawMesh_ok (node : Node T) (M : mat4 T) :
  node_ok model ctx node = true ->
  exists calls, drawMesh model ctx viewMatrix node M = Done calls.
Proof.
  unfold node_ok, drawMesh. intros Hok.
  apply andb_true_iff in Hok as [_ Hmesh].
  destruct (node_mesh node >=? 0); [ | eexists; reflexivity].
  destruct (drawMeshPrimitives model ctx (node_mesh node)); try discriminate.
  eexists; reflexivity.
Qed.

Lemma drawNode_terminates (fuel : nat) :
  forallb (node_ok model ctx) (nodes model) = true ->
  forall (n : Z) (P : mat4 T),
    in_range (nodes model) n = true -> (rank n < fuel)%nat ->
    exists visits, drawNode model ctx viewMatrix fuel n P = Done visits.
Proof.
  intros Hok. induction fuel as [ | fuel IH]; intros n P Hn Hrank; [lia | ].
  destruct (vec_at_in_range _ _ Hn) as [node Hnode].
  assert (Hnok : node_ok model ctx node = true).
  { rewrite forallb_forall in Hok. apply Hok. apply vec_at_In with n. exact Hnode. }
  cbn. rewrite Hnode. unfold getLocalToWorldMatrix.
  destruct (drawMesh_ok node (mat4_mul P (localTransform node)) Hnok) as [calls ->].
  destruct (for_each_total
              (fun c => drawNode model ctx viewMatrix fuel c
                          (mat4_mul P (localTransform node)))
              (node_children node)) as [vs ->].
  - intros c Hc. apply IH.
    + unfold node_ok in Hnok. apply andb_true_iff in Hnok as [Hch _].
      rewrite forallb_forall in Hch. apply Hch. exact Hc.
    + assert (rank c < rank n)%nat; [ | lia].
      apply Hacyclic. exists node. split; assumption.
  - eexists; reflexivity.
Qed.

(** *** Exactly once, on forests *)

Variable roots : list Z.
Hypothesis Hforest : forest model roots.

Lemma forest_one_parent (p q x : Z) : child model p x -> child model q x -> p = q.
Proof.
  intros [np [Hp Hxp]] [nq [Hq Hxq]].
  apply vec_at_Some in Hp as [Hp0 Hp]. apply vec_at_Some in Hq as [Hq0 Hq].
  apply NoDup_app_remove_l in Hforest.
  pose proof (NoDup_flat_map_position _ _ _ _ x Hforest Hp Hq Hxp Hxq) as Heq.
  apply Z2Nat.inj in Heq; assumption.
Qed.

Lemma forest_children_NoDup (p : Z) (node : Node T) :
  vec_at (nodes model) p = Some node -> NoDup (node_children node).
Proof.
  intros Hp. apply NoDup_app_remove_l in Hforest.
  apply (NoDup_flat_map_inner _ _ node Hforest). apply vec_at_In with p. exact Hp.
Qed.

Lemma forest_root_no_parent (p r : Z) : In r roots -> child model p r -> False.
Proof.
  intros Hr [node [Hp Hin]].
  apply (NoDup_app_disjoint _ _ r Hforest Hr).
  apply in_flat_map. exists node. split; [ | exact Hin].
  apply vec_at_In with p. exact Hp.
Qed.

Lemma reach_last (c x : Z) :
  reach c x -> c = x \/ exists q, child model q x /\ reach c q.
Proof.
  intros Hcx. destruct Hcx as [ | q x Hq Hcq].
  - left. reflexivity.
  - right. exists q. split; assumption.
Qed.

(** Two entry points that cannot be entered from below one another lead
    to disjoint sets of nodes. *)
Lemma reach_same_entry (entries : list Z) :
  (forall c c' p, In c entries -> In c' entries ->
                  child model p c -> reach c' p -> False) ->
  forall c x, reach c x -> In c entries ->
  forall c', In c' entries -> reach c' x -> c = c'.
Proof.
  intros Hentry c x Hcx. induction Hcx as [ | p x Hpx Hcp IH]; intros Hc c' Hc' Hc'x.
  - destruct (reach_last Hc'x) as [Heq | [q [Hq Hc'q]]]; [symmetry; exact Heq | ].
    exfalso. apply (Hentry c c' q); assumption.
  - destruct (reach_last Hc'x) as [Heq | [q [Hq Hc'q]]].
    + exfalso. subst x. apply (Hentry c' c p); assumption.
    + rewrite (forest_one_parent Hq Hpx) in Hc'q. apply IH; assumption.
Qed.

Lemma drawNode_NoDup (fuel : nat) :
  forall (n : Z) (P : mat4 T) (visits : list (NodeVisit T)),
    drawNode model ctx viewMatrix fuel n P = Done visits ->
    NoDup (map (@v_node T) visits).
Proof.
  induction fuel as [ | fuel IH]; intros n P visits Hrun;
    pose proof Hrun as Hrun';
    apply drawNode_Done_inv in Hrun'
      as (fuel' & node & calls & below & Hfuel & Hnode & _ & Hbelow & ->);
    [discriminate | ].
  injection Hfuel as <-.
  cbn [map v_node]. rewrite concat_map.
  assert (Hsub : forall c o x,
             In c (node_children node) ->
             drawNode model ctx viewMatrix fuel c
               (mat4_mul P (localTransform node)) = Done o ->
             In x (map (@v_node T) o) -> reach c x).
  { intros c o x _ Hc Hx. eapply visited_node_reach; eassumption. }
  assert (Hchild : forall c, In c (node_children node) -> child model n c).
  { intros c Hc. exists node. split; assumption. }
  constructor.
  - intros Hin. apply in_concat in Hin as [o' [Ho' Hn]].
    apply in_map_iff in Ho' as [o [<- Ho]].
    destruct (Forall2_In_r o Hbelow Ho) as [c [Hc Hc_run]].
    pose proof (reach_rank (Hsub c o n Hc Hc_run Hn)).
    pose proof (Hacyclic (Hchild c Hc)). lia.
  - apply NoDup_concat_sources
      with (R := fun c o' => exists o,
                     drawNode model ctx viewMatrix fuel c
                       (mat4_mul P (localTransform node)) = Done o /\
                     o' = map (@v_node T) o)
           (srcs := node_children node).
    + clear - Hbelow. induction Hbelow as [ | c o cs below Hc _ IHF]; cbn;
        constructor; [exists o; split; [assumption | reflexivity] | assumption].
    + apply forest_children_NoDup with n. exact Hnode.
    + intros c o' _ [o [Hc ->]]. eapply IH; exact Hc.
    + intros c c' o1 o2 x Hc Hc' [o [Hrun1 ->]] [o' [Hrun2 ->]] Hx Hx'.
      apply reach_same_entry with (entries := node_children node) (x := x);
        try assumption.
      * intros c1 c2 p Hc1 Hc2 Hp Hreach.
        rewrite (forest_one_parent Hp (Hchild c1 Hc1)) in Hreach.
        pose proof (reach_rank Hreach). pose proof (Hacyclic (Hchild c2 Hc2)). lia.
      * apply (Hsub c o x Hc Hrun1 Hx).
      * apply (Hsub c' o' x Hc' Hrun2 Hx').
Qed.

End Traversal.

(** ** C2: one frame's traversal *)

Lemma drawRoots_scene {T : Type} `{Scalar T} (model : Model T)
  (ctx : RenderContext T) (viewMatrix : mat4 T) (scene : Scene) (fuel : nat) :
  vec_at (scenes model) (defaultScene model) = Some scene ->
  drawRoots model ctx viewMatrix fuel
    = for_each (fun nodeIdx => drawNode model ctx viewMatrix fuel nodeIdx mat4_identity)
               (scene_nodes scene).
Proof.
  intros Hscene. unfold drawRoots. rewrite Hscene.
  apply vec_at_Some in Hscene as [Hge _].
  destruct (Z.geb_spec (defaultScene model) 0); [reflexivity | lia].
Qed.

(** C2, as stated, fails: in an acyclic graph whose two roots list the
    same child, that child is drawn twice in one frame. *)
Lemma shared_child_drawn_twice :
  acyclic_by Examples.shared_child Examples.rank_shared /\
  exists visits,
    drawRoots Examples.shared_child (Examples.context false) mat4_identity 2
      = Done visits /\
    map (@v_node spec_float) visits = [0; 2; 1; 2].
Proof.
  split.
  - intros p n [node [Hp Hin]].
    apply vec_at_Some in Hp as [Hp0 Hnth].
    destruct (Z.to_nat p) as [ | [ | [ | k]]] eqn:Hk; cbn in Hnth;
      try (destruct k; discriminate);
      injection Hnth as <-; cbn in Hin;
      first [contradiction | destruct Hin as [<- | Hin]; [ | contradiction]];
      assert (Hpv : p = Z.of_nat (Z.to_nat p)) by lia;
      rewrite Hk in Hpv; subst p; cbn; lia.
  - eexists. split; [vm_compute; reflexivity | reflexivity].
Qed.

(** C2, amended.  On an acyclic scene graph whose indices are in range,
    one frame's traversal returns, given recursion depth beyond the rank
    of the roots.  It visits the nodes in depth-first pre-order, children
    in listed order, each root started with the identity as parent
    transform.  There is one visit for every chain of child links from a
    root, carrying the product of [parentTransform * localTransform]
    along that chain; so every reachable node is visited at least once,
    and exactly once when no node is listed twice among the roots and the
    children lists. *)
Theorem traversal_visits_paths {T : Type} `{Scalar T} (model : Model T)
  (ctx : RenderContext T) (viewMatrix : mat4 T) (rank : Z -> nat)
  (scene : Scene) (fuel : nat) :
  vec_at (scenes model) (defaultScene model) = Some scene ->
  scene_ok model ctx (scene_nodes scene) = true ->
  acyclic_by model rank ->
  (forall r, In r (scene_nodes scene) -> (rank r < fuel)%nat) ->
  exists visits,
    drawRoots model ctx viewMatrix fuel = Done visits /\
    (exists below,
        Forall2 (Preorder model mat4_identity) (scene_nodes scene) below /\
        visited visits = concat below) /\
    (forall x M,
        In (x, M) (visited visits) <->
        exists r, In r (scene_nodes scene) /\ PathTo model mat4_identity r x M) /\
    (forest model (scene_nodes scene) -> NoDup (map (@v_node T) visits)).
Proof.
  intros Hscene Hok Hacyclic Hfuel.
  unfold scene_ok in Hok. apply andb_true_iff in Hok as [Hroots Hnodes].
  rewrite forallb_forall in Hroots.
  rewrite (drawRoots_scene _ _ _ _ Hscene).
  destruct (for_each_total
              (fun r => drawNode model ctx viewMatrix fuel r mat4_identity)
              (scene_nodes scene)) as [visits Hrun].
  { intros r Hr. eapply drawNode_terminates; eauto. }
  exists visits. split; [exact Hrun | ].
  apply for_each_Done_inv in Hrun as [outs [Houts ->]].
  split; [ | split].
  - exists (map (@visited T) outs). split.
    + eapply Forall2_Preorder; [ | exact Houts].
      intros n P vs Hn. eapply drawNode_preorder. exact Hn.
    + unfold visited at 1. rewrite concat_map. reflexivity.
  - intros x M. split.
    + intros Hin. unfold visited in Hin. apply in_map_iff in Hin as [v [Hv Hin]].
      apply in_concat in Hin as [o [Ho Hvo]].
      destruct (Forall2_In_r o Houts Ho) as [r [Hr Hrun]].
      exists r. split; [exact Hr | ].
      eapply drawNode_sound; [exact Hrun | ].
      unfold visited. apply in_map_iff. exists v. split; assumption.
    + intros [r [Hr Hpath]].
      destruct (Forall2_In_l r Houts Hr) as [o [Ho Hrun]].
      pose proof (drawNode_complete ctx viewMatrix Hpath _ Hrun) as Hin.
      unfold visited in *. apply in_map_iff in Hin as [v [Hv Hin]].
      apply in_map_iff. exists v. split; [assumption | ].
      apply in_concat. exists o. split; assumption.
  - intros Hforest. rewrite concat_map.
    apply NoDup_concat_sources
      with (R := fun r o' => exists o,
                     drawNode model ctx viewMatrix fuel r mat4_identity = Done o /\
                     o' = map (@v_node T) o)
           (srcs := scene_nodes scene).
    + clear - Houts. induction Houts as [ | r o rs outs Hr _ IHF]; cbn;
        constructor; [exists o; split; [assumption | reflexivity] | assumption].
    + unfold forest in Hforest. apply NoDup_app_remove_r in Hforest. exact Hforest.
    + intros r o' _ [o [Hr ->]]. eapply drawNode_NoDup; eassumption.
    + intros r r' o1 o2 x Hr Hr' [o [Hrun1 ->]] [o' [Hrun2 ->]] Hx Hx'.
      eapply reach_same_entry with (entries := scene_nodes scene) (x := x);
        try eassumption.
      * intros c c' p Hc _ Hp _. eapply forest_root_no_parent; eassumption.
      * eapply visited_node_reach; eassumption.
      * eapply visited_node_reach; eassumption.
Qed.

Lemma nested_translations_acyclic :
  acyclic_by Examples.nested_translations Examples.rank_nested.
Proof.
  intros p n [node [Hp Hin]].
  apply vec_at_Some in Hp as [Hp0 Hnth].
  destruct (Z.to_nat p) as [ | [ | [ | k]]] eqn:Hk; cbn in Hnth;
    try (destruct k; discriminate);
    injection Hnth as <-; cbn in Hin;
    first [contradiction | destruct Hin as [<- | Hin]; [ | contradiction]];
    assert (Hpv : p = Z.of_nat (Z.to_nat p)) by lia;
    rewrite Hk in Hpv; subst p; cbn; lia.
Qed.

(** The specification's test: nested under translations by [(1,0,0)] and
    [(0,1,0)], the node translating by [(0,0,1)] gets the world transform
    that translates by [(1,1,1)]. *)
Lemma nested_translations_world_transform :
  exists visits,
    drawRoots Examples.nested_translations (Examples.context false) mat4_identity 3
      = Done visits /\
    visited visits
      = [(0, translation_matrix (Examples.fvec3 1 0 0));
         (1, translation_matrix (Examples.fvec3 1 1 0));
         (2, translation_matrix (Examples.fvec3 1 1 1))].
Proof. eexists. split; vm_compute; reflexivity. Qed.

Lemma traversal_witness :
  let model := Examples.nested_translations in
  let ctx := Examples.context false in
  vec_at (scenes model) (defaultScene model) = Some (MkScene [0]) /\
  scene_ok model ctx [0] = true /\
  acyclic_by model Examples.rank_nested /\
  (forall r, In r [0] -> (Examples.rank_nested r < 3)%nat) /\
  exists visits,
    drawRoots model ctx mat4_identity 3 = Done visits /\
    (forall x M,
        In (x, M) (visited visits) <->
        exists r, In r [0] /\ PathTo model mat4_identity r x M) /\
    (forest model [0] -> NoDup (map (@v_node spec_float) visits)).
Proof.
  intros model ctx.
  assert (Hscene : vec_at (scenes model) (defaultScene model) = Some (MkScene [0]))
    by reflexivity.
  assert (Hok : scene_ok model ctx [0] = true) by reflexivity.
  assert (Hfuel : forall r, In r [0] -> (Examples.rank_nested r < 3)%nat).
  { intros r [<- | []]. cbn. lia. }
  split; [exact Hscene | ]. split; [exact Hok | ].
  split; [exact nested_translations_acyclic | ]. split; [exact Hfuel | ].
  destruct (@traversal_visits_paths _ _ model ctx mat4_identity
              Examples.rank_nested (MkScene [0]) 3
              Hscene Hok nested_translations_acyclic Hfuel)
    as [visits [Hrun [_ [Hpaths Honce]]]].
  exists visits. split; [exact Hrun | ]. split; [exact Hpaths | exact Honce].
Defined.

(** ** C6: the draw call of a primitive *)

Lemma GLsizei_exact (n : Z) : 0 <= n < 2 ^ 31 -> GLsizei n = n.
Proof. intros Hn. unfold GLsizei. rewrite Z.mod_small; lia. Qed.

Lemma size_t_add_exact (a b : Z) :
  0 <= a -> 0 <= b -> a + b < 2 ^ 64 -> size_t_add a b = a + b.
Proof. intros Ha Hb Hab. unfold size_t_add. apply Z.mod_small. lia. Qed.

(** The primitive loop draws the primitives of the mesh one after the
    other, from the index it starts at. *)
Lemma drawPrimitives_each {T : Type} (model : Model T) (ctx : RenderContext T)
  (vaoRange : VaoRange) (primitives : list Primitive) :
  forall (pIdx : Z) (out : list (GLCall T)),
    drawPrimitives model ctx vaoRange pIdx primitives = Done out ->
    exists outs,
      out = concat outs /\
      List.length outs = List.length primitives /\
      forall i primitive,
        nth_error primitives i = Some primitive ->
        exists o,
          nth_error outs i = Some o /\
          drawPrimitive model ctx vaoRange (pIdx + Z.of_nat i) primitive = Done o.
Proof.
  induction primitives as [ | p ps IH]; intros pIdx out; cbn.
  - intros [= <-]. exists []. repeat split. intros [ | i] q; discriminate.
  - destruct (drawPrimitive model ctx vaoRange pIdx p) as [o | | ] eqn:Hp;
      try discriminate.
    destruct (drawPrimitives model ctx vaoRange (pIdx + 1) ps) as [os | | ] eqn:Hps;
      try discriminate.
    intros [= <-]. destruct (IH _ _ Hps) as [outs [-> [Hlen Heach]]].
    exists (o :: outs). split; [reflexivity | ]. split; [cbn; lia | ].
    intros [ | i] q; cbn.
    + intros [= <-]. exists o. rewrite Z.add_0_r. split; [reflexivity | exact Hp].
    + intros Hq. destruct (Heach i q Hq) as [oi [Hoi Hdraw]].
      exists oi. split; [exact Hoi | ].
      replace (pIdx + Z.pos (Pos.of_succ_nat i)) with (pIdx + 1 + Z.of_nat i) by lia.
      exact Hdraw.
Qed.

Lemma GLenum_exact (n : Z) : 0 <= n < 2 ^ 32 -> GLenum n = n.
Proof. intros Hn. unfold GLenum. apply Z.mod_small. exact Hn. Qed.

(** One pass of the loop body issues the bind and one draw. *)
Lemma drawPrimitive_calls {T : Type} (model : Model T) (ctx : RenderContext T)
  (vaoRange : VaoRange) (pIdx : Z) (primitive : Primitive) (o : list (GLCall T)) :
  drawPrimitive model ctx vaoRange pIdx primitive = Done o ->
  exists vao draw,
    vec_at (vertexArrayObjects ctx) (vao_begin vaoRange + pIdx) = Some vao /\
    o = [glBindVertexArray vao; draw] /\
    if prim_indices primitive >=? 0 then
      exists accessor bufferView,
        vec_at (accessors model) (prim_indices primitive) = Some accessor /\
        vec_at (bufferViews model) (acc_bufferView accessor) = Some bufferView /\
        draw = glDrawElements (GLenum (prim_mode primitive))
                 (GLsizei (acc_count accessor))
                 (GLenum (acc_componentType accessor))
                 (size_t_add (acc_byteOffset accessor) (bv_byteOffset bufferView))
    else
      exists name accessorIdx others accessor,
        prim_attributes primitive = (name, accessorIdx) :: others /\
        vec_at (accessors model) accessorIdx = Some accessor /\
        draw = glDrawArrays (GLenum (prim_mode primitive)) 0
                 (GLsizei (acc_count accessor)).
Proof.
  unfold drawPrimitive.
  destruct (vec_at (vertexArrayObjects ctx) (vao_begin vaoRange + pIdx)) as [vao | ];
    [ | discriminate].
  destruct (prim_indices primitive >=? 0).
  - destruct (vec_at (accessors model) (prim_indices primitive)) as [accessor | ] eqn:Hacc;
      [ | discriminate].
    destruct (vec_at (bufferViews model) (acc_bufferView accessor)) as [bufferView | ] eqn:Hbv;
      [ | discriminate].
    intros [= <-]. exists vao. eexists. split; [reflexivity | ].
    split; [reflexivity | ]. exists accessor, bufferView.
    split; [reflexivity | ]. split; [exact Hbv | reflexivity].
  - destruct (prim_attributes primitive) as [ | [name accessorIdx] others];
      [discriminate | ].
    destruct (vec_at (accessors model) accessorIdx) as [accessor | ] eqn:Hacc;
      [ | discriminate].
    intros [= <-]. exists vao. eexists. split; [reflexivity | ].
    split; [reflexivity | ]. exists name, accessorIdx, others, accessor.
    split; [reflexivity | ]. split; [exact Hacc | reflexivity].
Qed.

Lemma nth_error_concat_pairs {A : Type} (outs : list (list A)) :
  (forall o, In o outs -> List.length o = 2%nat) ->
  List.length (concat outs) = (2 * List.length outs)%nat /\
  forall i o a b,
    nth_error outs i = Some o -> o = [a; b] ->
    nth_error (concat outs) (2 * i) = Some a /\
    nth_error (concat outs) (2 * i + 1) = Some b.
Proof.
  induction outs as [ | o' outs IH]; intros Hlen.
  - split; [reflexivity | ]. intros [ | i] o a b; discriminate.
  - destruct IH as [IHlen IHnth].
    { intros o Ho. apply Hlen. right. exact Ho. }
    assert (Ho' : List.length o' = 2%nat) by (apply Hlen; left; reflexivity).
    destruct o' as [ | a' [ | b' [ | ? ?]]]; try discriminate.
    split; [cbn [concat app List.length]; lia | ].
    intros [ | i] o a b Hnth Ho.
    + injection Hnth as <-. injection Ho as <- <-. split; reflexivity.
    + cbn [nth_error] in Hnth. destruct (IHnth i o a b Hnth Ho) as [Ha Hb].
      replace (2 * S i)%nat with (S (S (2 * i))) by lia.
      replace (S (S (2 * i)) + 1)%nat with (S (S (2 * i + 1))) by lia.
      split; [exact Ha | exact Hb].
Qed.

(** C6.  The primitive loop of a mesh that runs to its end issues, for
    the primitive at position [i], the bind of its vertex array as call
    [2 i] and its draw as call [2 i + 1], and nothing else.  With an
    index accessor ([indices >= 0]) the draw is [glDrawElements], its
    count and component type those of that accessor and its offset the
    accessor's byte offset plus its buffer view's; without one it is
    [glDrawArrays] from 0, its count that of the accessor of the first
    attribute.  The mode and the component type are converted to
    [GLenum], the count to [GLsizei] and the sum is a [size_t] sum; every
    one of these is exact for values within range. *)
Theorem drawPrimitive_parameters {T : Type} (model : Model T)
  (ctx : RenderContext T) (meshIdx : Z) (mesh : Mesh) (vaoRange : VaoRange)
  (calls : list (GLCall T)) :
  vec_at (meshes model) meshIdx = Some mesh ->
  vec_at (meshToVertexArrays ctx) meshIdx = Some vaoRange ->
  drawMeshPrimitives model ctx meshIdx = Done calls ->
  List.length calls = (2 * List.length (mesh_primitives mesh))%nat /\
  (forall i primitive,
      nth_error (mesh_primitives mesh) i = Some primitive ->
      exists vao,
        vec_at (vertexArrayObjects ctx) (vao_begin vaoRange + Z.of_nat i) = Some vao /\
        nth_error calls (2 * i) = Some (glBindVertexArray vao) /\
        if prim_indices primitive >=? 0 then
          exists accessor bufferView,
            vec_at (accessors model) (prim_indices primitive) = Some accessor /\
            vec_at (bufferViews model) (acc_bufferView accessor) = Some bufferView /\
            nth_error calls (2 * i + 1)
              = Some (glDrawElements (GLenum (prim_mode primitive))
                        (GLsizei (acc_count accessor))
                        (GLenum (acc_componentType accessor))
                        (size_t_add (acc_byteOffset accessor)
                                    (bv_byteOffset bufferView)))
        else
          exists name accessorIdx others accessor,
            prim_attributes primitive = (name, accessorIdx) :: others /\
            vec_at (accessors model) accessorIdx = Some accessor /\
            nth_error calls (2 * i + 1)
              = Some (glDrawArrays (GLenum (prim_mode primitive)) 0
                        (GLsizei (acc_count accessor)))) /\
  (forall n, 0 <= n < 2 ^ 32 -> GLenum n = n) /\
  (forall n, 0 <= n < 2 ^ 31 -> GLsizei n = n) /\
  (forall a b, 0 <= a -> 0 <= b -> a + b < 2 ^ 64 -> size_t_add a b = a + b).
Proof.
  intros Hmesh Hrange Hrun. unfold drawMeshPrimitives in Hrun.
  rewrite Hmesh, Hrange in Hrun.
  apply drawPrimitives_each in Hrun as [outs [-> [Hlen Heach]]].
  assert (Hpairs : forall o, In o outs -> List.length o = 2%nat).
  { intros o Ho. apply In_nth_error in Ho as [i Hi].
    assert (Hsome : nth_error (mesh_primitives mesh) i <> None).
    { apply nth_error_Some. rewrite <- Hlen. apply nth_error_Some. congruence. }
    destruct (nth_error (mesh_primitives mesh) i) as [primitive | ] eqn:Hp;
      [ | congruence].
    destruct (Heach i primitive Hp) as [o' [Ho' Hdraw]].
    rewrite Hi in Ho'. injection Ho' as <-.
    apply drawPrimitive_calls in Hdraw as (vao & draw & _ & -> & _). reflexivity. }
  destruct (nth_error_concat_pairs outs Hpairs) as [Hcount Hnth].
  split; [rewrite Hcount, Hlen; reflexivity | ].
  split; [ | split; [exact GLenum_exact | split;
                     [exact GLsizei_exact | exact size_t_add_exact]]].
  intros i primitive Hp.
  destruct (Heach i primitive Hp) as [o [Ho Hdraw]].
  rewrite Z.add_0_l in Hdraw.
  apply drawPrimitive_calls in Hdraw as (vao & draw & Hvao & -> & Hkind).
  destruct (Hnth i _ _ _ Ho eq_refl) as [Hbind Hcall].
  exists vao. split; [exact Hvao | ]. split; [exact Hbind | ].
  destruct (prim_indices primitive >=? 0).
  - destruct Hkind as (accessor & bufferView & Hacc & Hbv & ->).
    exists accessor, bufferView. repeat split; assumption.
  - destruct Hkind as (name & accessorIdx & others & accessor & Hattr & Hacc & ->).
    exists name, accessorIdx, others, accessor. repeat split; assumption.
Qed.

Lemma drawPrimitive_witness :
  let model := Examples.two_primitives in
  let ctx := Examples.context false in
  let indexed := MkPrimitive [("POSITION"%string, 1)] 0 4 in
  let plain := MkPrimitive [("POSITION"%string, 1)] (-1) 4 in
  let calls : list (GLCall spec_float) :=
    [glBindVertexArray 7; glDrawElements 4 36 5123 104;
     glBindVertexArray 8; glDrawArrays 4 0 24] in
  vec_at (meshes model) 0 = Some (MkMesh [indexed; plain]) /\
  vec_at (meshToVertexArrays ctx) 0 = Some (MkVaoRange 0 2) /\
  drawMeshPrimitives model ctx 0 = Done calls /\
  List.length calls = 4%nat /\
  (exists accessor bufferView,
      vec_at (accessors model) (prim_indices indexed) = Some accessor /\
      vec_at (bufferViews model) (acc_bufferView accessor) = Some bufferView /\
      nth_error calls 1
        = Some (glDrawElements (GLenum (prim_mode indexed))
                  (GLsizei (acc_count accessor))
                  (GLenum (acc_componentType accessor))
                  (size_t_add (acc_byteOffset accessor)
                              (bv_byteOffset bufferView)))) /\
  (exists name accessorIdx others accessor,
      prim_attributes plain = (name, accessorIdx) :: others /\
      vec_at (accessors model) accessorIdx = Some accessor /\
      nth_error calls 3
        = Some (glDrawArrays (GLenum (prim_mode plain)) 0
                  (GLsizei (acc_count accessor)))).
Proof.
  intros model ctx indexed plain calls.
  assert (Hmesh : vec_at (meshes model) 0 = Some (MkMesh [indexed; plain]))
    by reflexivity.
  assert (Hrange : vec_at (meshToVertexArrays ctx) 0 = Some (MkVaoRange 0 2))
    by reflexivity.
  assert (Hrun : drawMeshPrimitives model ctx 0 = Done calls) by reflexivity.
  destruct (@drawPrimitive_parameters _ model ctx 0 _ _ _ Hmesh Hrange Hrun)
    as (Hcount & Heach & _).
  split; [exact Hmesh | ]. split; [exact Hrange | ]. split; [exact Hrun | ].
  split; [exact Hcount | ]. split.
  - destruct (Heach 0%nat indexed eq_refl) as (vao & _ & _ & Hdraw).
    exact Hdraw.
  - destruct (Heach 1%nat plain eq_refl) as (vao & _ & _ & Hdraw).
    exact Hdraw.
Defined.

(** * Further properties of the controllers *)

Section CursorFacts.

Context {D T : Type} `{Scalar T} `{Trig T} `{Cursor D T}.

(** The cursor delta of a frame in closed form: with the button up it is
    zero; with the button down it is the cursor position minus the stored
    one, the stored one being the cursor position itself on the frame the
    button goes down. *)
Lemma cursorDelta_closed_form (button : MouseButton) (w : GLFWwindow D)
  (pressed : bool) (last : vec2 D) :
  cursorDelta button w pressed last
    = if glfwGetMouseButton w button then
        (dvec2_sub (glfwGetCursorPos w)
                   (if pressed then last else glfwGetCursorPos w),
         (true, glfwGetCursorPos w))
      else (Vec2 d_zero d_zero, (false, last)).
Proof.
  unfold cursorDelta.
  destruct (glfwGetMouseButton w button), pressed; reflexivity.
Qed.

Lemma first_person_update_state (elapsedTime : T) (w : GLFWwindow D)
  (c : FirstPersonCameraController D T) :
  fp_LeftButtonPressed (snd (FirstPersonCameraController_update elapsedTime w c))
    = fst (snd (cursorDelta GLFW_MOUSE_BUTTON_LEFT w
                  (fp_LeftButtonPressed c) (fp_LastCursorPosition c))) /\
  fp_LastCursorPosition (snd (FirstPersonCameraController_update elapsedTime w c))
    = snd (snd (cursorDelta GLFW_MOUSE_BUTTON_LEFT w
                  (fp_LeftButtonPressed c) (fp_LastCursorPosition c))).
Proof.
  unfold FirstPersonCameraController_update.
  destruct (cursorDelta _ _ _ _) as [delta [pressed last]]; cbn [fst snd].
  destruct (negb _); split; reflexivity.
Qed.

Lemma trackball_update_state (elapsedTime : T) (w : GLFWwindow D)
  (c : TrackballCameraController D T) :
  tb_MiddleButtonPressed (snd (TrackballCameraController_update elapsedTime w c))
    = fst (snd (cursorDelta GLFW_MOUSE_BUTTON_MIDDLE w
                  (tb_MiddleButtonPressed c) (tb_LastCursorPosition c))) /\
  tb_LastCursorPosition (snd (TrackballCameraController_update elapsedTime w c))
    = snd (snd (cursorDelta GLFW_MOUSE_BUTTON_MIDDLE w
                  (tb_MiddleButtonPressed c) (tb_LastCursorPosition c))).
Proof.
  unfold TrackballCameraController_update.
  destruct (cursorDelta _ _ _ _) as [delta [pressed last]]; cbn [fst snd].
  repeat match goal with
         | |- context [if ?b then _ else _] => destruct b
         end; split; reflexivity.
Qed.

(** X1.  After every [update], of either controller and whatever it
    returned, the pressed flag equals the state of the controller's mouse
    button, and the stored cursor position is the current one if the
    button is down and the old one otherwise. *)
Theorem pressed_flag_tracks_button (elapsedTime : T) (w : GLFWwindow D)
  (fp : FirstPersonCameraController D T) (tb : TrackballCameraController D T) :
  fp_LeftButtonPressed (snd (FirstPersonCameraController_update elapsedTime w fp))
    = glfwGetMouseButton w GLFW_MOUSE_BUTTON_LEFT /\
  fp_LastCursorPosition (snd (FirstPersonCameraController_update elapsedTime w fp))
    = (if glfwGetMouseButton w GLFW_MOUSE_BUTTON_LEFT then glfwGetCursorPos w
       else fp_LastCursorPosition fp) /\
  tb_MiddleButtonPressed (snd (TrackballCameraController_update elapsedTime w tb))
    = glfwGetMouseButton w GLFW_MOUSE_BUTTON_MIDDLE /\
  tb_LastCursorPosition (snd (TrackballCameraController_update elapsedTime w tb))
    = (if glfwGetMouseButton w GLFW_MOUSE_BUTTON_MIDDLE then glfwGetCursorPos w
       else tb_LastCursorPosition tb).
Proof.
  destruct (first_person_update_state elapsedTime w fp) as [-> ->].
  destruct (trackball_update_state elapsedTime w tb) as [-> ->].
  rewrite !cursorDelta_closed_form.
  destruct (glfwGetMouseButton w GLFW_MOUSE_BUTTON_LEFT),
    (glfwGetMouseButton w GLFW_MOUSE_BUTTON_MIDDLE); repeat split.
Qed.

End CursorFacts.

(** ** Frames without a drag, in binary32 *)

Lemma SFsub_diag (prec emax : Z) (x : spec_float) :
  F32.is_finite x = true -> SFsub prec emax x x = S754_zero false.
Proof.
  destruct x as [s | s | | s m e]; cbn [F32.is_finite]; try discriminate; intros _.
  - destruct s; reflexivity.
  - unfold SFsub. rewrite Z.sub_diag. reflexivity.
Qed.

Lemma double_sub_diag (x : double) :
  double_is_finite x = true -> d_sub x x = Double (S754_zero false).
Proof.
  intros Hx. cbn. f_equal. apply SFsub_diag. exact Hx.
Qed.

Lemma zero_delta_no_pan (d : double) :
  double_is_zero d = true ->
  to_bool ((- s_lit 1 100) * d_to_float d)%g = false.
Proof.
  destruct d as [[s | s | | s m e]]; cbn; try discriminate.
  intros _. destruct s; vm_compute; reflexivity.
Qed.

(** X2.  While the middle button is up, the trackball [update] returns
    [false] and leaves the camera alone, whatever the cursor does and
    whichever keys are held. *)
Theorem trackball_button_up_no_update
  (libm : Trig spec_float) (elapsedTime : spec_float) (w : GLFWwindow double)
  (c : TrackballCameraController double spec_float) :
  glfwGetMouseButton w GLFW_MOUSE_BUTTON_MIDDLE = false ->
  fst (TrackballCameraController_update elapsedTime w c) = false /\
  tb_camera (snd (TrackballCameraController_update elapsedTime w c)) = tb_camera c.
Proof.
  intros Hup.
  rewrite trackball_update_result, trackball_update_camera.
  unfold tb_horizontalMovement, tb_verticalMovement, tb_cursorDelta.
  rewrite cursorDelta_closed_form, Hup. cbn [fst x2 y2].
  rewrite !zero_delta_no_movement by reflexivity.
  split; reflexivity.
Qed.

Lemma trackball_button_up_witness :
  let w := MkWindow (fun _ => false) (Examples.cursor_at 640 480) (fun _ => true) in
  let c := Examples.trackball_at Examples.camera_five in
  glfwGetMouseButton w GLFW_MOUSE_BUTTON_MIDDLE = false /\
  fst (TrackballCameraController_update (Examples.f32 1) w c) = false /\
  tb_camera (snd (TrackballCameraController_update (Examples.f32 1) w c)) = tb_camera c.
Proof.
  intros w c.
  assert (Hup : glfwGetMouseButton w GLFW_MOUSE_BUTTON_MIDDLE = false) by reflexivity.
  split; [exact Hup | ].
  exact (trackball_button_up_no_update Examples.series_trig (Examples.f32 1) w c Hup).
Defined.

(** X3.  On the frame a drag button goes down the cursor is only
    recorded: wherever it is (any finite position), and wherever it was
    recorded last, the trackball [update] returns [false] with the camera
    untouched, and the first-person pan and tilt angles are zero. *)
Theorem press_frame_no_jump
  (libm : Trig spec_float) (elapsedTime : spec_float) (w : GLFWwindow double)
  (tb : TrackballCameraController double spec_float)
  (fp : FirstPersonCameraController double spec_float) :
  double_is_finite (x2 (glfwGetCursorPos w)) = true ->
  double_is_finite (y2 (glfwGetCursorPos w)) = true ->
  (glfwGetMouseButton w GLFW_MOUSE_BUTTON_MIDDLE = true ->
   tb_MiddleButtonPressed tb = false ->
   fst (TrackballCameraController_update elapsedTime w tb) = false /\
   tb_camera (snd (TrackballCameraController_update elapsedTime w tb)) = tb_camera tb) /\
  (glfwGetMouseButton w GLFW_MOUSE_BUTTON_LEFT = true ->
   fp_LeftButtonPressed fp = false ->
   to_bool (panLeftAngle (fp_frame_motion elapsedTime w fp)) = false /\
   to_bool (tiltDownAngle (fp_frame_motion elapsedTime w fp)) = false).
Proof.
  intros Hx Hy. split; intros Hdown Hwas.
  - rewrite trackball_update_result, trackball_update_camera.
    unfold tb_horizontalMovement, tb_verticalMovement, tb_cursorDelta.
    rewrite cursorDelta_closed_form, Hdown, Hwas. cbn [fst].
    unfold dvec2_sub. cbn [x2 y2].
    rewrite (double_sub_diag _ Hx), (double_sub_diag _ Hy).
    rewrite !zero_delta_no_movement by reflexivity.
    split; reflexivity.
  - unfold fp_frame_motion.
    rewrite cursorDelta_closed_form, Hdown, Hwas. cbn [fst].
    unfold dvec2_sub, fp_motion. cbn [x2 y2 panLeftAngle tiltDownAngle].
    rewrite (double_sub_diag _ Hx), (double_sub_diag _ Hy).
    split; [apply zero_delta_no_pan | apply zero_delta_no_movement]; reflexivity.
Qed.

Lemma press_frame_witness :
  let w := Frames.buttons_down (Examples.cursor_at 640 480) Frames.no_key in
  let tb := Frames.trackball_idle Examples.camera_five in
  let fp := Frames.first_person_idle Examples.camera_five in
  double_is_finite (x2 (glfwGetCursorPos w)) = true /\
  double_is_finite (y2 (glfwGetCursorPos w)) = true /\
  glfwGetMouseButton w GLFW_MOUSE_BUTTON_MIDDLE = true /\
  tb_MiddleButtonPressed tb = false /\
  fst (TrackballCameraController_update (Examples.f32 1) w tb) = false /\
  glfwGetMouseButton w GLFW_MOUSE_BUTTON_LEFT = true /\
  fp_LeftButtonPressed fp = false /\
  to_bool (panLeftAngle (fp_frame_motion (Examples.f32 1) w fp)) = false.
Proof.
  intros w tb fp.
  assert (Hx : double_is_finite (x2 (glfwGetCursorPos w)) = true) by reflexivity.
  assert (Hy : double_is_finite (y2 (glfwGetCursorPos w)) = true) by reflexivity.
  destruct (press_frame_no_jump Examples.series_trig (Examples.f32 1) w tb fp Hx Hy)
    as [Htb Hfp].
  split; [exact Hx | ]. split; [exact Hy | ].
  split; [reflexivity | ]. split; [reflexivity | ].
  split; [exact (proj1 (Htb eq_refl eq_refl)) | ].
  split; [reflexivity | ]. split; [reflexivity | ].
  exact (proj1 (Hfp eq_refl eq_refl)).
Defined.

(** ** First-person frames without motion *)

Lemma binary32_add_then_sub (x : spec_float) :
  F32.is_finite x = true -> to_bool ((s_zero + x) - x)%g = false.
Proof.
  destruct x as [s | s | | s m e]; cbn [F32.is_finite]; try discriminate; intros _.
  - destruct s; reflexivity.
  - cbn [s_add s_sub s_zero binary32 F32.zero SFadd].
    rewrite SFsub_diag by reflexivity. reflexivity.
Qed.

Lemma binary32_sub_then_add_roll :
  @to_bool spec_float _ ((s_zero - s_lit 1 1000) + s_lit 1 1000)%g = false.
Proof. vm_compute. reflexivity. Qed.

(** X4.  A first-person frame with no key held and a zero cursor delta
    (the button up, just pressed, or held with the cursor at rest) returns
    [false] and leaves the camera alone, whatever the speed and the
    elapsed time. *)
Theorem first_person_idle_returns_false
  (libm : Trig spec_float) (elapsedTime : spec_float) (w : GLFWwindow double)
  (c : FirstPersonCameraController double spec_float) :
  (forall k, glfwGetKey w k = false) ->
  double_is_zero (x2 (fp_cursorDelta w c)) = true ->
  double_is_zero (y2 (fp_cursorDelta w c)) = true ->
  fst (FirstPersonCameraController_update elapsedTime w c) = false /\
  fp_camera (snd (FirstPersonCameraController_update elapsedTime w c)) = fp_camera c.
Proof.
  intros Hkeys Hx Hy.
  rewrite first_person_update_result, first_person_update_camera.
  assert (Hstill : fp_hasMoved (fp_frame_motion elapsedTime w c) = false).
  { unfold fp_hasMoved, fp_frame_motion, fp_motion.
    rewrite !Hkeys. cbn [truckLeft pedestalUp dollyIn rollRightAngle
                         panLeftAngle tiltDownAngle].
    fold (fp_cursorDelta w c).
    rewrite (zero_delta_no_pan _ Hx), (zero_delta_no_movement _ Hy).
    reflexivity. }
  rewrite Hstill. split; reflexivity.
Qed.

Lemma first_person_idle_witness :
  let w := Frames.buttons_up (Examples.cursor_at 640 480) Frames.no_key in
  let c := Frames.first_person_idle Examples.camera_five in
  (forall k, glfwGetKey w k = false) /\
  double_is_zero (x2 (fp_cursorDelta w c)) = true /\
  double_is_zero (y2 (fp_cursorDelta w c)) = true /\
  fst (FirstPersonCameraController_update (Examples.f32 1) w c) = false /\
  fp_camera (snd (FirstPersonCameraController_update (Examples.f32 1) w c))
    = fp_camera c.
Proof.
  intros w c.
  assert (Hkeys : forall k, glfwGetKey w k = false) by reflexivity.
  assert (Hx : double_is_zero (x2 (fp_cursorDelta w c)) = true) by reflexivity.
  assert (Hy : double_is_zero (y2 (fp_cursorDelta w c)) = true) by reflexivity.
  split; [exact Hkeys | ]. split; [exact Hx | ]. split; [exact Hy | ].
  exact (first_person_idle_returns_false Examples.series_trig (Examples.f32 1)
           w c Hkeys Hx Hy).
Defined.

(** X5.  Opposing keys cancel exactly.  When each of the pairs W/S, A/D,
    up/down and Q/E is either held together or not at all, the step
    [m_fSpeed * elapsedTime] is finite and the cursor delta is zero, the
    first-person [update] returns [false] and leaves the camera alone. *)
Theorem first_person_opposing_keys_cancel
  (libm : Trig spec_float) (elapsedTime : spec_float) (w : GLFWwindow double)
  (c : FirstPersonCameraController double spec_float) :
  glfwGetKey w GLFW_KEY_W = glfwGetKey w GLFW_KEY_S ->
  glfwGetKey w GLFW_KEY_A = glfwGetKey w GLFW_KEY_D ->
  glfwGetKey w GLFW_KEY_UP = glfwGetKey w GLFW_KEY_DOWN ->
  glfwGetKey w GLFW_KEY_Q = glfwGetKey w GLFW_KEY_E ->
  F32.is_finite (fp_fSpeed c * elapsedTime)%g = true ->
  double_is_zero (x2 (fp_cursorDelta w c)) = true ->
  double_is_zero (y2 (fp_cursorDelta w c)) = true ->
  fst (FirstPersonCameraController_update elapsedTime w c) = false /\
  fp_camera (snd (FirstPersonCameraController_update elapsedTime w c)) = fp_camera c.
Proof.
  intros HWS HAD HUD HQE Hstep Hx Hy.
  rewrite first_person_update_result, first_person_update_camera.
  assert (Hstill : fp_hasMoved (fp_frame_motion elapsedTime w c) = false).
  { unfold fp_hasMoved, fp_frame_motion, fp_motion.
    rewrite HWS, HAD, HUD, HQE.
    cbn [truckLeft pedestalUp dollyIn rollRightAngle panLeftAngle tiltDownAngle].
    fold (fp_cursorDelta w c).
    rewrite (zero_delta_no_pan _ Hx), (zero_delta_no_movement _ Hy).
    pose proof (binary32_add_then_sub _ Hstep) as Hcancel.
    pose proof binary32_sub_then_add_roll as Hroll.
    destruct (glfwGetKey w GLFW_KEY_S), (glfwGetKey w GLFW_KEY_D),
      (glfwGetKey w GLFW_KEY_DOWN), (glfwGetKey w GLFW_KEY_E);
      rewrite ?Hcancel, ?Hroll; reflexivity. }
  rewrite Hstill. split; reflexivity.
Qed.

Lemma first_person_opposing_keys_witness :
  let w := Frames.buttons_up (Examples.cursor_at 640 480) Frames.opposing_keys in
  let c := Frames.first_person_idle Examples.camera_five in
  glfwGetKey w GLFW_KEY_W = glfwGetKey w GLFW_KEY_S /\
  glfwGetKey w GLFW_KEY_A = glfwGetKey w GLFW_KEY_D /\
  glfwGetKey w GLFW_KEY_UP = glfwGetKey w GLFW_KEY_DOWN /\
  glfwGetKey w GLFW_KEY_Q = glfwGetKey w GLFW_KEY_E /\
  F32.is_finite (fp_fSpeed c * Examples.f32 2)%g = true /\
  fst (FirstPersonCameraController_update (Examples.f32 2) w c) = false.
Proof.
  intros w c.
  assert (Hstep : F32.is_finite (fp_fSpeed c * Examples.f32 2)%g = true) by reflexivity.
  split; [reflexivity | ]. split; [reflexivity | ].
  split; [reflexivity | ]. split; [reflexivity | ].
  split; [exact Hstep | ].
  exact (proj1 (first_person_opposing_keys_cancel Examples.series_trig
                  (Examples.f32 2) w c eq_refl eq_refl eq_refl eq_refl Hstep
                  eq_refl eq_refl)).
Defined.
From Stdlib Require Import RNsatz.

(** * Zoom and orbit in exact arithmetic, continued *)

Section ExactGeometry.

Local Open Scope R_scope.

Lemma exact_normalize_unit (v : vec3 R) :
  0 < dot v v -> dot (normalize v) (normalize v) = 1.
Proof.
  intros Hv. destruct v as [x y z].
  unfold normalize, inversesqrt, dot, vec3_mul, vec3_scale_r in *.
  cbv [x3 y3 z3 s_add s_mul s_div s_one s_sqrt exact] in *.
  set (S := x * x + y * y + z * z) in *.
  assert (HS : sqrt S * sqrt S = S) by (apply sqrt_sqrt; lra).
  assert (Hpos : 0 < sqrt S) by (apply sqrt_lt_R0; exact Hv).
  assert (Hd : x * x + y * y + z * z = S) by reflexivity.
  clearbody S.
  transitivity ((x * x + y * y + z * z) / (sqrt S * sqrt S)).
  - field. lra.
  - rewrite Hd, HS. field. lra.
Qed.

Lemma exact_rotation_keeps_norm (c s kx ky kz vx vy vz : R) :
  s * s + c * c = 1 -> kx * kx + ky * ky + kz * kz = 1 ->
  dot (vec3_add
         (vec3_add (vec3_scale c (Vec3 vx vy vz))
                   (vec3_scale s (cross (Vec3 kx ky kz) (Vec3 vx vy vz))))
         (vec3_scale ((1 - c) * dot (Vec3 kx ky kz) (Vec3 vx vy vz))
                     (Vec3 kx ky kz)))
      (vec3_add
         (vec3_add (vec3_scale c (Vec3 vx vy vz))
                   (vec3_scale s (cross (Vec3 kx ky kz) (Vec3 vx vy vz))))
         (vec3_scale ((1 - c) * dot (Vec3 kx ky kz) (Vec3 vx vy vz))
                     (Vec3 kx ky kz)))
    = vx * vx + vy * vy + vz * vz.
Proof.
  intros Hcs Hk.
  cbv [dot vec3_mul vec3_add vec3_scale cross x3 y3 z3 s_add s_sub s_mul exact].
  nsatz.
Qed.

(** A rotation about a nonzero axis keeps lengths. *)
Lemma exact_rotate_vec_norm (angle : R) (axis v : vec3 R) :
  0 < dot axis axis ->
  dot (rotate_vec angle axis v) (rotate_vec angle axis v) = dot v v.
Proof.
  intros Haxis. rewrite exact_rotate_vec_rodrigues.
  pose proof (@exact_normalize_unit axis Haxis) as Hk.
  revert Hk. generalize (normalize axis). intros [kx ky kz] Hk.
  destruct v as [vx vy vz].
  apply exact_rotation_keeps_norm.
  - pose proof (sin2_cos2 angle) as Hcs. unfold Rsqr in Hcs. exact Hcs.
  - exact Hk.
Qed.

Lemma exact_dot_offset (c r : vec3 R) :
  dot (vec3_sub c (vec3_add c r)) (vec3_sub c (vec3_add c r)) = dot r r.
Proof.
  destruct c as [cx cy cz], r as [rx ry rz].
  cbv [dot vec3_mul vec3_sub vec3_add x3 y3 z3 s_add s_sub s_mul exact]. ring.
Qed.

Lemma exact_dot_flip (a b : vec3 R) :
  dot (vec3_sub a b) (vec3_sub a b) = dot (vec3_sub b a) (vec3_sub b a).
Proof.
  destruct a as [ax ay az], b as [bx b_y bz].
  cbv [dot vec3_mul vec3_sub x3 y3 z3 s_add s_sub s_mul exact]. ring.
Qed.

(** X6.  In exact arithmetic an orbit step keeps the eye at its distance
    from the center, for every pair of movements, as long as the two
    rotation axes (the camera's left axis and the world-up axis) are not
    the zero vector. *)
Theorem exact_orbit_keeps_distance (worldUp : vec3 R) (h v : R) (cam : Camera R) :
  0 < dot worldUp worldUp ->
  0 < dot (left cam) (left cam) ->
  viewLength (orbit worldUp h v cam) = viewLength cam.
Proof.
  intros Hup Hleft.
  assert (Heye : eye (orbit worldUp h v cam)
                 = vec3_add (center cam)
                     (rotate_vec (- h) worldUp
                        (rotate_vec v (left cam)
                           (vec3_sub (eye cam) (center cam)))))
    by reflexivity.
  assert (Hcenter : center (orbit worldUp h v cam) = center cam) by reflexivity.
  unfold viewLength, glm_length. rewrite Heye, Hcenter. f_equal.
  rewrite exact_dot_offset.
  rewrite (@exact_rotate_vec_norm _ _ _ Hup), (@exact_rotate_vec_norm _ _ _ Hleft).
  apply exact_dot_flip.
Qed.

(** X7.  In exact arithmetic a zoom-in by [h > 0] from distance
    [L > 0] leaves the eye at distance [max (L - h) 1e-4]: never closer
    than [1e-4], and a camera that was closer than that is pushed back
    out to [1e-4]. *)
Theorem exact_zoom_in_closed_form (worldUp : vec3 R) (h : R) (cam : Camera R) :
  0 < viewLength cam -> 0 < h ->
  viewLength (zoom worldUp h cam) = Rmax (viewLength cam - h) (1 / 10000).
Proof.
  intros HL Hh. rewrite exact_zoom_viewLength by exact HL.
  unfold clamped, glm_min; cbn [s_ltb exact]; unfold Rltb.
  destruct (Rlt_dec 0 h); [ | contradiction].
  destruct (Rlt_dec (viewLength cam - 1 / 10000) h).
  - rewrite Rmax_right by lra. lra.
  - rewrite Rmax_left by lra. reflexivity.
Qed.

(** X8.  In exact arithmetic a zoom step does not turn the camera: the
    unit vector from the eye to the center is the same after the step,
    for every movement, as long as the eye is off the center. *)
Theorem exact_zoom_keeps_direction (worldUp : vec3 R) (h : R) (cam : Camera R) :
  0 < viewLength cam ->
  normalize (vec3_sub (center (zoom worldUp h cam)) (eye (zoom worldUp h cam)))
    = normalize (vec3_sub (center cam) (eye cam)).
Proof.
  intros HL.
  pose proof (@exact_zoom_viewLength worldUp h cam HL) as Hlen.
  pose proof (@clamped_below h _ HL) as Hk.
  unfold viewLength at 1 in Hlen. unfold glm_length in Hlen.
  unfold normalize, inversesqrt. rewrite Hlen. clear Hlen.
  destruct (exact_zoom_eye_center worldUp h cam) as [-> ->].
  revert Hk. generalize (clamped h (viewLength cam)). intros k Hk.
  revert HL Hk. unfold viewLength, glm_length.
  generalize (dot (vec3_sub (center cam) (eye cam)) (vec3_sub (center cam) (eye cam))).
  intros S HL Hk.
  destruct cam as [[ex ey ez] [cx cy cz] u].
  cbv [vec3_scale_r vec3_sub vec3_add vec3_scale vec3_div center eye m_eye m_center
       x3 y3 z3 s_add s_sub s_mul s_div s_one s_sqrt exact] in *.
  f_equal; field; lra.
Qed.

End ExactGeometry.

Section ExactRun.

Local Open Scope R_scope.

Lemma exact_maxDistance_positive (bboxMin bboxMax : vec3 R) :
  0 < maxDistance bboxMin bboxMax.
Proof.
  unfold maxDistance; cbn [s_ltb s_zero s_lit exact]; unfold Rltb.
  destruct (Rlt_dec 0 _) as [Hpos | _]; [exact Hpos | lra].
Qed.

(** X9.  Whatever the scene bounds, [maxDistance] is positive: in
    binary32 it compares greater than zero even for empty, single-point
    or NaN bounds, where the fallback 100 applies; in exact arithmetic the
    near and far planes derived from it satisfy [0 < near < far]. *)
Theorem maxDistance_always_positive :
  (forall bboxMin bboxMax : vec3 spec_float,
      (s_zero <? maxDistance bboxMin bboxMax)%g = true) /\
  (forall bboxMin bboxMax : vec3 R,
      0 < nearPlane bboxMin bboxMax < farPlane bboxMin bboxMax).
Proof.
  split.
  - intros bboxMin bboxMax. unfold maxDistance.
    destruct (s_zero <? glm_length (vec3_sub bboxMax bboxMin))%g eqn:Hpos;
      [exact Hpos | vm_compute; reflexivity].
  - intros bboxMin bboxMax.
    pose proof (exact_maxDistance_positive bboxMin bboxMax) as HM.
    unfold nearPlane, farPlane; cbn [s_mul s_lit exact]. lra.
Qed.

(** X10.  The camera computed from the scene bounds, in exact arithmetic.
    Its eye coincides with its center exactly when the bounds have no
    extent in x and in z (a single point, or a scene stretched along y
    only); and when the bounds have depth ([diag.z > 0]) the eye sits one
    bounding-box diagonal away from the center. *)
Theorem exact_defaultCamera_distance (bboxMin bboxMax : vec3 R) :
  (eye (defaultCamera bboxMin bboxMax) = center (defaultCamera bboxMin bboxMax) <->
   x3 (vec3_sub bboxMax bboxMin) = 0 /\ z3 (vec3_sub bboxMax bboxMin) = 0) /\
  (0 < z3 (vec3_sub bboxMax bboxMin) ->
   viewLength (defaultCamera bboxMin bboxMax)
     = glm_length (vec3_sub bboxMax bboxMin)).
Proof.
  destruct bboxMin as [ax ay az], bboxMax as [bx b_y bz].
  unfold defaultCamera, viewLength, glm_length.
  cbv [eye center Camera_new m_eye m_center vec3_sub vec3_add vec3_scale cross dot
       vec3_mul x3 y3 z3 s_add s_sub s_mul s_zero s_one s_lit s_ltb exact].
  unfold Rltb. destruct (Rlt_dec 0 (bz - az)) as [Hz | Hz]; split.
  - split.
    + intros [= Hx Hy Hz']. lra.
    + intros [_ Hz']. lra.
  - intros _. f_equal. field.
  - split.
    + intros [= Hx Hy Hz']. lra.
    + intros [Hx Hz']. f_equal; lra.
  - intros Hz'. contradiction.
Qed.

(** X11.  In exact arithmetic the light direction the two sliders set is
    a unit vector, for every pair of angles. *)
Theorem exact_lightDirection_unit (theta phi : R) :
  glm_length (lightDirectionFromAngles theta phi) = 1.
Proof.
  unfold glm_length, lightDirectionFromAngles.
  cbv [dot vec3_mul x3 y3 z3 s_add s_mul s_sqrt s_sin s_cos exact exact_trig].
  pose proof (sin2_cos2 theta) as Ht. pose proof (sin2_cos2 phi) as Hp.
  unfold Rsqr in Ht, Hp.
  replace (sin theta * cos phi * (sin theta * cos phi) + cos theta * cos theta +
           sin theta * sin phi * (sin theta * sin phi)) with 1.
  - apply sqrt_1.
  - transitivity (sin theta * sin theta * (sin phi * sin phi + cos phi * cos phi)
                  + cos theta * cos theta); [ | ring].
    rewrite Hp. lra.
Qed.

End ExactRun.

Section ExactLight.

Local Open Scope R_scope.


End ExactLight.

(** ** Concrete cameras in exact arithmetic *)

Section ExactWitnesses.

Local Open Scope R_scope.

Lemma exact_up_nonzero : 0 < dot Examples.exact_up Examples.exact_up.
Proof.
  cbv [Examples.exact_up dot vec3_mul x3 y3 z3 s_add s_mul exact]. lra.
Qed.

Lemma exact_sqrt_25 : sqrt (0 * 0 + 0 * 0 + -5 * -5) = 5.
Proof.
  replace (0 * 0 + 0 * 0 + -5 * -5) with (5 * 5) by ring.
  apply sqrt_square. lra.
Qed.

Lemma exact_camera_five_front :
  normalize (vec3_sub (center Examples.exact_camera_five)
                      (eye Examples.exact_camera_five))
    = Vec3 0 0 (-1).
Proof.
  cbv [Examples.exact_camera_five normalize inversesqrt vec3_scale_r vec3_sub dot
       vec3_mul center eye m_center m_eye x3 y3 z3
       s_add s_sub s_mul s_div s_one s_sqrt exact].
  replace (0 - 0) with 0 by ring. replace (0 - 5) with (-5) by ring.
  rewrite exact_sqrt_25. f_equal; field.
Qed.

Lemma exact_camera_five_left :
  0 < dot (left Examples.exact_camera_five) (left Examples.exact_camera_five).
Proof.
  unfold left, front. fold (center Examples.exact_camera_five).
  fold (eye Examples.exact_camera_five).
  rewrite exact_camera_five_front.
  rewrite exact_normalize_unit; [lra | ].
  cbv [Examples.exact_camera_five cross dot vec3_mul m_up x3 y3 z3
       s_add s_sub s_mul exact]. lra.
Qed.

End ExactWitnesses.

Lemma exact_orbit_witness :
  (0 < dot Examples.exact_up Examples.exact_up)%R /\
  (0 < dot (left Examples.exact_camera_five) (left Examples.exact_camera_five))%R /\
  viewLength (orbit Examples.exact_up 1%R 2%R Examples.exact_camera_five)
    = viewLength Examples.exact_camera_five.
Proof.
  split; [exact exact_up_nonzero | ]. split; [exact exact_camera_five_left | ].
  exact (@exact_orbit_keeps_distance Examples.exact_up 1%R 2%R
           Examples.exact_camera_five exact_up_nonzero exact_camera_five_left).
Defined.

Lemma exact_zoom_in_witness :
  (0 < viewLength Examples.exact_camera_five)%R /\ (0 < 1)%R /\
  viewLength (zoom Examples.exact_up 1%R Examples.exact_camera_five)
    = Rmax (viewLength Examples.exact_camera_five - 1) (1 / 10000).
Proof.
  assert (Hh : (0 < 1)%R) by lra.
  split; [exact exact_camera_five_viewLength | ]. split; [exact Hh | ].
  exact (@exact_zoom_in_closed_form Examples.exact_up 1%R
           Examples.exact_camera_five exact_camera_five_viewLength Hh).
Defined.

Lemma exact_zoom_direction_witness :
  (0 < viewLength Examples.exact_camera_five)%R /\
  normalize (vec3_sub
               (center (zoom Examples.exact_up 1%R Examples.exact_camera_five))
               (eye (zoom Examples.exact_up 1%R Examples.exact_camera_five)))
    = normalize (vec3_sub (center Examples.exact_camera_five)
                          (eye Examples.exact_camera_five)).
Proof.
  split; [exact exact_camera_five_viewLength | ].
  exact (@exact_zoom_keeps_direction Examples.exact_up 1%R
           Examples.exact_camera_five exact_camera_five_viewLength).
Defined.

Lemma exact_defaultCamera_witness :
  (0 < z3 (vec3_sub Frames.exact_cube_max Frames.exact_cube_min))%R /\
  viewLength (defaultCamera Frames.exact_cube_min Frames.exact_cube_max)
    = glm_length (vec3_sub Frames.exact_cube_max Frames.exact_cube_min).
Proof.
  assert (Hz : (0 < z3 (vec3_sub Frames.exact_cube_max Frames.exact_cube_min))%R).
  { cbv [Frames.exact_cube_max Frames.exact_cube_min vec3_sub z3 s_sub exact]. lra. }
  split; [exact Hz | ].
  exact (proj2 (exact_defaultCamera_distance Frames.exact_cube_min
                  Frames.exact_cube_max) Hz).
Defined.



(** * Further properties of a frame *)

Section FrameCalls.

Context {T : Type} `{Scalar T}.

Lemma draws_follow_bind_weaken (bound : bool) (calls : list (GLCall T)) :
  draws_follow_bind false calls = true -> draws_follow_bind bound calls = true.
Proof.
  destruct calls as [ | c rest]; cbn; [reflexivity | ].
  destruct (is_draw c); [discriminate | ]. intros Hrest. exact Hrest.
Qed.

Lemma draws_follow_bind_app (bound : bool) (l1 l2 : list (GLCall T)) :
  draws_follow_bind bound l1 = true ->
  draws_follow_bind false l2 = true ->
  draws_follow_bind bound (l1 ++ l2) = true.
Proof.
  revert bound. induction l1 as [ | c l1 IH]; intros bound H1 H2; cbn.
  - apply draws_follow_bind_weaken. exact H2.
  - cbn in H1. apply andb_true_iff in H1 as [Hc Hrest].
    rewrite Hc. cbn. apply IH; assumption.
Qed.

Lemma draws_follow_bind_nth (calls : list (GLCall T)) :
  forall (bound : bool) (i : nat) (c : GLCall T),
    draws_follow_bind bound calls = true ->
    nth_error calls (S i) = Some c -> is_draw c = true ->
    exists vao, nth_error calls i = Some (glBindVertexArray vao).
Proof.
  induction calls as [ | c0 rest IH]; intros bound i c Hok Hnth Hdraw;
    [discriminate | ].
  cbn in Hok. apply andb_true_iff in Hok as [_ Hrest].
  destruct i as [ | i].
  - cbn in Hnth. destruct rest as [ | c1 rest]; [discriminate | ].
    injection Hnth as ->. cbn in Hrest. rewrite Hdraw in Hrest.
    apply andb_true_iff in Hrest as [Hbind _].
    destruct c0; try discriminate. eexists; reflexivity.
  - cbn. apply (IH (is_bind c0)) with c; assumption.
Qed.

Variable model : Model T.
Variable ctx : RenderContext T.

Lemma drawPrimitive_shape (vaoRange : VaoRange) (pIdx : Z) (primitive : Primitive)
  (out : list (GLCall T)) :
  drawPrimitive model ctx vaoRange pIdx primitive = Done out ->
  exists vao draw, out = [glBindVertexArray vao; draw] /\ is_draw draw = true.
Proof.
  unfold drawPrimitive.
  destruct (vec_at (vertexArrayObjects ctx) _) as [vao | ]; [ | discriminate].
  destruct (prim_indices primitive >=? 0).
  - destruct (vec_at (accessors model) _) as [accessor | ]; [ | discriminate].
    destruct (vec_at (bufferViews model) _) as [bufferView | ]; [ | discriminate].
    intros [= <-]. eexists _, _. split; reflexivity.
  - destruct (prim_attributes primitive) as [ | [name accessorIdx] others];
      [discriminate | ].
    destruct (vec_at (accessors model) _) as [accessor | ]; [ | discriminate].
    intros [= <-]. eexists _, _. split; reflexivity.
Qed.

Lemma drawPrimitives_shape (vaoRange : VaoRange) (primitives : list Primitive) :
  forall (pIdx : Z) (out : list (GLCall T)),
    drawPrimitives model ctx vaoRange pIdx primitives = Done out ->
    draws_follow_bind false out = true /\
    count_draws out = List.length primitives.
Proof.
  induction primitives as [ | p ps IH]; intros pIdx out; cbn.
  - intros [= <-]. split; reflexivity.
  - destruct (drawPrimitive model ctx vaoRange pIdx p) as [o | | ] eqn:Hp;
      try discriminate.
    destruct (drawPrimitives model ctx vaoRange (pIdx + 1) ps) as [os | | ] eqn:Hps;
      try discriminate.
    intros [= <-]. destruct (IH _ _ Hps) as [Hok Hcount].
    apply drawPrimitive_shape in Hp as [vao [draw [-> Hdraw]]].
    split.
    + cbn. rewrite Hdraw. cbn.
      destruct draw; try discriminate; cbn; apply draws_follow_bind_weaken; exact Hok.
    + unfold count_draws in *. cbn. rewrite Hdraw. cbn. rewrite Hcount. reflexivity.
Qed.

Variable viewMatrix : mat4 T.

(** What a node's own calls are: nothing without a mesh; with a mesh, the
    three matrix uniforms and then the primitive loop. *)
Lemma drawMesh_shape (node : Node T) (modelMatrix : mat4 T) (calls : list (GLCall T)) :
  drawMesh model ctx viewMatrix node modelMatrix = Done calls ->
  (node_mesh node < 0 /\ calls = []) \/
  (0 <= node_mesh node /\
   exists mesh out,
     vec_at (meshes model) (node_mesh node) = Some mesh /\
     calls = glUniformMatrix4fv (modelViewProjMatrixLocation ctx)
               (mat4_mul (projMatrix ctx) (mat4_mul viewMatrix modelMatrix)) ::
             glUniformMatrix4fv (modelViewMatrixLocation ctx)
               (mat4_mul viewMatrix modelMatrix) ::
             glUniformMatrix4fv (normalMatrixLocation ctx)
               (transpose (glm_inverse (mat4_mul viewMatrix modelMatrix))) :: out /\
     draws_follow_bind false out = true /\
     count_draws out = List.length (mesh_primitives mesh)).
Proof.
  unfold drawMesh.
  destruct (Z.geb_spec (node_mesh node) 0) as [Hmesh | Hmesh].
  - unfold drawMeshPrimitives.
    destruct (vec_at (meshes model) (node_mesh node)) as [mesh | ];
      [ | discriminate].
    destruct (vec_at (meshToVertexArrays ctx) (node_mesh node)) as [vaoRange | ];
      [ | discriminate].
    destruct (drawPrimitives _ _ _ _ _) as [out | | ] eqn:Hout; try discriminate.
    intros [= <-]. right. split; [lia | ].
    exists mesh, out. apply drawPrimitives_shape in Hout as [Hok Hcount].
    repeat split; assumption.
  - intros [= <-]. left. split; [lia | reflexivity].
Qed.

Lemma drawMesh_follow_bind (node : Node T) (modelMatrix : mat4 T)
  (calls : list (GLCall T)) :
  drawMesh model ctx viewMatrix node modelMatrix = Done calls ->
  draws_follow_bind false calls = true.
Proof.
  intros Hcalls. apply drawMesh_shape in Hcalls
    as [[_ ->] | [_ (mesh & out & _ & -> & Hok & _)]]; [reflexivity | ].
  cbn. exact Hok.
Qed.

(** Every visit of a traversal carries the calls of its own node. *)
Lemma drawNode_visit_calls (fuel : nat) :
  forall (n : Z) (P : mat4 T) (visits : list (NodeVisit T)),
    drawNode model ctx viewMatrix fuel n P = Done visits ->
    forall v, In v visits ->
    exists node,
      vec_at (nodes model) (v_node v) = Some node /\
      drawMesh model ctx viewMatrix node (v_modelMatrix v) = Done (v_calls v).
Proof.
  induction fuel as [ | fuel IH]; intros n P visits Hrun v Hin;
    apply drawNode_Done_inv in Hrun
      as (fuel' & node & calls & below & Hfuel & Hnode & Hmesh & Hbelow & ->);
    [discriminate | ].
  injection Hfuel as <-.
  destruct Hin as [<- | Hin].
  - exists node. split; assumption.
  - apply in_concat in Hin as [o [Ho Hvo]].
    destruct (Forall2_In_r o Hbelow Ho) as [c [Hc Hrun]].
    apply (IH _ _ _ Hrun). exact Hvo.
Qed.

Lemma flat_map_follow_bind (visits : list (NodeVisit T)) :
  (forall v, In v visits -> draws_follow_bind false (v_calls v) = true) ->
  draws_follow_bind false (flat_map (@v_calls T) visits) = true.
Proof.
  induction visits as [ | v visits IH]; intros Hall; cbn; [reflexivity | ].
  apply draws_follow_bind_app.
  - apply Hall. left. reflexivity.
  - apply IH. intros v' Hv'. apply Hall. right. exact Hv'.
Qed.

End FrameCalls.

Section FrameTheorems.

Context {T : Type} `{Scalar T}.

Variable model : Model T.
Variable ctx : RenderContext T.

Lemma drawRoots_visit_calls (viewMatrix : mat4 T) (fuel : nat)
  (visits : list (NodeVisit T)) :
  drawRoots model ctx viewMatrix fuel = Done visits ->
  forall v, In v visits ->
  exists node,
    vec_at (nodes model) (v_node v) = Some node /\
    drawMesh model ctx viewMatrix node (v_modelMatrix v) = Done (v_calls v).
Proof.
  unfold drawRoots. destruct (defaultScene model >=? 0).
  - destruct (vec_at (scenes model) (defaultScene model)) as [scene | ];
      [ | discriminate].
    intros Hrun v Hin. apply for_each_Done_inv in Hrun as [outs [Houts ->]].
    apply in_concat in Hin as [o [Ho Hvo]].
    destruct (Forall2_In_r o Houts Ho) as [r [_ Hrun]].
    eapply drawNode_visit_calls; eassumption.
  - intros [= <-] v [].
Qed.

Lemma count_draws_app (l1 l2 : list (GLCall T)) :
  count_draws (l1 ++ l2) = (count_draws l1 + count_draws l2)%nat.
Proof. unfold count_draws. rewrite filter_app, length_app. reflexivity. Qed.

Lemma light_uniforms_no_draw (viewMatrix : mat4 T) :
  draws_follow_bind false
    (lightDirectionUniform ctx viewMatrix ++ lightIntensityUniform ctx) = true /\
  count_draws (lightDirectionUniform ctx viewMatrix ++ lightIntensityUniform ctx)
    = 0%nat.
Proof.
  unfold lightDirectionUniform, lightIntensityUniform.
  destruct (lightDirectionLocation ctx >=? 0), (lightFromCamera ctx),
    (lightIntensityLocation ctx >=? 0); split; reflexivity.
Qed.

(** X13.  In every frame, each draw call ([glDrawElements] or
    [glDrawArrays]) comes immediately after a [glBindVertexArray], the
    frame opens with [glViewport] and [glClear], and its last call is
    [glBindVertexArray(0)]. *)
Theorem frame_draws_follow_bind (fuel : nat) (camera : Camera T)
  (calls : list (GLCall T)) :
  drawScene model ctx fuel camera = Done calls ->
  (forall i c,
      nth_error calls (S i) = Some c -> is_draw c = true ->
      exists vao, nth_error calls i = Some (glBindVertexArray vao)) /\
  (exists middle,
      calls = glViewport 0 0 (m_nWindowWidth ctx) (m_nWindowHeight ctx) ::
              glClear (Z.lor GL_COLOR_BUFFER_BIT GL_DEPTH_BUFFER_BIT) ::
              middle ++ [glBindVertexArray 0]).
Proof.
  unfold drawScene. intros Hrun.
  destruct (drawRoots _ _ _ _) as [visits | | ] eqn:Hroots; try discriminate.
  injection Hrun as <-. unfold frameStart. rewrite <- !app_assoc. split.
  - intros i c. apply draws_follow_bind_nth with (bound := false).
    cbn [app draws_follow_bind is_draw is_bind andb].
    destruct (light_uniforms_no_draw (getViewMatrix camera)) as [Hlight _].
    rewrite app_assoc. apply draws_follow_bind_app; [exact Hlight | ].
    apply draws_follow_bind_app; [ | reflexivity].
    apply flat_map_follow_bind. intros v Hv.
    destruct (drawRoots_visit_calls _ _ Hroots v Hv) as [node [_ Hcalls]].
    eapply drawMesh_follow_bind. exact Hcalls.
  - eexists. cbn [app]. f_equal. f_equal. rewrite !app_assoc. reflexivity.
Qed.

Lemma visit_count_draws (viewMatrix : mat4 T) (fuel : nat)
  (visits : list (NodeVisit T)) :
  drawRoots model ctx viewMatrix fuel = Done visits ->
  forall v, In v visits ->
  count_draws (v_calls v) = primitives_of model (v_node v).
Proof.
  intros Hroots v Hv.
  destruct (drawRoots_visit_calls _ _ Hroots v Hv) as [node [Hnode Hcalls]].
  unfold primitives_of. rewrite Hnode.
  apply drawMesh_shape in Hcalls
    as [[Hmesh ->] | [Hmesh (mesh & out & Hm & -> & _ & Hcount)]].
  - destruct (Z.geb_spec (node_mesh node) 0); [lia | reflexivity].
  - destruct (Z.geb_spec (node_mesh node) 0); [ | lia].
    rewrite Hm. exact Hcount.
Qed.

(** X14.  A frame issues exactly one draw call per primitive of the mesh
    of each node it visits, and none for a node without a mesh: the
    number of draw calls of the frame is the sum, over the visits, of the
    primitive counts of the visited nodes' meshes. *)
Theorem frame_draw_count (fuel : nat) (camera : Camera T)
  (calls : list (GLCall T)) (visits : list (NodeVisit T)) :
  drawScene model ctx fuel camera = Done calls ->
  drawRoots model ctx (getViewMatrix camera) fuel = Done visits ->
  count_draws calls
    = list_sum (map (fun v => primitives_of model (v_node v)) visits).
Proof.
  unfold drawScene. intros Hrun Hroots. rewrite Hroots in Hrun.
  injection Hrun as <-. unfold frameStart. rewrite <- !app_assoc.
  change (count_draws
            ([glViewport 0 0 (m_nWindowWidth ctx) (m_nWindowHeight ctx);
              glClear (Z.lor GL_COLOR_BUFFER_BIT GL_DEPTH_BUFFER_BIT)] ++
             lightDirectionUniform ctx (getViewMatrix camera) ++
             lightIntensityUniform ctx ++
             flat_map (@v_calls T) visits ++ [glBindVertexArray 0])
          = list_sum (map (fun v => primitives_of model (v_node v)) visits)).
  rewrite count_draws_app. rewrite app_assoc, count_draws_app.
  destruct (light_uniforms_no_draw (getViewMatrix camera)) as [_ ->].
  rewrite count_draws_app.
  change (count_draws [glBindVertexArray 0]) with 0%nat.
  change (count_draws [glViewport 0 0 (m_nWindowWidth ctx) (m_nWindowHeight ctx);
                       glClear (Z.lor GL_COLOR_BUFFER_BIT GL_DEPTH_BUFFER_BIT)])
    with 0%nat.
  cbn [Nat.add]. rewrite Nat.add_0_r.
  pose proof (visit_count_draws _ _ Hroots) as Heach. clear Hroots.
  induction visits as [ | v vs IH]; cbn [flat_map map list_sum]; [reflexivity | ].
  rewrite count_draws_app, (Heach v (or_introl eq_refl)).
  rewrite IH; [reflexivity | ]. intros v' Hv'. apply Heach. right. exact Hv'.
Qed.

End FrameTheorems.

Lemma frame_draws_follow_bind_witness :
  exists calls,
    drawScene Examples.two_primitives (Examples.context false) 1
              Examples.camera_five = Done calls /\
    nth_error calls 8 = Some (glDrawElements 4 36 5123 104) /\
    nth_error calls 7 = Some (glBindVertexArray 7).
Proof.
  destruct (drawScene Examples.two_primitives (Examples.context false) 1
                      Examples.camera_five) as [calls | | ] eqn:Hrun;
    [ | discriminate Hrun | discriminate Hrun].
  exists calls. split; [reflexivity | ].
  pose proof (proj1 (@frame_draws_follow_bind _ _ _ _ 1%nat _ calls Hrun)) as Hbind.
  assert (Hdraw : nth_error calls 8 = Some (glDrawElements 4 36 5123 104)).
  { revert Hrun. vm_compute. intros [= <-]. reflexivity. }
  split; [exact Hdraw | ].
  destruct (Hbind 7%nat _ Hdraw eq_refl) as [vao Hvao].
  rewrite Hvao. revert Hvao Hrun. vm_compute. intros Hvao [= <-].
  injection Hvao as <-. reflexivity.
Defined.

Lemma frame_draw_count_witness :
  exists calls visits,
    drawScene Examples.two_primitives (Examples.context false) 1
              Examples.camera_five = Done calls /\
    drawRoots Examples.two_primitives (Examples.context false)
              (getViewMatrix Examples.camera_five) 1 = Done visits /\
    count_draws calls = 2%nat.
Proof.
  destruct (drawScene Examples.two_primitives (Examples.context false) 1
                      Examples.camera_five) as [calls | | ] eqn:Hrun;
    [ | discriminate Hrun | discriminate Hrun].
  destruct (drawRoots Examples.two_primitives (Examples.context false)
                      (getViewMatrix Examples.camera_five) 1)
    as [visits | | ] eqn:Hroots;
    [ | discriminate Hroots | discriminate Hroots].
  exists calls, visits. split; [reflexivity | ]. split; [reflexivity | ].
  rewrite (@frame_draw_count _ _ _ _ 1%nat _ calls visits Hrun Hroots).
  revert Hroots. vm_compute. intros [= <-]. reflexivity.
Defined.

(** ** Cycles *)

Section CyclicGraphs.

Context {T : Type} `{Scalar T}.

Variable model : Model T.
Variable ctx : RenderContext T.
Variable viewMatrix : mat4 T.

(** A call that returns has made a returning call, one level deeper, on
    each child. *)
Lemma drawNode_child_returns (fuel : nat) (n c : Z) (P : mat4 T)
  (visits : list (NodeVisit T)) :
  drawNode model ctx viewMatrix fuel n P = Done visits ->
  child model n c ->
  exists fuel' P' visits',
    fuel = S fuel' /\
    drawNode model ctx viewMatrix fuel' c P' = Done visits'.
Proof.
  intros Hrun [node [Hnode Hc]].
  apply drawNode_Done_inv in Hrun
    as (fuel' & node' & calls & below & -> & Hnode' & _ & Hbelow & _).
  rewrite Hnode in Hnode'. injection Hnode' as <-.
  destruct (Forall2_In_l c Hbelow Hc) as [o [_ Hrun]].
  exists fuel', (mat4_mul P (localTransform node)), o. split; [reflexivity | exact Hrun].
Qed.

Lemma cycle_next (n : Z) :
  clos_trans Z (child model) n n ->
  exists c, child model n c /\ clos_trans Z (child model) c c.
Proof.
  intros Hcycle. apply clos_trans_t1n in Hcycle.
  inversion Hcycle as [y Hstep | y z Hstep Hrest]; subst.
  - exists n. split; [exact Hstep | ]. apply t_step. exact Hstep.
  - exists y. split; [exact Hstep | ].
    apply clos_t1n_trans in Hrest.
    apply t_trans with n; [exact Hrest | apply t_step; exact Hstep].
Qed.

Lemma drawNode_on_cycle (fuel : nat) :
  forall (n : Z) (P : mat4 T),
    clos_trans Z (child model) n n ->
    is_done (drawNode model ctx viewMatrix fuel n P) = false.
Proof.
  induction fuel as [ | fuel IH]; intros n P Hcycle; [reflexivity | ].
  destruct (drawNode model ctx viewMatrix (S fuel) n P) as [visits | | ] eqn:Hrun;
    try reflexivity.
  destruct (cycle_next Hcycle) as [c [Hc Hcc]].
  destruct (drawNode_child_returns _ _ Hrun Hc) as (fuel' & P' & visits' & Hf & Hrun').
  injection Hf as <-.
  pose proof (IH c P' Hcc) as Hnot. rewrite Hrun' in Hnot. discriminate.
Qed.

Lemma drawNode_reaches_cycle (r n : Z) :
  clos_refl_trans_1n Z (child model) r n ->
  clos_trans Z (child model) n n ->
  forall (fuel : nat) (P : mat4 T),
    is_done (drawNode model ctx viewMatrix fuel r P) = false.
Proof.
  induction 1 as [r | r c n Hstep _ IH]; intros Hcycle fuel P.
  - apply drawNode_on_cycle. exact Hcycle.
  - destruct (drawNode model ctx viewMatrix fuel r P) as [visits | | ] eqn:Hrun;
      try reflexivity.
    destruct (drawNode_child_returns _ _ Hrun Hstep)
      as (fuel' & P' & visits' & _ & Hrun').
    pose proof (IH Hcycle fuel' P') as Hnot. rewrite Hrun' in Hnot. discriminate.
Qed.

(** X15.  A cycle among the child links that the active scene's roots
    lead to keeps the traversal from ever returning: whatever recursion
    depth is allowed, [drawRoots], and with it [drawScene], does not come
    back with a frame. *)
Theorem cyclic_scene_never_drawn (scene : Scene) (r n : Z) :
  vec_at (scenes model) (defaultScene model) = Some scene ->
  In r (scene_nodes scene) ->
  clos_refl_trans Z (child model) r n ->
  clos_trans Z (child model) n n ->
  forall fuel : nat, is_done (drawRoots model ctx viewMatrix fuel) = false.
Proof.
  intros Hscene Hr Hreach Hcycle fuel.
  rewrite (drawRoots_scene _ _ _ _ Hscene).
  destruct (for_each _ _) as [visits | | ] eqn:Hrun; try reflexivity.
  apply for_each_Done_inv in Hrun as [outs [Houts _]].
  destruct (Forall2_In_l r Houts Hr) as [o [_ Hrun]].
  apply clos_rt_rt1n in Hreach.
  pose proof (drawNode_reaches_cycle Hreach Hcycle fuel mat4_identity) as Hnot.
  rewrite Hrun in Hnot. discriminate.
Qed.

End CyclicGraphs.

Lemma self_loop_child : child Cycles.self_loop 0 0.
Proof. eexists. split; [reflexivity | left; reflexivity]. Qed.

Lemma cyclic_scene_witness :
  vec_at (scenes Cycles.self_loop) (defaultScene Cycles.self_loop)
    = Some (MkScene [0]) /\
  In 0 [0] /\
  clos_refl_trans Z (child Cycles.self_loop) 0 0 /\
  clos_trans Z (child Cycles.self_loop) 0 0 /\
  is_done (drawRoots Cycles.self_loop (Examples.context false) mat4_identity 1000)
    = false.
Proof.
  assert (Hscene : vec_at (scenes Cycles.self_loop) (defaultScene Cycles.self_loop)
                   = Some (MkScene [0])) by reflexivity.
  assert (Hr : In 0 [0]) by (left; reflexivity).
  assert (Hreach : clos_refl_trans Z (child Cycles.self_loop) 0 0) by apply rt_refl.
  assert (Hcycle : clos_trans Z (child Cycles.self_loop) 0 0)
    by (apply t_step; exact self_loop_child).
  split; [exact Hscene | ]. split; [exact Hr | ].
  split; [exact Hreach | ]. split; [exact Hcycle | ].
  exact (@cyclic_scene_never_drawn _ _ Cycles.self_loop (Examples.context false)
           mat4_identity (MkScene [0]) 0 0 Hscene Hr Hreach Hcycle 1000%nat).
Defined.

(** ** Vertex array setup *)

Section SetupTheorems.

Context {T : Type}.

Variable NDEBUG : bool.
Variable genVertexArray : nat -> Z.
Variable model : Model T.
Variable bufferObjects : list Z.

Lemma bind_Ok {A B : Type} (c : Setup.result A) (k : A -> Setup.result B) (b : B) :
  Setup.bind c k = Setup.Ok b -> exists a, c = Setup.Ok a /\ k a = Setup.Ok b.
Proof. destruct c as [a | | ]; simpl; try discriminate. intros Hk. exists a. auto. Qed.

Lemma at_Ok {A : Type} (v : list A) (i : Z) (a : A) :
  Setup.at_ v i = Setup.Ok a -> vec_at v i = Some a.
Proof. unfold Setup.at_. destruct (vec_at v i); congruence. Qed.

Lemma GLsizei_small (n : nat) : Z.of_nat n < 2 ^ 31 -> GLsizei (Z.of_nat n) = Z.of_nat n.
Proof.
  intros Hn. unfold GLsizei.
  rewrite Z.mod_small; lia.
Qed.

Lemma newVertexArrays_small (vaoOffset n : nat) :
  Z.of_nat n < 2 ^ 31 ->
  Setup.newVertexArrays genVertexArray vaoOffset n = map genVertexArray (seq vaoOffset n).
Proof.
  intros Hn. unfold Setup.newVertexArrays. rewrite GLsizei_small by exact Hn.
  destruct (Z.ltb_spec (Z.of_nat n) 0); [lia | reflexivity].
Qed.

Lemma primitive_count_cons (mesh : Mesh) (rest : list Mesh) :
  Setup.primitive_count (mesh :: rest)
  = (List.length (mesh_primitives mesh) + Setup.primitive_count rest)%nat.
Proof. reflexivity. Qed.

Lemma vec_at_nat {A : Type} (v : list A) (i : nat) :
  vec_at v (Z.of_nat i) = nth_error v i.
Proof.
  unfold vec_at. destruct (Z.ltb_spec (Z.of_nat i) 0); [lia | ].
  rewrite Nat2Z.id. reflexivity.
Qed.

(** The mesh loop extends the two vectors it is given and leaves what was
    in them alone. *)
Lemma createMeshes_vectors (meshes : list Mesh) :
  forall (vaos0 : list Z) (ranges0 : list VaoRange) vaos ranges calls,
    Setup.createMeshes NDEBUG genVertexArray model bufferObjects meshes vaos0 ranges0
      = Setup.Ok (vaos, ranges, calls) ->
    Z.of_nat (List.length vaos0 + Setup.primitive_count meshes) < 2 ^ 31 ->
    vaos = vaos0 ++ map genVertexArray
                        (seq (List.length vaos0) (Setup.primitive_count meshes)) /\
    List.length ranges = (List.length ranges0 + List.length meshes)%nat /\
    (forall i, (i < List.length ranges0)%nat -> nth_error ranges i = nth_error ranges0 i) /\
    (forall i mesh, nth_error meshes i = Some mesh ->
       nth_error ranges (List.length ranges0 + i)
       = Some (MkVaoRange (Z.of_nat (List.length vaos0 + vao_offset meshes i))
                          (Z.of_nat (List.length (mesh_primitives mesh))))).
Proof.
  induction meshes as [ | mesh rest IH]; intros vaos0 ranges0 vaos ranges calls Hrun Hsmall.
  - simpl in Hrun. injection Hrun as <- <- <-. simpl.
    rewrite app_nil_r, Nat.add_0_r. repeat split; try reflexivity.
    intros [ | i] mesh; discriminate.
  - simpl in Hrun. rewrite primitive_count_cons in Hsmall.
    apply bind_Ok in Hrun as [slot [_ Hrun]].
    apply bind_Ok in Hrun as [prims [_ Hrun]].
    apply bind_Ok in Hrun as [[[vaos' ranges'] more] [Hrest Hrun]].
    injection Hrun as <- <- <-.
    rewrite newVertexArrays_small in Hrest by lia.
    assert (Hvaos1 : List.length (vaos0 ++ map genVertexArray
                       (seq (List.length vaos0) (List.length (mesh_primitives mesh))))
                     = (List.length vaos0 + List.length (mesh_primitives mesh))%nat)
      by (rewrite length_app, length_map, length_seq; reflexivity).
    assert (Hranges1 : forall r : VaoRange,
               List.length (ranges0 ++ [r]) = (List.length ranges0 + 1)%nat)
      by (intros r; rewrite length_app; reflexivity).
    apply IH in Hrest as (Hvaos & Hlen & Hold & Hnew); [ | rewrite Hvaos1; lia].
    rewrite Hvaos1 in Hvaos, Hnew.
    rewrite Hranges1 in Hlen, Hold, Hnew.
    split; [ | split; [ | split]].
    + rewrite Hvaos, primitive_count_cons, seq_app, map_app, app_assoc. reflexivity.
    + simpl. lia.
    + intros i Hi. rewrite Hold by lia. apply nth_error_app1. exact Hi.
    + intros [ | i] mesh' Hmesh.
      * injection Hmesh as <-. rewrite Nat.add_0_r.
        rewrite Hold by lia. rewrite nth_error_app2 by lia.
        rewrite Nat.sub_diag. simpl.
        rewrite !GLsizei_small by lia.
        unfold vao_offset. simpl. rewrite Nat.add_0_r. reflexivity.
      * simpl in Hmesh. specialize (Hnew i mesh' Hmesh).
        replace (List.length ranges0 + S i)%nat
          with (List.length ranges0 + 1 + i)%nat by lia.
        rewrite Hnew. unfold vao_offset. simpl firstn.
        rewrite primitive_count_cons. do 3 f_equal. lia.
Qed.

Lemma vao_offset_bound (meshes : list Mesh) (i : nat) (mesh : Mesh) :
  nth_error meshes i = Some mesh ->
  (vao_offset meshes i + List.length (mesh_primitives mesh)
   <= Setup.primitive_count meshes)%nat.
Proof.
  revert i. induction meshes as [ | m rest IH]; intros [ | i] Hmesh; try discriminate.
  - injection Hmesh as <-. unfold vao_offset. simpl firstn.
    rewrite primitive_count_cons. unfold Setup.primitive_count at 1. simpl. lia.
  - simpl in Hmesh. apply IH in Hmesh. unfold vao_offset in *. simpl firstn.
    rewrite !primitive_count_cons. lia.
Qed.

(** X16.  [createVertexArrayObjects] gives every primitive of the model
    a vertex array of its own: called as [run] calls it, with an empty
    [meshIndexToVaoRange], it returns one name of the driver per
    primitive, in mesh order, and one range per mesh; the range of a mesh
    begins where the primitives of the meshes before it end and is as
    long as the mesh has primitives. *)
Theorem vao_ranges_partition (vaos : list Z) (ranges : list VaoRange)
  (calls : list Setup.GLSetupCall) :
  Setup.createVertexArrayObjects NDEBUG genVertexArray model bufferObjects []
    = Setup.Ok (vaos, ranges, calls) ->
  Z.of_nat (Setup.primitive_count (meshes model)) < 2 ^ 31 ->
  vaos = map genVertexArray (seq 0 (Setup.primitive_count (meshes model))) /\
  List.length ranges = List.length (meshes model) /\
  forall i mesh, nth_error (meshes model) i = Some mesh ->
    nth_error ranges i
    = Some (MkVaoRange (Z.of_nat (vao_offset (meshes model) i))
                       (Z.of_nat (List.length (mesh_primitives mesh)))) /\
    (vao_offset (meshes model) i + List.length (mesh_primitives mesh)
     <= List.length vaos)%nat.
Proof.
  intros Hrun Hsmall. unfold Setup.createVertexArrayObjects in Hrun.
  apply bind_Ok in Hrun as [[[vaos' ranges'] calls'] [Hrun Hret]].
  injection Hret as <- <- <-.
  apply createMeshes_vectors in Hrun as (Hvaos & Hlen & _ & Hnew); [ | simpl; lia].
  simpl in Hvaos, Hlen, Hnew.
  split; [exact Hvaos | ]. split; [exact Hlen | ].
  intros i mesh Hmesh. split; [apply Hnew; exact Hmesh | ].
  rewrite Hvaos, length_map, length_seq.
  apply vao_offset_bound. exact Hmesh.
Qed.


(** *** What a successful setup has checked *)

Local Abbreviation accepted primitive :=
  ((exists calls, Setup.setAttributes NDEBUG model bufferObjects primitive Setup.vertex_attributes
                  = Setup.Ok calls) /\
   (exists calls, Setup.setIndices NDEBUG model bufferObjects primitive = Setup.Ok calls)).

Lemma setPrimitive_Ok_inv (vaos : list Z) (vaoOffset pIdx : Z)
  (primitive : Primitive) (calls : list Setup.GLSetupCall) :
  Setup.setPrimitive NDEBUG model bufferObjects vaos vaoOffset pIdx primitive = Setup.Ok calls ->
  accepted primitive.
Proof.
  unfold Setup.setPrimitive. intros Hrun.
  apply bind_Ok in Hrun as [vao [_ Hrun]].
  apply bind_Ok in Hrun as [attributes [Hattributes Hrun]].
  apply bind_Ok in Hrun as [indices [Hindices _]].
  split; eexists; eassumption.
Qed.

Lemma setPrimitives_Ok_inv (vaos : list Z) (vaoOffset : Z)
  (primitives : list Primitive) :
  forall (pIdx : Z) (calls : list Setup.GLSetupCall),
    Setup.setPrimitives NDEBUG model bufferObjects vaos vaoOffset pIdx primitives = Setup.Ok calls ->
    forall primitive, In primitive primitives -> accepted primitive.
Proof.
  induction primitives as [ | first rest IH]; intros pIdx calls Hrun primitive Hin;
    [contradiction | ].
  simpl in Hrun.
  apply bind_Ok in Hrun as [c [Hfirst Hrun]].
  apply bind_Ok in Hrun as [more [Hrest _]].
  destruct Hin as [<- | Hin].
  - eapply setPrimitive_Ok_inv. exact Hfirst.
  - eapply IH; eassumption.
Qed.

Lemma createMeshes_accepts (meshes : list Mesh) :
  forall (vaos0 : list Z) (ranges0 : list VaoRange) r,
    Setup.createMeshes NDEBUG genVertexArray model bufferObjects meshes vaos0 ranges0 = Setup.Ok r ->
    forall mesh primitive,
      In mesh meshes -> In primitive (mesh_primitives mesh) -> accepted primitive.
Proof.
  induction meshes as [ | first rest IH]; intros vaos0 ranges0 r Hrun mesh primitive Hmesh Hin;
    [contradiction | ].
  simpl in Hrun.
  apply bind_Ok in Hrun as [slot [_ Hrun]].
  apply bind_Ok in Hrun as [prims [Hfirst Hrun]].
  apply bind_Ok in Hrun as [r' [Hrest _]].
  destruct Hmesh as [<- | Hmesh].
  - eapply setPrimitives_Ok_inv; eassumption.
  - eapply IH; eassumption.
Qed.

Lemma createVertexArrayObjects_accepts (meshIndexToVaoRange : list VaoRange) r :
  Setup.createVertexArrayObjects NDEBUG genVertexArray model bufferObjects meshIndexToVaoRange
    = Setup.Ok r ->
  forall mesh primitive,
    In mesh (meshes model) -> In primitive (mesh_primitives mesh) -> accepted primitive.
Proof.
  unfold Setup.createVertexArrayObjects. intros Hrun.
  apply bind_Ok in Hrun as [r' [Hrun _]].
  eapply createMeshes_accepts. exact Hrun.
Qed.

Lemma assert_Ok {A : Type} (condition : bool) (k : Setup.result A) (a : A) :
  Setup.assert NDEBUG condition k = Setup.Ok a ->
  k = Setup.Ok a /\ (NDEBUG = false -> condition = true).
Proof.
  unfold Setup.assert. destruct NDEBUG; simpl.
  - intros Hk. split; [exact Hk | discriminate].
  - destruct condition; [ | discriminate]. intros Hk. split; [exact Hk | reflexivity].
Qed.

(** The index accessor of an accepted primitive and the buffer view it
    names exist, and the view has passed the [assert]. *)
Lemma setIndices_lookups (primitive : Primitive) (calls : list Setup.GLSetupCall) :
  Setup.setIndices NDEBUG model bufferObjects primitive = Setup.Ok calls ->
  prim_indices primitive >= 0 ->
  exists accessor bufferView,
    vec_at (accessors model) (prim_indices primitive) = Some accessor /\
    vec_at (bufferViews model) (acc_bufferView accessor) = Some bufferView /\
    (NDEBUG = false -> bv_target bufferView = Setup.GL_ELEMENT_ARRAY_BUFFER).
Proof.
  unfold Setup.setIndices. intros Hrun Hindices.
  destruct (Z.geb_spec (prim_indices primitive) 0) as [_ | Hneg]; [ | lia].
  apply bind_Ok in Hrun as [accessor [Haccessor Hrun]].
  apply bind_Ok in Hrun as [bufferView [HbufferView Hrun]].
  apply assert_Ok in Hrun as [_ Htarget].
  exists accessor, bufferView.
  split; [apply at_Ok; exact Haccessor | ].
  split; [apply at_Ok; exact HbufferView | ].
  intros Hdebug. apply Htarget in Hdebug. apply Z.eqb_eq in Hdebug. auto.
Qed.

Lemma setAttribute_lookups (primitive : Primitive) (vertex_attribute : string * Z)
  (calls : list Setup.GLSetupCall) (accessorIdx : Z) :
  Setup.setAttribute NDEBUG model bufferObjects primitive vertex_attribute = Setup.Ok calls ->
  Setup.attributes_find (fst vertex_attribute) (prim_attributes primitive) = Some accessorIdx ->
  exists accessor bufferView,
    vec_at (accessors model) accessorIdx = Some accessor /\
    vec_at (bufferViews model) (acc_bufferView accessor) = Some bufferView /\
    (NDEBUG = false -> bv_target bufferView = Setup.GL_ARRAY_BUFFER).
Proof.
  unfold Setup.setAttribute. intros Hrun Hfind. rewrite Hfind in Hrun.
  apply bind_Ok in Hrun as [accessor [Haccessor Hrun]].
  apply bind_Ok in Hrun as [bufferView [HbufferView Hrun]].
  apply assert_Ok in Hrun as [_ Htarget].
  exists accessor, bufferView.
  split; [apply at_Ok; exact Haccessor | ].
  split; [apply at_Ok; exact HbufferView | ].
  intros Hdebug. apply Htarget in Hdebug. apply Z.eqb_eq in Hdebug. auto.
Qed.

Lemma setAttributes_lookups (primitive : Primitive) (attributes : list (string * Z)) :
  forall (calls : list Setup.GLSetupCall),
    Setup.setAttributes NDEBUG model bufferObjects primitive attributes = Setup.Ok calls ->
    forall vertex_attribute accessorIdx,
      In vertex_attribute attributes ->
      Setup.attributes_find (fst vertex_attribute) (prim_attributes primitive)
        = Some accessorIdx ->
      exists accessor bufferView,
        vec_at (accessors model) accessorIdx = Some accessor /\
        vec_at (bufferViews model) (acc_bufferView accessor) = Some bufferView /\
        (NDEBUG = false -> bv_target bufferView = Setup.GL_ARRAY_BUFFER).
Proof.
  induction attributes as [ | first rest IH];
    intros calls Hrun vertex_attribute accessorIdx Hin Hfind; [contradiction | ].
  simpl in Hrun.
  apply bind_Ok in Hrun as [c [Hfirst Hrun]].
  apply bind_Ok in Hrun as [more [Hrest _]].
  destruct Hin as [<- | Hin].
  - eapply setAttribute_lookups; eassumption.
  - eapply IH; eassumption.
Qed.

(** *** Setup, then a frame *)

Variable ctx : RenderContext T.

Lemma drawPrimitive_after_setup (vaos : list Z) (ranges : list VaoRange)
  (vaoRange : VaoRange) (pIdx vao : Z) (primitive : Primitive) :
  vec_at vaos (vao_begin vaoRange + pIdx) = Some vao ->
  accepted primitive ->
  Setup.drawable primitive = true ->
  exists draw,
    drawPrimitive model (Setup.with_vertex_arrays ctx vaos ranges) vaoRange pIdx primitive
      = Done [glBindVertexArray vao; draw] /\
    is_draw draw = true.
Proof.
  intros Hvao [[attributes Hattributes] [indices Hindices]] Hdrawable.
  unfold drawPrimitive. cbn [Setup.with_vertex_arrays vertexArrayObjects]. rewrite Hvao.
  destruct (Z.geb_spec (prim_indices primitive) 0) as [Hge | Hneg].
  - destruct (@setIndices_lookups primitive indices Hindices) as (accessor & bufferView & -> & -> & _);
      [lia | ].
    eexists. split; reflexivity.
  - unfold Setup.drawable in Hdrawable.
    destruct (Z.geb_spec (prim_indices primitive) 0) as [Hge | _]; [lia | ].
    destruct (prim_attributes primitive) as [ | [name accessorIdx] others] eqn:Hattrs;
      cbn [orb] in Hdrawable; [discriminate | ].
    apply existsb_exists in Hdrawable as [vertex_attribute [Hin Hname]].
    apply String.eqb_eq in Hname.
    destruct (@setAttributes_lookups primitive Setup.vertex_attributes attributes Hattributes
                vertex_attribute accessorIdx Hin)
      as (accessor & bufferView & -> & _).
    + rewrite Hattrs, <- Hname. simpl. rewrite String.eqb_refl. reflexivity.
    + eexists. split; reflexivity.
Qed.

Lemma drawPrimitives_after_setup (vaos : list Z) (ranges : list VaoRange)
  (vaoOffset : nat) (count : Z) (primitives : list Primitive) :
  forall pIdx : nat,
    (forall k, (k < List.length primitives)%nat ->
       nth_error vaos (vaoOffset + pIdx + k)
       = Some (genVertexArray (vaoOffset + pIdx + k))) ->
    (forall primitive, In primitive primitives -> accepted primitive) ->
    forallb Setup.drawable primitives = true ->
    exists draws,
      drawPrimitives model (Setup.with_vertex_arrays ctx vaos ranges)
        (MkVaoRange (Z.of_nat vaoOffset) count) (Z.of_nat pIdx) primitives
        = Done draws /\
      bound_arrays draws
        = map genVertexArray (seq (vaoOffset + pIdx) (List.length primitives)) /\
      count_draws draws = List.length primitives.
Proof.
  induction primitives as [ | primitive rest IH]; intros pIdx Hvaos Haccepted Hdrawable.
  - exists []. repeat split.
  - simpl in Hdrawable. apply andb_prop in Hdrawable as [Hfirst Hrest].
    destruct (@drawPrimitive_after_setup vaos ranges
                (MkVaoRange (Z.of_nat vaoOffset) count) (Z.of_nat pIdx)
                (genVertexArray (vaoOffset + pIdx)) primitive)
      as [draw [Hdraw Hisdraw]].
    + cbn [vao_begin]. rewrite <- Nat2Z.inj_add, vec_at_nat.
      specialize (Hvaos 0%nat). rewrite Nat.add_0_r in Hvaos.
      apply Hvaos. simpl. lia.
    + apply Haccepted. left. reflexivity.
    + exact Hfirst.
    + destruct (IH (S pIdx)) as (draws & Hdraws & Hbound & Hcount).
      * intros k Hk. replace (vaoOffset + S pIdx + k)%nat
          with (vaoOffset + pIdx + S k)%nat by lia.
        apply Hvaos. simpl. lia.
      * intros p Hp. apply Haccepted. right. exact Hp.
      * exact Hrest.
      * exists ([glBindVertexArray (genVertexArray (vaoOffset + pIdx)); draw] ++ draws).
        split; [ | split].
        -- cbn [drawPrimitives]. rewrite Hdraw.
           replace (Z.of_nat pIdx + 1) with (Z.of_nat (S pIdx)) by lia.
           rewrite Hdraws. reflexivity.
        -- cbn [List.length seq map]. unfold bound_arrays in *.
           rewrite flat_map_app, Hbound.
           replace (vaoOffset + S pIdx)%nat with (S (vaoOffset + pIdx)) by lia.
           destruct draw; try discriminate; reflexivity.
        -- unfold count_draws in *. cbn [List.length]. rewrite <- Hcount.
           destruct draw; try discriminate; reflexivity.
Qed.

Lemma drawMeshPrimitives_after_setup (vaos : list Z) (ranges : list VaoRange)
  (calls : list Setup.GLSetupCall) (i : nat) (mesh : Mesh) :
  Setup.createVertexArrayObjects NDEBUG genVertexArray model bufferObjects []
    = Setup.Ok (vaos, ranges, calls) ->
  Z.of_nat (Setup.primitive_count (meshes model)) < 2 ^ 31 ->
  nth_error (meshes model) i = Some mesh ->
  forallb Setup.drawable (mesh_primitives mesh) = true ->
  exists draws,
    drawMeshPrimitives model (Setup.with_vertex_arrays ctx vaos ranges) (Z.of_nat i)
      = Done draws /\
    bound_arrays draws
      = map genVertexArray (seq (vao_offset (meshes model) i)
                                (List.length (mesh_primitives mesh))) /\
    count_draws draws = List.length (mesh_primitives mesh).
Proof.
  intros Hrun Hsmall Hmesh Hdrawable.
  pose proof (@createVertexArrayObjects_accepts _ _ Hrun) as Haccepted.
  unfold Setup.createVertexArrayObjects in Hrun.
  apply bind_Ok in Hrun as [[[vaos' ranges'] calls'] [Hrun Hret]].
  injection Hret as <- <- <-.
  apply createMeshes_vectors in Hrun as (Hvaos & _ & _ & Hnew); [ | simpl; lia].
  simpl in Hvaos, Hnew. specialize (Hnew i mesh Hmesh).
  pose proof (@vao_offset_bound _ _ _ Hmesh) as Hbound.
  unfold drawMeshPrimitives. cbn [Setup.with_vertex_arrays meshToVertexArrays].
  rewrite !vec_at_nat, Hmesh, Hnew.
  destruct (@drawPrimitives_after_setup vaos' ranges' (vao_offset (meshes model) i)
              (Z.of_nat (List.length (mesh_primitives mesh)))
              (mesh_primitives mesh) 0%nat)
    as (draws & Hdraws & Hbinds & Hcount).
  - intros k Hk. rewrite Hvaos, nth_error_map, nth_error_seq.
    destruct (Nat.ltb_spec (vao_offset (meshes model) i + 0 + k)
                           (Setup.primitive_count (meshes model))); [reflexivity | lia].
  - intros primitive Hin. eapply Haccepted; [ | exact Hin].
    eapply nth_error_In. exact Hmesh.
  - exact Hdrawable.
  - exists draws. rewrite Nat.add_0_r in Hbinds.
    split; [exact Hdraws | ]. split; [exact Hbinds | exact Hcount].
Qed.

(** X17.  After a setup that returned, with its two vectors in the
    context, the draw loop reads every mesh of drawable primitives
    without leaving a vector: primitive [p] of mesh [i] is drawn, once,
    right under the vertex array the setup made for it, the one in slot
    [vao_offset i + p]. *)
Theorem setup_makes_mesh_drawable (vaos : list Z) (ranges : list VaoRange)
  (calls : list Setup.GLSetupCall) (i : nat) (mesh : Mesh) :
  Setup.createVertexArrayObjects NDEBUG genVertexArray model bufferObjects []
    = Setup.Ok (vaos, ranges, calls) ->
  Z.of_nat (Setup.primitive_count (meshes model)) < 2 ^ 31 ->
  nth_error (meshes model) i = Some mesh ->
  forallb Setup.drawable (mesh_primitives mesh) = true ->
  exists draws,
    drawMeshPrimitives model (Setup.with_vertex_arrays ctx vaos ranges) (Z.of_nat i)
      = Done draws /\
    bound_arrays draws
      = map genVertexArray (seq (vao_offset (meshes model) i)
                                (List.length (mesh_primitives mesh))) /\
    count_draws draws = List.length (mesh_primitives mesh).
Proof.
  intros Hrun Hsmall Hmesh Hdrawable.
  eapply drawMeshPrimitives_after_setup; eassumption.
Qed.

(** X18.  The setup accepts a primitive the draw loop cannot read: with
    no attributes and no index accessor, [createVertexArrayObjects] only
    binds its vertex array, while [drawPrimitive] dereferences
    [begin(primitive.attributes)] of an empty map. *)
Theorem bare_primitive_set_up_not_drawable (vaos : list Z) (vaoOffset pIdx vao : Z)
  (vaoRange : VaoRange) (pIdx' : Z) (primitive : Primitive) :
  prim_attributes primitive = [] ->
  prim_indices primitive < 0 ->
  vec_at vaos (vaoOffset + pIdx) = Some vao ->
  Setup.setPrimitive NDEBUG model bufferObjects vaos vaoOffset pIdx primitive
    = Setup.Ok [Setup.glBindVertexArray vao] /\
  drawPrimitive model ctx vaoRange pIdx' primitive = Undefined.
Proof.
  intros Hattributes Hindices Hvao. split.
  - assert (Hset : Setup.setAttributes NDEBUG model bufferObjects primitive
                     Setup.vertex_attributes = Setup.Ok []).
    { unfold Setup.vertex_attributes. cbn [Setup.setAttributes].
      unfold Setup.setAttribute. rewrite Hattributes. reflexivity. }
    unfold Setup.setPrimitive, Setup.at_, Setup.setIndices. rewrite Hvao, Hset.
    destruct (Z.geb_spec (prim_indices primitive) 0); [lia | reflexivity].
  - unfold drawPrimitive. rewrite Hattributes.
    destruct (vec_at (vertexArrayObjects ctx) (vao_begin vaoRange + pIdx'));
      [ | reflexivity].
    destruct (Z.geb_spec (prim_indices primitive) 0); [lia | reflexivity].
Qed.

(** X19.  With the [assert]s compiled in, a setup that returns has found
    no buffer view in both roles: the view behind a NORMAL, POSITION or
    TEXCOORD_0 attribute of one primitive is never the view behind the
    index accessor of a primitive of the model. *)
Theorem attribute_and_index_views_differ (meshIndexToVaoRange : list VaoRange)
  r (mesh mesh' : Mesh) (primitive primitive' : Primitive)
  (vertex_attribute : string * Z) (accessorIdx : Z) (accessor accessor' : Accessor) :
  NDEBUG = false ->
  Setup.createVertexArrayObjects NDEBUG genVertexArray model bufferObjects meshIndexToVaoRange
    = Setup.Ok r ->
  In mesh (meshes model) -> In primitive (mesh_primitives mesh) ->
  In mesh' (meshes model) -> In primitive' (mesh_primitives mesh') ->
  In vertex_attribute Setup.vertex_attributes ->
  Setup.attributes_find (fst vertex_attribute) (prim_attributes primitive) = Some accessorIdx ->
  vec_at (accessors model) accessorIdx = Some accessor ->
  prim_indices primitive' >= 0 ->
  vec_at (accessors model) (prim_indices primitive') = Some accessor' ->
  acc_bufferView accessor <> acc_bufferView accessor'.
Proof.
  intros Hdebug Hrun Hmesh Hprimitive Hmesh' Hprimitive' Hin Hfind Haccessor
         Hindices Haccessor' Hsame.
  destruct (@createVertexArrayObjects_accepts _ _ Hrun _ _ Hmesh Hprimitive)
    as [[attributes Hattributes] _].
  destruct (@createVertexArrayObjects_accepts _ _ Hrun _ _ Hmesh' Hprimitive')
    as [_ [indices Hset]].
  destruct (@setAttributes_lookups _ _ _ Hattributes _ _ Hin Hfind)
    as (a & view & Ha & Hview & Htarget).
  destruct (@setIndices_lookups _ _ Hset Hindices)
    as (a' & view' & Ha' & Hview' & Htarget').
  rewrite Haccessor in Ha. injection Ha as <-.
  rewrite Haccessor' in Ha'. injection Ha' as <-.
  rewrite Hsame, Hview' in Hview. injection Hview as <-.
  specialize (Htarget Hdebug). specialize (Htarget' Hdebug).
  rewrite Htarget' in Htarget. discriminate.
Qed.

End SetupTheorems.

Lemma vao_ranges_partition_witness :
  Setup.createVertexArrayObjects false Setup.example_name Examples.two_primitives
    [5] [] = Setup.Ok ([10; 11], [MkVaoRange 0 2], SetupExamples.two_primitives_setup) /\
  Z.of_nat (Setup.primitive_count (meshes Examples.two_primitives)) < 2 ^ 31 /\
  List.length [MkVaoRange 0 2] = List.length (meshes Examples.two_primitives).
Proof.
  assert (Hrun : Setup.createVertexArrayObjects false Setup.example_name
                   Examples.two_primitives [5] []
                 = Setup.Ok ([10; 11], [MkVaoRange 0 2], SetupExamples.two_primitives_setup))
    by reflexivity.
  assert (Hsmall : Z.of_nat (Setup.primitive_count (meshes Examples.two_primitives))
                   < 2 ^ 31) by (vm_compute; reflexivity).
  split; [exact Hrun | ]. split; [exact Hsmall | ].
  exact (proj1 (proj2 (@vao_ranges_partition _ false Setup.example_name
                         Examples.two_primitives [5] _ _ _ Hrun Hsmall))).
Defined.

Lemma setup_makes_mesh_drawable_witness :
  Setup.createVertexArrayObjects false Setup.example_name Examples.two_primitives
    [5] [] = Setup.Ok ([10; 11], [MkVaoRange 0 2], SetupExamples.two_primitives_setup) /\
  Z.of_nat (Setup.primitive_count (meshes Examples.two_primitives)) < 2 ^ 31 /\
  nth_error (meshes Examples.two_primitives) 0
    = Some (MkMesh [SetupExamples.indexed_primitive; SetupExamples.plain_primitive]) /\
  forallb Setup.drawable
    [SetupExamples.indexed_primitive; SetupExamples.plain_primitive] = true /\
  exists draws,
    drawMeshPrimitives Examples.two_primitives
      (Setup.with_vertex_arrays (Examples.context false) [10; 11] [MkVaoRange 0 2]) 0
      = Done draws /\
    bound_arrays draws = [10; 11] /\
    count_draws draws = 2%nat.
Proof.
  assert (Hrun : Setup.createVertexArrayObjects false Setup.example_name
                   Examples.two_primitives [5] []
                 = Setup.Ok ([10; 11], [MkVaoRange 0 2],
                             SetupExamples.two_primitives_setup))
    by reflexivity.
  assert (Hsmall : Z.of_nat (Setup.primitive_count (meshes Examples.two_primitives))
                   < 2 ^ 31) by (vm_compute; reflexivity).
  assert (Hmesh : nth_error (meshes Examples.two_primitives) 0
                  = Some (MkMesh [SetupExamples.indexed_primitive;
                                  SetupExamples.plain_primitive]))
    by reflexivity.
  assert (Hdrawable : forallb Setup.drawable
                        [SetupExamples.indexed_primitive;
                         SetupExamples.plain_primitive] = true)
    by reflexivity.
  split; [exact Hrun | ]. split; [exact Hsmall | ].
  split; [exact Hmesh | ]. split; [exact Hdrawable | ].
  exact (@setup_makes_mesh_drawable _ false Setup.example_name
           Examples.two_primitives [5] (Examples.context false) _ _ _ 0%nat _
           Hrun Hsmall Hmesh Hdrawable).
Defined.

Lemma bare_primitive_witness :
  prim_attributes SetupExamples.bare_primitive = [] /\
  prim_indices SetupExamples.bare_primitive < 0 /\
  vec_at [10] (0 + 0) = Some 10 /\
  Setup.setPrimitive false Examples.two_primitives [5] [10] 0 0
    SetupExamples.bare_primitive = Setup.Ok [Setup.glBindVertexArray 10] /\
  drawPrimitive Examples.two_primitives (Examples.context false) (MkVaoRange 0 1) 0
    SetupExamples.bare_primitive = Undefined.
Proof.
  assert (Hattributes : prim_attributes SetupExamples.bare_primitive = [])
    by reflexivity.
  assert (Hindices : prim_indices SetupExamples.bare_primitive < 0)
    by (vm_compute; reflexivity).
  assert (Hvao : vec_at [10] (0 + 0) = Some 10) by reflexivity.
  split; [exact Hattributes | ]. split; [exact Hindices | ]. split; [exact Hvao | ].
  exact (@bare_primitive_set_up_not_drawable _ false Examples.two_primitives [5]
           (Examples.context false) [10] 0 0 10 (MkVaoRange 0 1) 0
           SetupExamples.bare_primitive Hattributes Hindices Hvao).
Defined.

Lemma attribute_and_index_views_witness :
  Setup.createVertexArrayObjects false Setup.example_name Examples.two_primitives
    [5] [] = Setup.Ok ([10; 11], [MkVaoRange 0 2], SetupExamples.two_primitives_setup) /\
  Setup.attributes_find "POSITION"
    (prim_attributes SetupExamples.indexed_primitive) = Some 1 /\
  vec_at (accessors Examples.two_primitives) 1 = Some (MkAccessor 1 0 5126 24 3) /\
  prim_indices SetupExamples.indexed_primitive >= 0 /\
  vec_at (accessors Examples.two_primitives)
         (prim_indices SetupExamples.indexed_primitive)
    = Some (MkAccessor 0 4 5123 36 64) /\
  acc_bufferView (MkAccessor 1 0 5126 24 3)
    <> acc_bufferView (MkAccessor 0 4 5123 36 64).
Proof.
  assert (Hrun : Setup.createVertexArrayObjects false Setup.example_name
                   Examples.two_primitives [5] []
                 = Setup.Ok ([10; 11], [MkVaoRange 0 2],
                             SetupExamples.two_primitives_setup))
    by reflexivity.
  assert (Hmesh : In (MkMesh [SetupExamples.indexed_primitive;
                              SetupExamples.plain_primitive])
                     (meshes Examples.two_primitives))
    by (left; reflexivity).
  assert (Hprimitive : In SetupExamples.indexed_primitive
                          (mesh_primitives
                             (MkMesh [SetupExamples.indexed_primitive;
                                      SetupExamples.plain_primitive])))
    by (left; reflexivity).
  assert (Hin : In ("POSITION"%string, 0) Setup.vertex_attributes)
    by (right; left; reflexivity).
  assert (Hfind : Setup.attributes_find (fst ("POSITION"%string, 0))
                    (prim_attributes SetupExamples.indexed_primitive) = Some 1)
    by reflexivity.
  assert (Haccessor : vec_at (accessors Examples.two_primitives) 1
                      = Some (MkAccessor 1 0 5126 24 3)) by reflexivity.
  assert (Hindices : prim_indices SetupExamples.indexed_primitive >= 0)
    by (vm_compute; discriminate).
  assert (Haccessor' : vec_at (accessors Examples.two_primitives)
                              (prim_indices SetupExamples.indexed_primitive)
                       = Some (MkAccessor 0 4 5123 36 64)) by reflexivity.
  split; [exact Hrun | ]. split; [exact Hfind | ]. split; [exact Haccessor | ].
  split; [exact Hindices | ]. split; [exact Haccessor' | ].
  exact (@attribute_and_index_views_differ _ false Setup.example_name
           Examples.two_primitives [5] [] _ _ _ _ _ _ _ _ _
           eq_refl Hrun Hmesh Hprimitive Hmesh Hprimitive Hin Hfind Haccessor
           Hindices Haccessor').
Defined.

(** ** From setup to a frame *)

Section SetupThenFrame.

Context {T : Type} `{Scalar T}.

Variable NDEBUG : bool.
Variable genVertexArray : nat -> Z.
Variable model : Model T.
Variable bufferObjects : list Z.
Variable ctx : RenderContext T.

Lemma in_range_nth_error {A : Type} (v : list A) (i : Z) :
  in_range v i = true -> exists a, nth_error v (Z.to_nat i) = Some a /\ 0 <= i.
Proof.
  unfold in_range. intros Hi. apply andb_true_iff in Hi as [Hlo Hhi].
  apply Z.leb_le in Hlo. apply Z.ltb_lt in Hhi.
  destruct (nth_error v (Z.to_nat i)) as [a | ] eqn:Ha.
  - exists a. split; [reflexivity | exact Hlo].
  - apply nth_error_None in Ha. lia.
Qed.

(** The syntactic conditions on the model are what [node_ok] asks of the
    context the setup leaves. *)
Lemma node_ok_after_setup (vaos : list Z) (ranges : list VaoRange)
  (calls : list Setup.GLSetupCall) (node : Node T) :
  Setup.createVertexArrayObjects NDEBUG genVertexArray model bufferObjects []
    = Setup.Ok (vaos, ranges, calls) ->
  Z.of_nat (Setup.primitive_count (meshes model)) < 2 ^ 31 ->
  forallb (fun mesh => forallb Setup.drawable (mesh_primitives mesh)) (meshes model)
    = true ->
  node_in_range model node = true ->
  node_ok model (Setup.with_vertex_arrays ctx vaos ranges) node = true.
Proof.
  intros Hrun Hsmall Hdrawable Hnode. unfold node_in_range in Hnode. unfold node_ok.
  apply andb_true_iff in Hnode as [Hchildren Hmesh].
  rewrite Hchildren. cbn [andb].
  destruct (Z.geb_spec (node_mesh node) 0) as [Hge | Hneg]; [ | reflexivity].
  destruct (Z.ltb_spec (node_mesh node) 0) as [Hlt | _]; [lia | ].
  cbn [orb] in Hmesh.
  apply in_range_nth_error in Hmesh as [mesh [Hmesh _]].
  rewrite forallb_forall in Hdrawable.
  destruct (@drawMeshPrimitives_after_setup T NDEBUG genVertexArray model
              bufferObjects ctx vaos ranges calls (Z.to_nat (node_mesh node)) mesh
              Hrun Hsmall Hmesh)
    as (draws & Hdraws & _).
  - apply Hdrawable. eapply nth_error_In. exact Hmesh.
  - rewrite Z2Nat.id in Hdraws by lia. rewrite Hdraws. reflexivity.
Qed.

(** X20.  A frame after a setup that returned runs to its end.  When
    the roots and the children name nodes, the meshes of the nodes name
    meshes of drawable primitives and no chain of child links comes back
    to a node, [drawScene] on the context that holds the two vectors of
    [createVertexArrayObjects] indexes no vector out of range and
    returns. *)
Theorem frame_after_setup_returns (vaos : list Z) (ranges : list VaoRange)
  (calls : list Setup.GLSetupCall) (scene : Scene) (rank : Z -> nat)
  (fuel : nat) (camera : Camera T) :
  Setup.createVertexArrayObjects NDEBUG genVertexArray model bufferObjects []
    = Setup.Ok (vaos, ranges, calls) ->
  Z.of_nat (Setup.primitive_count (meshes model)) < 2 ^ 31 ->
  vec_at (scenes model) (defaultScene model) = Some scene ->
  model_in_range model (scene_nodes scene) = true ->
  acyclic_by model rank ->
  (forall r, In r (scene_nodes scene) -> (rank r < fuel)%nat) ->
  exists frame,
    drawScene model (Setup.with_vertex_arrays ctx vaos ranges) fuel camera
      = Done frame.
Proof.
  intros Hrun Hsmall Hscene Hmodel Hacyclic Hfuel.
  unfold model_in_range in Hmodel.
  apply andb_true_iff in Hmodel as [Hmodel Hdrawable].
  apply andb_true_iff in Hmodel as [Hroots Hnodes].
  rewrite forallb_forall in Hroots.
  assert (Hok : forallb (node_ok model (Setup.with_vertex_arrays ctx vaos ranges))
                        (nodes model) = true).
  { rewrite forallb_forall in Hnodes. apply forallb_forall. intros node Hin.
    eapply node_ok_after_setup; eauto. }
  destruct (for_each_total
              (fun r => drawNode model (Setup.with_vertex_arrays ctx vaos ranges)
                          (getViewMatrix camera) fuel r mat4_identity)
              (scene_nodes scene)) as [visits Hvisits].
  { intros r Hr. eapply drawNode_terminates; eauto. }
  rewrite <- (drawRoots_scene _ _ _ _ Hscene) in Hvisits.
  unfold drawScene. rewrite Hvisits.
  eexists. reflexivity.
Qed.

End SetupThenFrame.

Lemma two_primitives_acyclic :
  acyclic_by Examples.two_primitives (fun _ => 0%nat).
Proof.
  intros p n [node [Hnode Hin]].
  unfold vec_at in Hnode. destruct (p <? 0); [discriminate | ].
  destruct (Z.to_nat p) as [ | [ | k]]; simpl in Hnode; try discriminate.
  injection Hnode as <-. contradiction.
Qed.

Lemma frame_after_setup_witness :
  Setup.createVertexArrayObjects false Setup.example_name Examples.two_primitives
    [5] [] = Setup.Ok ([10; 11], [MkVaoRange 0 2], SetupExamples.two_primitives_setup) /\
  Z.of_nat (Setup.primitive_count (meshes Examples.two_primitives)) < 2 ^ 31 /\
  vec_at (scenes Examples.two_primitives) (defaultScene Examples.two_primitives)
    = Some (MkScene [0]) /\
  model_in_range Examples.two_primitives [0] = true /\
  acyclic_by Examples.two_primitives (fun _ => 0%nat) /\
  (forall r, In r [0] -> (0 < 1)%nat) /\
  exists frame,
    drawScene Examples.two_primitives
      (Setup.with_vertex_arrays (Examples.context false) [10; 11] [MkVaoRange 0 2])
      1 Examples.camera_five = Done frame.
Proof.
  assert (Hrun : Setup.createVertexArrayObjects false Setup.example_name
                   Examples.two_primitives [5] []
                 = Setup.Ok ([10; 11], [MkVaoRange 0 2],
                             SetupExamples.two_primitives_setup))
    by reflexivity.
  assert (Hsmall : Z.of_nat (Setup.primitive_count (meshes Examples.two_primitives))
                   < 2 ^ 31) by (vm_compute; reflexivity).
  assert (Hscene : vec_at (scenes Examples.two_primitives)
                          (defaultScene Examples.two_primitives)
                   = Some (MkScene [0])) by reflexivity.
  assert (Hmodel : model_in_range Examples.two_primitives [0] = true)
    by (vm_compute; reflexivity).
  assert (Hfuel : forall r, In r [0] -> (0 < 1)%nat) by (intros; lia).
  split; [exact Hrun | ]. split; [exact Hsmall | ]. split; [exact Hscene | ].
  split; [exact Hmodel | ]. split; [exact two_primitives_acyclic | ].
  split; [exact Hfuel | ].
  exact (@frame_after_setup_returns _ _ false Setup.example_name
           Examples.two_primitives [5] (Examples.context false) _ _ _
           (MkScene [0]) (fun _ => 0%nat) 1%nat Examples.camera_five
           Hrun Hsmall Hscene Hmodel two_primitives_acyclic Hfuel).
Defined.

(** ** The fragment shaders, in exact arithmetic *)

Section ExactShaders.

Local Open Scope R_scope.

Lemma exact_glsl_normalize_dot (n L : vec3 R) :
  0 < dot n n ->
  dot (Glsl.normalize n) L * sqrt (dot n n) = dot n L.
Proof.
  intros Hn. apply sqrt_lt_R0 in Hn.
  unfold Glsl.normalize, glm_length.
  cbv [dot vec3_div vec3_mul x3 y3 z3 s_mul s_add s_div s_sqrt exact] in *.
  field. lra.
Qed.

(** Cauchy-Schwarz for a unit [L]: the cosine the shaders compute lies
    between -1 and 1. *)
Lemma exact_cosine_bounded (n L : vec3 R) :
  dot L L = 1 -> 0 < dot n n ->
  -1 <= dot (Glsl.normalize n) L <= 1.
Proof.
  intros HL Hn.
  pose proof (@exact_glsl_normalize_dot n L Hn) as Hd.
  pose proof (sqrt_lt_R0 _ Hn) as Hlen.
  pose proof (sqrt_sqrt (dot n n) (Rlt_le _ _ Hn)) as Hsq.
  set (d := dot (Glsl.normalize n) L) in *.
  set (len := sqrt (dot n n)) in *.
  assert (Hcs : dot n L * dot n L <= dot n n * dot L L).
  { clear. destruct n as [a b c], L as [x y z].
    cbv [dot vec3_mul x3 y3 z3 s_mul s_add exact].
    pose proof (Rle_0_sqr (a * y - b * x)).
    pose proof (Rle_0_sqr (a * z - c * x)).
    pose proof (Rle_0_sqr (b * z - c * y)).
    unfold Rsqr in *. nra. }
  rewrite HL, <- Hd, <- Hsq in Hcs.
  assert (Hdd : d * d <= 1) by nra.
  split; nra.
Qed.

Lemma exact_cosine_sign (n L : vec3 R) :
  0 < dot n n -> dot n L < 0 -> dot (Glsl.normalize n) L < 0.
Proof.
  intros Hn Hneg.
  pose proof (@exact_glsl_normalize_dot n L Hn) as Hd.
  pose proof (sqrt_lt_R0 _ Hn) as Hlen.
  nra.
Qed.

Lemma Rabs_scale_le (a d : R) : -1 <= d <= 1 -> Rabs (a * d) <= Rabs a.
Proof.
  intros Hd. rewrite Rabs_mult.
  assert (Rabs d <= 1) by (apply Rabs_le; exact Hd).
  pose proof (Rabs_pos a). nra.
Qed.

(** X21.  In exact arithmetic the diffuse shader stays within the light:
    for a unit light direction and a normal that is not zero, no
    component of [fColor] exceeds, in absolute value, the light's
    intensity in that component divided by 3.1415. *)
Theorem exact_diffuse_bounded (uLightDirection uLightIntensity n : vec3 R) :
  dot uLightDirection uLightDirection = 1 ->
  0 < dot n n ->
  let fColor := DiffuseShader.main uLightDirection uLightIntensity n in
  Rabs (x3 fColor) <= Rabs (x3 uLightIntensity) / (31415 / 10000) /\
  Rabs (y3 fColor) <= Rabs (y3 uLightIntensity) / (31415 / 10000) /\
  Rabs (z3 fColor) <= Rabs (z3 uLightIntensity) / (31415 / 10000).
Proof.
  intros HL Hn fColor. subst fColor.
  pose proof (@exact_cosine_bounded n uLightDirection HL Hn) as Hd.
  unfold DiffuseShader.main.
  cbv [vec3_scale_r vec3_mul Glsl.splat x3 y3 z3].
  set (d := dot (Glsl.normalize n) uLightDirection) in *.
  cbv [s_mul s_div s_one s_lit exact].
  assert (Hc : forall i, Rabs (1 / (31415 / 10000) * i) = Rabs i / (31415 / 10000)).
  { intros i. rewrite Rabs_mult, (Rabs_pos_eq (1 / (31415 / 10000))); [field | lra]. }
  rewrite <- !Hc.
  repeat split; apply Rabs_scale_le; exact Hd.
Qed.

(** X22.  The diffuse shader does not clamp the cosine: on a surface
    that faces away from the light every component of [fColor] lit with
    positive intensity is negative. *)
Theorem exact_diffuse_negative_when_averted
  (uLightDirection uLightIntensity n : vec3 R) :
  0 < dot n n ->
  dot n uLightDirection < 0 ->
  let fColor := DiffuseShader.main uLightDirection uLightIntensity n in
  (0 < x3 uLightIntensity -> x3 fColor < 0) /\
  (0 < y3 uLightIntensity -> y3 fColor < 0) /\
  (0 < z3 uLightIntensity -> z3 fColor < 0).
Proof.
  intros Hn Hneg fColor. subst fColor.
  pose proof (@exact_cosine_sign n uLightDirection Hn Hneg) as Hd.
  unfold DiffuseShader.main.
  cbv [vec3_scale_r vec3_mul Glsl.splat x3 y3 z3].
  set (d := dot (Glsl.normalize n) uLightDirection) in *.
  cbv [s_mul s_div s_one s_lit exact].
  assert (Hc : 0 < 1 / (31415 / 10000)) by lra.
  repeat split; intros Hi; nra.
Qed.

(** The specular term of the PBR shader: [Vis] is never assigned after
    its initialisation to [0.0]. *)
Lemma exact_specular_dead (F : vec3 R) (D : R) :
  vec3_scale_r (vec3_scale_r F s_zero) D = Vec3 0 0 0.
Proof.
  cbv [vec3_scale_r x3 y3 z3 s_mul s_zero exact]. f_equal; ring.
Qed.

Variable pow : R -> R -> R.

(** X23.  The roughness does not reach the colour.  [Vis] stays at its
    initial [0.0] (the branch assigns [visDenominator]), so the specular
    term vanishes, and with it [alpha] and [D]: in exact arithmetic two
    roughness factors, none of them making [D] a division by zero, give
    the same [fColor]. *)
Theorem exact_pbr_roughness_unused
  (uLightDirection uLightIntensity : vec3 R) (uBaseColorFactor : vec4 R)
  (roughness1 roughness2 uMetallicFactor : R)
  (vViewSpacePosition vViewSpaceNormal : vec3 R)
  (baseColorTexel metallicRoughnessTexel : vec4 R) :
  roughness1 * y4 metallicRoughnessTexel <> 0 ->
  roughness2 * y4 metallicRoughnessTexel <> 0 ->
  PbrShader.main pow uLightDirection uLightIntensity uBaseColorFactor
    roughness1 uMetallicFactor vViewSpacePosition vViewSpaceNormal
    baseColorTexel metallicRoughnessTexel
  = PbrShader.main pow uLightDirection uLightIntensity uBaseColorFactor
      roughness2 uMetallicFactor vViewSpacePosition vViewSpaceNormal
      baseColorTexel metallicRoughnessTexel.
Proof.
  intros _ _. unfold PbrShader.main. cbv zeta.
  rewrite !exact_specular_dead. reflexivity.
Qed.

Lemma exact_clamp_nonpositive (x : R) : x <= 0 -> Glsl.clamp x s_zero s_one = 0.
Proof.
  intros Hx. unfold Glsl.clamp, Glsl.max, Glsl.min.
  cbv [s_ltb s_zero s_one exact]. unfold Rltb.
  destruct (Rlt_dec x 0) as [Hlt | Hge].
  - destruct (Rlt_dec 1 0); [lra | reflexivity].
  - destruct (Rlt_dec 1 x); [lra | lra].
Qed.

(** X24.  Without a specular term a metal is black: when the metallic
    value is 1 the diffuse colour is mixed away, and [fColor] is
    [LINEARtoSRGB] of zero whatever the light, the base colour and the
    geometry.  So is every fragment whose normal makes no acute angle
    with the light direction.  (Exact arithmetic, the roughness keeping
    [D] off a division by zero.) *)
Theorem exact_pbr_black
  (uLightDirection uLightIntensity : vec3 R) (uBaseColorFactor : vec4 R)
  (uRoughnessFactor uMetallicFactor : R)
  (vViewSpacePosition vViewSpaceNormal : vec3 R)
  (baseColorTexel metallicRoughnessTexel : vec4 R) :
  uRoughnessFactor * y4 metallicRoughnessTexel <> 0 ->
  uMetallicFactor * z4 metallicRoughnessTexel = 1 \/
  dot (Glsl.normalize vViewSpaceNormal) uLightDirection <= 0 ->
  PbrShader.main pow uLightDirection uLightIntensity uBaseColorFactor
    uRoughnessFactor uMetallicFactor vViewSpacePosition vViewSpaceNormal
    baseColorTexel metallicRoughnessTexel
  = PbrShader.LINEARtoSRGB pow (Vec3 0 0 0).
Proof.
  intros _ Hcase. unfold PbrShader.main. cbv zeta.
  rewrite exact_specular_dead. f_equal.
  destruct Hcase as [Hmetal | Hdark].
  - change (s_mul uMetallicFactor (z4 metallicRoughnessTexel))
      with (uMetallicFactor * z4 metallicRoughnessTexel).
    rewrite Hmetal.
    cbv [vec3_scale_r vec3_mul vec3_add vec3_sub Glsl.mix Glsl.splat x3 y3 z3
         s_mul s_add s_sub s_zero s_one exact].
    f_equal; ring.
  - rewrite (@exact_clamp_nonpositive _ Hdark).
    cbv [vec3_scale_r x3 y3 z3 s_mul exact]. f_equal; ring.
Qed.

End ExactShaders.

Lemma exact_diffuse_bounded_witness :
  dot ShaderExamples.light_z ShaderExamples.light_z = 1%R /\
  (0 < dot ShaderExamples.facing ShaderExamples.facing)%R /\
  (Rabs (x3 (DiffuseShader.main ShaderExamples.light_z ShaderExamples.white
                                ShaderExamples.facing))
   <= Rabs (x3 ShaderExamples.white) / (31415 / 10000))%R.
Proof.
  assert (HL : dot ShaderExamples.light_z ShaderExamples.light_z = 1%R)
    by (cbv [dot vec3_mul x3 y3 z3 s_mul s_add exact ShaderExamples.light_z]; lra).
  assert (Hn : (0 < dot ShaderExamples.facing ShaderExamples.facing)%R)
    by (cbv [dot vec3_mul x3 y3 z3 s_mul s_add exact ShaderExamples.facing]; lra).
  split; [exact HL | ]. split; [exact Hn | ].
  exact (proj1 (@exact_diffuse_bounded ShaderExamples.light_z ShaderExamples.white
                  ShaderExamples.facing HL Hn)).
Defined.

Lemma exact_diffuse_averted_witness :
  (0 < dot ShaderExamples.averted ShaderExamples.averted)%R /\
  (dot ShaderExamples.averted ShaderExamples.light_z < 0)%R /\
  (0 < x3 ShaderExamples.white)%R /\
  (x3 (DiffuseShader.main ShaderExamples.light_z ShaderExamples.white
                          ShaderExamples.averted) < 0)%R.
Proof.
  assert (Hn : (0 < dot ShaderExamples.averted ShaderExamples.averted)%R)
    by (cbv [dot vec3_mul x3 y3 z3 s_mul s_add exact ShaderExamples.averted]; lra).
  assert (Hneg : (dot ShaderExamples.averted ShaderExamples.light_z < 0)%R)
    by (cbv [dot vec3_mul x3 y3 z3 s_mul s_add exact ShaderExamples.averted
             ShaderExamples.light_z]; lra).
  assert (Hi : (0 < x3 ShaderExamples.white)%R)
    by (cbv [x3 ShaderExamples.white]; lra).
  split; [exact Hn | ]. split; [exact Hneg | ]. split; [exact Hi | ].
  exact (proj1 (@exact_diffuse_negative_when_averted ShaderExamples.light_z
                  ShaderExamples.white ShaderExamples.averted Hn Hneg) Hi).
Defined.

Lemma exact_pbr_roughness_witness :
  (1 * y4 ShaderExamples.rough_metal <> 0)%R /\
  (1 / 2 * y4 ShaderExamples.rough_metal <> 0)%R /\
  PbrShader.main ShaderExamples.square_pow ShaderExamples.light_z
    ShaderExamples.white ShaderExamples.opaque_white 1%R 0%R
    ShaderExamples.position ShaderExamples.facing
    ShaderExamples.opaque_white ShaderExamples.rough_metal
  = PbrShader.main ShaderExamples.square_pow ShaderExamples.light_z
      ShaderExamples.white ShaderExamples.opaque_white (1 / 2)%R 0%R
      ShaderExamples.position ShaderExamples.facing
      ShaderExamples.opaque_white ShaderExamples.rough_metal.
Proof.
  assert (H1 : (1 * y4 ShaderExamples.rough_metal <> 0)%R)
    by (cbv [y4 ShaderExamples.rough_metal]; lra).
  assert (H2 : (1 / 2 * y4 ShaderExamples.rough_metal <> 0)%R)
    by (cbv [y4 ShaderExamples.rough_metal]; lra).
  split; [exact H1 | ]. split; [exact H2 | ].
  exact (@exact_pbr_roughness_unused ShaderExamples.square_pow
           ShaderExamples.light_z ShaderExamples.white ShaderExamples.opaque_white
           1%R (1 / 2)%R 0%R ShaderExamples.position ShaderExamples.facing
           ShaderExamples.opaque_white ShaderExamples.rough_metal H1 H2).
Defined.

Lemma exact_pbr_black_witness :
  (1 * y4 ShaderExamples.rough_metal <> 0)%R /\
  (1 * z4 ShaderExamples.rough_metal = 1)%R /\
  PbrShader.main ShaderExamples.square_pow ShaderExamples.light_z
    ShaderExamples.white ShaderExamples.opaque_white 1%R 1%R
    ShaderExamples.position ShaderExamples.facing
    ShaderExamples.opaque_white ShaderExamples.rough_metal
  = PbrShader.LINEARtoSRGB ShaderExamples.square_pow (Vec3 0 0 0)%R.
Proof.
  assert (H1 : (1 * y4 ShaderExamples.rough_metal <> 0)%R)
    by (cbv [y4 ShaderExamples.rough_metal]; lra).
  assert (H2 : (1 * z4 ShaderExamples.rough_metal = 1)%R)
    by (cbv [z4 ShaderExamples.rough_metal]; lra).
  split; [exact H1 | ]. split; [exact H2 | ].
  exact (@exact_pbr_black ShaderExamples.square_pow
           ShaderExamples.light_z ShaderExamples.white ShaderExamples.opaque_white
           1%R 1%R ShaderExamples.position ShaderExamples.facing
           ShaderExamples.opaque_white ShaderExamples.rough_metal H1
           (or_introl H2)).
Defined.

(** ** When the setup returns *)

Section SetupReturns.

Context {T : Type}.

Variable NDEBUG : bool.
Variable genVertexArray : nat -> Z.
Variable model : Model T.
Variable bufferObjects : list Z.

Lemma at_Ok_iff {A : Type} (v : list A) (i : Z) :
  (exists a, Setup.at_ v i = Setup.Ok a) <-> in_range v i = true.
Proof.
  unfold Setup.at_. split.
  - intros [a Ha]. destruct (vec_at v i) as [a' | ] eqn:Hat; [ | discriminate].
    unfold vec_at in Hat. unfold in_range.
    destruct (Z.ltb_spec i 0) as [Hneg | Hpos]; [discriminate | ].
    assert (Z.to_nat i < List.length v)%nat
      by (apply nth_error_Some; congruence).
    apply andb_true_iff. split; [apply Z.leb_le; lia | apply Z.ltb_lt; lia].
  - intros Hin. destruct (vec_at_in_range _ _ Hin) as [a ->]. exists a. reflexivity.
Qed.

Lemma is_Ok_bind {A B : Type} (c : Setup.result A) (k : A -> Setup.result B) :
  (exists b, Setup.bind c k = Setup.Ok b)
  <-> exists a, c = Setup.Ok a /\ exists b, k a = Setup.Ok b.
Proof.
  split.
  - intros [b Hb]. destruct c as [a | | ]; try discriminate.
    exists a. split; [reflexivity | exists b; exact Hb].
  - intros [a [-> [b Hb]]]. exists b. exact Hb.
Qed.

Lemma setAttribute_Ok_iff (primitive : Primitive) (vertex_attribute : string * Z) :
  (exists calls,
      Setup.setAttribute NDEBUG model bufferObjects primitive vertex_attribute
      = Setup.Ok calls)
  <-> match Setup.attributes_find (fst vertex_attribute)
                                  (prim_attributes primitive) with
      | Some accessorIdx =>
        view_ok NDEBUG model bufferObjects Setup.GL_ARRAY_BUFFER accessorIdx = true
      | None => True
      end.
Proof.
  unfold Setup.setAttribute, view_ok, Setup.assert, Setup.at_.
  destruct (Setup.attributes_find _ _) as [accessorIdx | ];
    [ | split; [trivial | intros _; eexists; reflexivity]].
  destruct (vec_at (accessors model) accessorIdx) as [accessor | ]; cbn [Setup.bind];
    [ | split; [intros [? ?] | ]; discriminate].
  destruct (vec_at (bufferViews model) (acc_bufferView accessor)) as [bufferView | ];
    cbn [Setup.bind]; [ | split; [intros [? ?] | ]; discriminate].
  destruct (NDEBUG || (Setup.GL_ARRAY_BUFFER =? bv_target bufferView)); cbn [andb];
    [ | split; [intros [? ?] | ]; discriminate].
  rewrite <- at_Ok_iff. unfold Setup.at_.
  destruct (vec_at bufferObjects (bv_buffer bufferView)) as [buffer | ]; cbn [Setup.bind].
  - split; intros _; eexists; reflexivity.
  - split; intros [? ?]; discriminate.
Qed.

Lemma setIndices_Ok_iff (primitive : Primitive) :
  (exists calls,
      Setup.setIndices NDEBUG model bufferObjects primitive = Setup.Ok calls)
  <-> (if prim_indices primitive >=? 0 then
         view_ok NDEBUG model bufferObjects Setup.GL_ELEMENT_ARRAY_BUFFER
                 (prim_indices primitive)
       else true) = true.
Proof.
  unfold Setup.setIndices, view_ok, Setup.assert, Setup.at_.
  destruct (prim_indices primitive >=? 0);
    [ | split; [reflexivity | intros _; eexists; reflexivity]].
  destruct (vec_at (accessors model) (prim_indices primitive)) as [accessor | ];
    cbn [Setup.bind]; [ | split; [intros [? ?] | ]; discriminate].
  destruct (vec_at (bufferViews model) (acc_bufferView accessor)) as [bufferView | ];
    cbn [Setup.bind]; [ | split; [intros [? ?] | ]; discriminate].
  destruct (NDEBUG || (Setup.GL_ELEMENT_ARRAY_BUFFER =? bv_target bufferView));
    cbn [andb]; [ | split; [intros [? ?] | ]; discriminate].
  rewrite <- at_Ok_iff. unfold Setup.at_.
  destruct (vec_at bufferObjects (bv_buffer bufferView)) as [buffer | ]; cbn [Setup.bind].
  - split; intros _; eexists; reflexivity.
  - split; intros [? ?]; discriminate.
Qed.

Lemma setAttributes_Ok_iff (primitive : Primitive) (attributes : list (string * Z)) :
  (exists calls,
      Setup.setAttributes NDEBUG model bufferObjects primitive attributes
      = Setup.Ok calls)
  <-> forallb (fun vertex_attribute : string * Z =>
                 match Setup.attributes_find (fst vertex_attribute)
                                             (prim_attributes primitive) with
                 | Some accessorIdx =>
                   view_ok NDEBUG model bufferObjects Setup.GL_ARRAY_BUFFER
                           accessorIdx
                 | None => true
                 end) attributes = true.
Proof.
  induction attributes as [ | first rest IH]; cbn [Setup.setAttributes forallb].
  - split; [reflexivity | intros _; eexists; reflexivity].
  - rewrite is_Ok_bind, andb_true_iff, <- IH. split.
    + intros [calls [Hfirst Hrest]].
      apply is_Ok_bind in Hrest as [more [Hmore _]]. split.
      * pose proof (proj1 (setAttribute_Ok_iff primitive first)
                      (ex_intro _ calls Hfirst)) as Hok.
        destruct (Setup.attributes_find _ _); [exact Hok | reflexivity].
      * exists more. exact Hmore.
    + intros [Hfirst [more Hmore]].
      destruct (proj2 (setAttribute_Ok_iff primitive first)) as [calls Hcalls].
      { destruct (Setup.attributes_find _ _); [exact Hfirst | trivial]. }
      exists calls. split; [exact Hcalls | ].
      rewrite Hmore. eexists. reflexivity.
Qed.

Lemma setPrimitive_Ok_iff (vaos : list Z) (vaoOffset pIdx : Z) (primitive : Primitive) :
  (exists calls,
      Setup.setPrimitive NDEBUG model bufferObjects vaos vaoOffset pIdx primitive
      = Setup.Ok calls)
  <-> in_range vaos (vaoOffset + pIdx) = true /\
      primitive_setup_ok NDEBUG model bufferObjects primitive = true.
Proof.
  unfold Setup.setPrimitive, primitive_setup_ok.
  rewrite is_Ok_bind, andb_true_iff, <- at_Ok_iff,
    <- setAttributes_Ok_iff, <- setIndices_Ok_iff.
  split.
  - intros [vao [Hvao Hrest]].
    apply is_Ok_bind in Hrest as [attributes [Hattributes Hrest]].
    apply is_Ok_bind in Hrest as [indices [Hindices _]].
    split; [exists vao; exact Hvao | ].
    split; eexists; eassumption.
  - intros [[vao Hvao] [[attributes Hattributes] [indices Hindices]]].
    exists vao. split; [exact Hvao | ].
    rewrite Hattributes, Hindices. eexists. reflexivity.
Qed.

Lemma setPrimitives_Ok_iff (vaos : list Z) (vaoOffset : nat)
  (primitives : list Primitive) :
  forall pIdx : nat,
    (vaoOffset + pIdx + List.length primitives <= List.length vaos)%nat ->
    (exists calls,
        Setup.setPrimitives NDEBUG model bufferObjects vaos (Z.of_nat vaoOffset)
          (Z.of_nat pIdx) primitives = Setup.Ok calls)
    <-> forallb (primitive_setup_ok NDEBUG model bufferObjects) primitives = true.
Proof.
  induction primitives as [ | primitive rest IH]; intros pIdx Hlen;
    cbn [Setup.setPrimitives forallb].
  - split; [reflexivity | intros _; eexists; reflexivity].
  - cbn [List.length] in Hlen.
    assert (Hvao : in_range vaos (Z.of_nat vaoOffset + Z.of_nat pIdx) = true).
    { unfold in_range. apply andb_true_iff.
      split; [apply Z.leb_le; lia | apply Z.ltb_lt; lia]. }
    replace (Z.of_nat pIdx + 1) with (Z.of_nat (S pIdx)) by lia.
    rewrite is_Ok_bind, andb_true_iff, <- (IH (S pIdx)) by lia. split.
    + intros [calls [Hfirst Hrest]].
      apply is_Ok_bind in Hrest as [more [Hmore _]]. split.
      * apply (proj1 (setPrimitive_Ok_iff vaos _ _ primitive)
                 (ex_intro _ calls Hfirst)).
      * exists more. exact Hmore.
    + intros [Hfirst [more Hmore]].
      destruct (proj2 (setPrimitive_Ok_iff vaos (Z.of_nat vaoOffset)
                         (Z.of_nat pIdx) primitive) (conj Hvao Hfirst))
        as [calls Hcalls].
      exists calls. split; [exact Hcalls | ].
      rewrite Hmore. eexists. reflexivity.
Qed.

Lemma length_newVertexArrays (vaoOffset n : nat) :
  List.length (Setup.newVertexArrays genVertexArray vaoOffset n) = n.
Proof.
  unfold Setup.newVertexArrays.
  destruct (GLsizei (Z.of_nat n) <? 0).
  - apply repeat_length.
  - rewrite length_map. apply length_seq.
Qed.

Lemma createMeshes_Ok_iff (meshes : list Mesh) :
  forall (vaos0 : list Z) (ranges0 : list VaoRange),
    (exists r,
        Setup.createMeshes NDEBUG genVertexArray model bufferObjects meshes
          vaos0 ranges0 = Setup.Ok r)
    <-> forallb (mesh_setup_ok NDEBUG model bufferObjects) meshes = true.
Proof.
  induction meshes as [ | mesh rest IH]; intros vaos0 ranges0;
    cbn [Setup.createMeshes forallb].
  - split; [reflexivity | intros _; eexists; reflexivity].
  - set (vaos1 := vaos0 ++ Setup.newVertexArrays genVertexArray (List.length vaos0)
                            (List.length (mesh_primitives mesh))).
    set (ranges1 := ranges0 ++ [MkVaoRange (GLsizei (Z.of_nat (List.length vaos0)))
                      (GLsizei (Z.of_nat (List.length (mesh_primitives mesh))))]).
    assert (Hlen1 : List.length vaos1
                    = (List.length vaos0 + List.length (mesh_primitives mesh))%nat)
      by (unfold vaos1; rewrite length_app, length_newVertexArrays; reflexivity).
    pose proof (@setPrimitives_Ok_iff vaos1 (List.length vaos0)
                  (mesh_primitives mesh) 0%nat) as Hprims.
    change (Z.of_nat 0) with 0 in Hprims.
    rewrite andb_true_iff, <- (IH vaos1 ranges1).
    split.
    + intros [r Hr].
      apply bind_Ok in Hr as [slot [Hslot Hr]].
      apply bind_Ok in Hr as [calls [Hcalls Hr]].
      apply bind_Ok in Hr as [r' [Hr' _]].
      split; [ | exists r'; exact Hr'].
      assert (Hin : in_range vaos1 (Z.of_nat (List.length vaos0)) = true)
        by (apply at_Ok_iff; exists slot; exact Hslot).
      unfold in_range in Hin. apply andb_true_iff in Hin as [_ Hin].
      apply Z.ltb_lt in Hin. rewrite Hlen1 in Hin.
      unfold mesh_setup_ok.
      destruct (mesh_primitives mesh) as [ | primitive primitives] eqn:Hmesh;
        [cbn [List.length] in Hin; lia | ].
      apply Hprims; [lia | ]. exists calls. exact Hcalls.
    + intros [Hmesh [r' Hr']]. unfold mesh_setup_ok in Hmesh.
      assert (Hsome : (0 < List.length (mesh_primitives mesh))%nat).
      { destruct (mesh_primitives mesh); [discriminate | cbn [List.length]; lia]. }
      assert (Hok : forallb (primitive_setup_ok NDEBUG model bufferObjects)
                            (mesh_primitives mesh) = true).
      { destruct (mesh_primitives mesh); [discriminate | exact Hmesh]. }
      destruct (proj2 (at_Ok_iff vaos1 (Z.of_nat (List.length vaos0)))) as [slot Hslot].
      { unfold in_range. apply andb_true_iff.
        split; [apply Z.leb_le; lia | apply Z.ltb_lt; lia]. }
      destruct (proj2 (Hprims ltac:(lia)) Hok) as [calls Hcalls].
      rewrite Hslot. cbn [Setup.bind]. rewrite Hcalls. cbn [Setup.bind].
      rewrite Hr'. cbn [Setup.bind]. destruct r' as [[vaos ranges] more].
      eexists. reflexivity.
Qed.

(** X25.  [createVertexArrayObjects] returns exactly when every mesh
    has a primitive and every accessor it follows is there.  For each
    primitive these are the accessors of its NORMAL, POSITION and
    TEXCOORD_0 attributes and its index accessor: each must exist, its
    buffer view must exist and name an existing buffer object, and,
    unless the [assert]s are compiled out, have target
    [GL_ARRAY_BUFFER], respectively [GL_ELEMENT_ARRAY_BUFFER].  A mesh
    without primitives stops it at [&vertexArrayObjects[vaoOffset]], an
    index one past the end of the vector.  Nothing else can: inside the
    primitive loop the index into [vertexArrayObjects] is in range
    whatever the driver wrote, and other attributes are never looked at. *)
Theorem createVertexArrayObjects_returns_iff (meshIndexToVaoRange : list VaoRange) :
  (exists r,
      Setup.createVertexArrayObjects NDEBUG genVertexArray model bufferObjects
        meshIndexToVaoRange = Setup.Ok r)
  <-> forallb (mesh_setup_ok NDEBUG model bufferObjects) (meshes model) = true.
Proof.
  unfold Setup.createVertexArrayObjects.
  rewrite is_Ok_bind, <- (createMeshes_Ok_iff (meshes model) [] meshIndexToVaoRange).
  split.
  - intros [r [Hr _]]. exists r. exact Hr.
  - intros [[[vaos ranges] calls] Hr].
    eexists. split; [exact Hr | ]. eexists. reflexivity.
Qed.

End SetupReturns.

(** ** C4: the orbit step *)

Section ExactOrbit.

Local Open Scope R_scope.

(** In exact arithmetic glm's [normalize] gives the unit vector. *)
Lemma exact_normalize_direction (v : vec3 R) : normalize v = direction v.
Proof.
  unfold normalize, direction, inversesqrt, glm_length.
  cbv [vec3_scale_r vec3_div x3 y3 z3 s_mul s_div s_one s_sqrt exact].
  f_equal; unfold Rdiv; ring.
Qed.




End ExactOrbit.


Section OrbitExample.

Local Open Scope R_scope.






Lemma yaw_then_pitch_value :
  rotation_about (1 / 10) (Vec3 (-1) 0 0)
    (rotation_about (- (1 / 10)) (Vec3 0 1 0) (Vec3 0 0 5))
  = Orbiting.yaw_then_pitch.
Proof.
  cbv [rotation_about Orbiting.yaw_then_pitch vec3_add vec3_scale cross dot
       vec3_mul x3 y3 z3 s_add s_sub s_mul exact].
  rewrite cos_neg, sin_neg. f_equal; ring.
Qed.


End OrbitExample.


(** ** C9: the light direction *)

Section ExactViewSpace.

Local Open Scope R_scope.

(** The view matrix of a camera takes a direction to its coordinates in
    the camera's frame; having [w = 0], the direction is not moved by
    the translation part. *)
Lemma exact_view_of_direction (camera : Camera R) (v : vec3 R) :
  vec3_of (mat4_mul_vec4 (getViewMatrix camera) (vec4_of v 0))
  = in_view_space camera v.
Proof.
  destruct camera as [e c u]. destruct v as [vx vy vz].
  unfold in_view_space, trueUp, left, front, getViewMatrix, lookAt.
  cbn [m_eye m_center m_up].
  generalize (normalize (vec3_sub c e)). intros [fx fy fz].
  destruct u as [ux uy uz].
  unfold normalize, inversesqrt.
  assert (Hflip : dot (cross (Vec3 fx fy fz) (Vec3 ux uy uz))
                      (cross (Vec3 fx fy fz) (Vec3 ux uy uz))
                  = dot (cross (Vec3 ux uy uz) (Vec3 fx fy fz))
                        (cross (Vec3 ux uy uz) (Vec3 fx fy fz))).
  { cbv [dot cross vec3_mul x3 y3 z3 s_add s_sub s_mul exact]. ring. }
  rewrite Hflip.
  generalize (s_sqrt (dot (cross (Vec3 ux uy uz) (Vec3 fx fy fz))
                          (cross (Vec3 ux uy uz) (Vec3 fx fy fz)))).
  intros n.
  cbv [mat4_mul_vec4 vec4_of vec3_of vec4_add vec4_scale_r vec3_scale_r cross dot
       vec3_mul x3 y3 z3 x4 y4 z4 w4 col0 col1 col2 col3
       s_add s_sub s_mul s_div s_opp s_zero s_one exact].
  f_equal; unfold Rdiv; ring.
Qed.

End ExactViewSpace.

(** The third call of a frame. *)
Lemma frameStart_light {T : Type} `{Scalar T} (ctx : RenderContext T)
  (viewMatrix : mat4 T) :
  0 <= lightDirectionLocation ctx ->
  nth_error (frameStart ctx viewMatrix) 2
  = hd_error (lightDirectionUniform ctx viewMatrix).
Proof.
  intros Hloc. unfold frameStart, lightDirectionUniform.
  destruct (Z.geb_spec (lightDirectionLocation ctx) 0); [ | lia].
  destruct (lightFromCamera ctx); reflexivity.
Qed.

(** C9.  The light direction is written before the traversal starts,
    as the third call of the frame, when the shader has the uniform
    ([lightDirectionLocation >= 0]): with the light attached to the
    camera the value is [(0,0,1)] whatever the view matrix and the world
    light direction; otherwise it is
    [normalize(vec3(viewMatrix * vec4(lightDirection, 0)))].  A frame
    that runs to its end begins with these calls.  In exact arithmetic,
    for the view matrix of a camera, the value is the unit vector along
    the light direction expressed in the camera's frame (right, true up,
    backward), whatever the position of the camera. *)
Theorem light_direction_uniform :
  (forall (T : Type) (scalar : Scalar T) (ctx : RenderContext T)
          (viewMatrix : mat4 T),
      0 <= lightDirectionLocation ctx ->
      nth_error (frameStart ctx viewMatrix) 2
      = Some (if lightFromCamera ctx then
                glUniform3f (lightDirectionLocation ctx) s_zero s_zero s_one
              else
                let viewLightDirection :=
                  normalize (vec3_of (mat4_mul_vec4 viewMatrix
                                        (vec4_of (lightDirection ctx) s_zero))) in
                glUniform3f (lightDirectionLocation ctx)
                  (x3 viewLightDirection) (y3 viewLightDirection)
                  (z3 viewLightDirection))) /\
  (forall (T : Type) (scalar : Scalar T) (model : Model T) (ctx : RenderContext T)
          (fuel : nat) (camera : Camera T) (calls : list (GLCall T)),
      drawScene model ctx fuel camera = Done calls ->
      exists rest, calls = frameStart ctx (getViewMatrix camera) ++ rest) /\
  (forall (ctx : RenderContext R) (camera : Camera R),
      0 <= lightDirectionLocation ctx ->
      lightFromCamera ctx = false ->
      let viewLightDirection :=
        direction (in_view_space camera (lightDirection ctx)) in
      nth_error (frameStart ctx (getViewMatrix camera)) 2
      = Some (glUniform3f (lightDirectionLocation ctx)
                (x3 viewLightDirection) (y3 viewLightDirection)
                (z3 viewLightDirection))).
Proof.
  split; [ | split].
  - intros T scalar ctx viewMatrix Hloc.
    rewrite frameStart_light by exact Hloc. unfold lightDirectionUniform.
    destruct (Z.geb_spec (lightDirectionLocation ctx) 0); [ | lia].
    destruct (lightFromCamera ctx); reflexivity.
  - intros T scalar model ctx fuel camera calls Hrun.
    unfold drawScene in Hrun.
    destruct (drawRoots _ _ _ _) as [visits | | ]; try discriminate.
    injection Hrun as <-. eexists. reflexivity.
  - intros ctx camera Hloc Hfree viewLightDirection.
    rewrite frameStart_light by exact Hloc. unfold lightDirectionUniform.
    destruct (Z.geb_spec (lightDirectionLocation ctx) 0); [ | lia].
    rewrite Hfree. cbv zeta. cbn [hd_error].
    change (@s_zero R exact) with 0%R.
    rewrite exact_view_of_direction, exact_normalize_direction.
    reflexivity.
Qed.

Section LightExample.

Local Open Scope R_scope.

Lemma exact_camera_side_front :
  front Lighting.exact_camera_side = Vec3 (-1) 0 0.
Proof.
  cbv [front Lighting.exact_camera_side normalize inversesqrt vec3_scale_r vec3_sub
       dot vec3_mul m_center m_eye x3 y3 z3
       s_add s_sub s_mul s_div s_one s_sqrt exact].
  replace ((0 - 5) * (0 - 5) + (0 - 0) * (0 - 0) + (0 - 0) * (0 - 0))
    with (5 * 5) by ring.
  rewrite sqrt_square by lra. f_equal; field.
Qed.

Lemma exact_camera_side_left :
  left Lighting.exact_camera_side = Vec3 0 0 1.
Proof.
  unfold left. rewrite exact_camera_side_front.
  cbv [Lighting.exact_camera_side normalize inversesqrt vec3_scale_r cross dot
       vec3_mul m_up x3 y3 z3 s_add s_sub s_mul s_div s_one s_sqrt exact].
  replace ((1 * 0 - 0 * 0) * (1 * 0 - 0 * 0) + (0 * -1 - 0 * 0) * (0 * -1 - 0 * 0)
           + (0 * 0 - -1 * 1) * (0 * 0 - -1 * 1)) with 1 by ring.
  rewrite sqrt_1. f_equal; field.
Qed.

Lemma exact_side_light :
  direction (in_view_space Lighting.exact_camera_side (Vec3 3 0 4))
  = Vec3 (- (4 / 5)) 0 (3 / 5).
Proof.
  unfold in_view_space, trueUp.
  rewrite exact_camera_side_left, exact_camera_side_front.
  cbv [direction glm_length vec3_div cross dot vec3_mul x3 y3 z3
       s_add s_sub s_mul s_div s_sqrt exact].
  replace (- (0 * 3 + 0 * 0 + 1 * 4) * - (0 * 3 + 0 * 0 + 1 * 4)
           + ((0 * 1 - 0 * 0) * 3 + (0 * 0 - 1 * -1) * 0 + (-1 * 0 - 0 * 0) * 4)
             * ((0 * 1 - 0 * 0) * 3 + (0 * 0 - 1 * -1) * 0 + (-1 * 0 - 0 * 0) * 4)
           + - (-1 * 3 + 0 * 0 + 0 * 4) * - (-1 * 3 + 0 * 0 + 0 * 4))
    with (5 * 5) by ring.
  rewrite sqrt_square by lra. f_equal; field.
Qed.

End LightExample.

Lemma light_direction_witness :
  0 <= lightDirectionLocation (Lighting.context false) /\
  nth_error (frameStart (Lighting.context false)
                        (getViewMatrix Lighting.camera_side)) 2
    = Some (glUniform3f 3 (x3 Lighting.side_light) (y3 Lighting.side_light)
                        (z3 Lighting.side_light)) /\
  nth_error (frameStart (Lighting.context true)
                        (getViewMatrix Lighting.camera_side)) 2
    = Some (glUniform3f 3 s_zero s_zero s_one) /\
  (exists rest,
      drawScene Examples.nested_translations (Lighting.context false) 3
                Lighting.camera_side
      = Done (frameStart (Lighting.context false)
                         (getViewMatrix Lighting.camera_side) ++ rest)) /\
  nth_error (frameStart (Lighting.exact_context false)
                        (getViewMatrix Lighting.exact_camera_side)) 2
    = Some (glUniform3f 3 (- (4 / 5))%R 0%R (3 / 5)%R).
Proof.
  destruct light_direction_uniform as (Hcall & Hframe & Hexact).
  assert (Hloc : 0 <= lightDirectionLocation (Lighting.context false))
    by (cbn; lia).
  split; [exact Hloc | ]. split; [ | split; [ | split]].
  - rewrite (Hcall _ _ (Lighting.context false)
                   (getViewMatrix Lighting.camera_side) Hloc).
    vm_compute. reflexivity.
  - exact (Hcall _ _ (Lighting.context true)
                 (getViewMatrix Lighting.camera_side) Hloc).
  - destruct (drawScene Examples.nested_translations (Lighting.context false) 3
                        Lighting.camera_side) as [calls | | ] eqn:Hrun;
      [ | discriminate Hrun | discriminate Hrun].
    destruct (Hframe _ _ _ _ _ _ _ Hrun) as [rest ->].
    exists rest. reflexivity.
  - assert (Hloc' : 0 <= lightDirectionLocation (Lighting.exact_context false))
      by (cbn; lia).
    rewrite (Hexact (Lighting.exact_context false) Lighting.exact_camera_side
                    Hloc' eq_refl).
    change (lightDirection (Lighting.exact_context false)) with (Vec3 3 0 4)%R.
    rewrite exact_side_light. reflexivity.
Defined.
